(** * liana-py: local spatial bivariate statistics

    A shallow embedding of [liana/method/sp/_bivariate_funs.py] and
    [liana/method/sp/_spatial_utils.py].

    Floating point arrays are modelled over the real numbers.  Where
    numpy or numba would produce a NaN or an infinity (a division by
    zero, the square root of a negative number) the model does so too,
    through the type [npfloat]; rounding is not modelled.  Python
    exceptions are values of the type [exn] carried by [result].  The
    array operations are total: where numpy needs operands of matching
    shapes, the statements assume them through [has_shape]. *)

From Stdlib Require Import Reals Lra Lia ZArith List String Bool.
From Stdlib Require Import Sorting.Permutation Sorting.Sorted.
From stdpp Require Import gmap strings sorting.
Import ListNotations.
Local Open Scope R_scope.

(** * The program *)

(** ** Python exceptions and results *)

Inductive exn : Type :=
| ValueError (msg : string)
| AssertionError (msg : string).

Inductive result (A : Type) : Type :=
| Ok (a : A)
| Err (e : exn).
Arguments Ok {A} a.
Arguments Err {A} e.

Definition rbind {A B : Type} (r : result A) (k : A -> result B) : result B :=
  match r with
  | Ok a => k a
  | Err e => Err e
  end.

Notation "'do' x <- r ; k" := (rbind r (fun x => k))
  (at level 10, x name, r at level 100, k at level 200).

Definition is_ok {A : Type} (r : result A) : bool :=
  match r with Ok _ => true | Err _ => false end.

(** [traverse f l] runs [f] on the elements of [l] from left to right and
    stops at the first exception. *)
Fixpoint traverse {A B : Type} (f : A -> result B) (l : list A) : result (list B) :=
  match l with
  | [] => Ok []
  | a :: l' => do b <- f a; do bs <- traverse f l'; Ok (b :: bs)
  end.

(** ** Floating point values *)

Module Np.

(** A float is a real number, an infinity or NaN. *)
Inductive npfloat : Type :=
| Fin (r : R)
| PInf
| NInf
| NaN.

Definition Rlt_bool (a b : R) : bool := if Rlt_dec a b then true else false.
Definition Rle_bool (a b : R) : bool := if Rle_dec a b then true else false.
Definition Rgt_bool (a b : R) : bool := Rlt_bool b a.
Definition Rge_bool (a b : R) : bool := Rle_bool b a.
Definition Req_bool (a b : R) : bool := if Req_dec_T a b then true else false.

(** [x ** 0.5]: the square root, NaN below zero. *)
Definition pow_half (x : R) : npfloat :=
  if Rlt_dec x 0 then NaN else Fin (sqrt x).

(** [a / b] for a finite numerator, with IEEE 754 results at zero, at the
    infinities and at NaN. *)
Definition div (a : R) (b : npfloat) : npfloat :=
  match b with
  | Fin d =>
      if Req_dec_T d 0
      then (if Req_dec_T a 0 then NaN else if Rlt_dec 0 a then PInf else NInf)
      else Fin (a / d)
  | PInf | NInf => Fin 0
  | NaN => NaN
  end.

(** [b != 0]: true for NaN and the infinities. *)
Definition ne0 (b : npfloat) : bool :=
  match b with
  | Fin d => negb (Req_bool d 0)
  | _ => true
  end.

(** [np.clip(v, lo, hi)]; NaN stays NaN. *)
Definition clip (lo hi : R) (v : npfloat) : npfloat :=
  match v with
  | Fin r => Fin (if Rlt_dec r lo then lo else if Rlt_dec hi r then hi else r)
  | PInf => Fin hi
  | NInf => Fin lo
  | NaN => NaN
  end.

(** [a >= b]: false as soon as one side is NaN. *)
Definition ge (a b : npfloat) : bool :=
  match a, b with
  | NaN, _ | _, NaN => false
  | PInf, _ => true
  | _, NInf => true
  | Fin x, Fin y => Rge_bool x y
  | Fin _, PInf => false
  | NInf, _ => false
  end.

Definition abs (a : npfloat) : npfloat :=
  match a with
  | Fin r => Fin (Rabs r)
  | PInf | NInf => PInf
  | NaN => NaN
  end.

(** [c / n] for a count [c] and a Python integer [n]. *)
Definition div_int (c : R) (n : Z) : npfloat := div c (Fin (IZR n)).

(** [np.finfo(np.float32).eps] *)
Definition eps32 : R := / 2 ^ 23.

End Np.
Export Np.

(** ** Arrays *)

Definition matrix (A : Type) : Type := list (list A).

Definition tabulate {A : Type} (n : nat) (f : nat -> A) : list A := map f (seq 0 n).

Definition mk_matrix {A : Type} (n m : nat) (f : nat -> nat -> A) : matrix A :=
  tabulate n (fun r => tabulate m (f r)).

(** [shape[0]] and [shape[1]]; a matrix without rows has no columns here. *)
Definition nrows {A : Type} (M : matrix A) : nat := length M.
Definition ncols {A : Type} (M : matrix A) : nat := length (hd [] M).

Definition get_d {A : Type} (d : A) (M : matrix A) (r c : nat) : A := nth c (nth r M []) d.
Definition get (M : matrix R) (r c : nat) : R := get_d 0 M r c.
Definition getf (M : matrix npfloat) (r c : nat) : npfloat := get_d NaN M r c.

(** Every row of [M] has [m] entries and there are [n] rows. *)
Definition has_shape {A : Type} (n m : nat) (M : matrix A) : Prop :=
  length M = n /\ Forall (fun row => length row = m) M.

(** [sum(l)] of Python: additions from the left, starting at 0. *)
Definition py_sum (l : list R) : R := fold_left Rplus l 0.

Definition Rsum (l : list R) : R := fold_right Rplus 0 l.

Definition sum_n (n : nat) (f : nat -> R) : R := py_sum (tabulate n f).

Definition vmul (a b : list R) : list R := map (fun p => fst p * snd p) (combine a b).
Definition vsq (a : list R) : list R := map (fun v => v ^ 2) a.

(** [M.T] *)
Definition transpose (M : matrix R) : matrix R :=
  mk_matrix (ncols M) (nrows M) (fun r c => get M c r).

(** [M[:, j]] *)
Definition column (M : matrix R) (j : nat) : list R := map (fun row => nth j row 0) M.

(** [A.dot(B)] *)
Definition dot (A B : matrix R) : matrix R :=
  mk_matrix (nrows A) (ncols B) (fun r c => sum_n (ncols A) (fun k => get A r k * get B k c)).

(** Elementwise operations on matrices of one shape. *)
Definition emap {A B : Type} (f : A -> B) (M : matrix A) : matrix B := map (map f) M.

Definition emap2 {C : Type} (f : R -> R -> C) (A B : matrix R) : matrix C :=
  mk_matrix (nrows A) (ncols A) (fun r c => f (get A r c) (get B r c)).

Definition emul : matrix R -> matrix R -> matrix R := emap2 Rmult.
Definition esub : matrix R -> matrix R -> matrix R := emap2 Rminus.
Definition esq : matrix R -> matrix R := emap (fun v => v ^ 2).

(** [M * v] for a vector [v] with one entry per column of [M]. *)
Definition mul_row (M : matrix R) (v : list R) : matrix R :=
  mk_matrix (nrows M) (ncols M) (fun r c => get M r c * nth c v 0).

(** [np.sum(M, axis=0)] *)
Definition sum_axis0 (M : matrix R) : list R :=
  tabulate (ncols M) (fun c => sum_n (nrows M) (fun r => get M r c)).

(** [a[msk]] for a boolean mask. *)
Fixpoint mask_select {A : Type} (l : list A) (msk : list bool) : list A :=
  match l, msk with
  | a :: l', b :: msk' => if b then a :: mask_select l' msk' else mask_select l' msk'
  | _, _ => []
  end.

(** ** Ranks *)

Section Argsort.
Context {A : Type} (leb : A -> A -> bool).

Fixpoint insert_sorted (p : A * nat) (l : list (A * nat)) : list (A * nat) :=
  match l with
  | [] => [p]
  | q :: l' => if leb (fst p) (fst q) then p :: l else q :: insert_sorted p l'
  end.

Definition sort_indexed (l : list (A * nat)) : list (A * nat) :=
  fold_right insert_sorted [] l.

(** [np.argsort(l)]: the indices of [l] in the order of its values.  The
    sort is taken stable; numpy leaves the order of equal values open, and
    the sort of numba keeps it on short arrays only.  Where the values are
    all different every sort gives this result. *)
Definition argsort (l : list A) : list nat :=
  map snd (sort_indexed (combine l (seq 0 (length l)))).

End Argsort.

(** [np.argsort(x).argsort().astype(float32)] *)
Definition ordinal_ranks (x : list R) : list R :=
  map INR (argsort Nat.leb (argsort Rle_bool x)).

Definition count_lt (l : list R) (v : R) : nat :=
  length (List.filter (fun u => Rlt_bool u v) l).
Definition count_eq (l : list R) (v : R) : nat :=
  length (List.filter (fun u => Req_bool u v) l).

(** [scipy.stats.rankdata(l)] with its default method: ranks start at 1 and
    tied values share the average of the ranks they span. *)
Definition rankdata (l : list R) : list R :=
  map (fun v => INR (count_lt l v) + (INR (count_eq l v) + 1) / 2) l.

(** ** The engine: [_bivariate_funs.py] *)

Module Bivariate.

(** [_wcorr(x, y, w, wsum, rank)], over the real numbers: the source
    works on float32 arrays and rounds. *)
Definition _wcorr (x y w : list R) (wsum : R) (rank : bool) : npfloat :=
  let x := if rank then ordinal_ranks x else x in
  let y := if rank then ordinal_ranks y else y in
  let wx := vmul w x in
  let wy := vmul w y in
  let numerator := wsum * py_sum (vmul wx y) - py_sum wx * py_sum wy in
  let denominator_x := wsum * py_sum (vmul w (vsq x)) - py_sum wx ^ 2 in
  let denominator_y := wsum * py_sum (vmul w (vsq y)) - py_sum wy ^ 2 in
  let denominator := denominator_x * denominator_y in
  if Req_bool denominator 0 || Req_bool numerator 0
  then Fin 0
  else Np.div numerator (pow_half denominator).

(** [_wcoex(x, y, w, wsum, method)]: 0 is pearson, 1 is spearman. *)
Definition _wcoex (x y w : list R) (wsum : R) (method : Z) : result npfloat :=
  if (method =? 0)%Z then Ok (_wcorr x y w wsum false)
  else if (method =? 1)%Z then Ok (_wcorr x y w wsum true)
  else Err (ValueError "method not supported").

(** [_masked_coexpressions(x_mat, y_mat, weight, weight_thr, method)]:
    the result has one row per spot and one column per pair.  The model is
    for the methods 0 and 1: for another method [_wcoex] raises inside the
    parallel loop of the compiled function, and what a call then shows is
    not modelled. *)
Definition _masked_coexpressions (x_mat y_mat weight : matrix R)
    (weight_thr : R) (method : Z) : result (matrix npfloat) :=
  let spot_n := nrows x_mat in
  let xy_n := ncols x_mat in
  traverse (fun i =>
    let w := nth i weight [] in
    let msk := map (fun v => Rgt_bool v weight_thr) w in
    let wsum := py_sum (mask_select w msk) in
    traverse (fun j =>
      let x := mask_select (column x_mat j) msk in
      let y := mask_select (column y_mat j) msk in
      _wcoex x y (mask_select w msk) wsum method) (seq 0 xy_n)) (seq 0 spot_n).

Definition clamp_small (d : R) : R := if Rlt_dec d 1e-6 then 0 else d.

(** [np.divide(num, den, out=zeros, where=den != 0)] *)
Definition divide_where (num : matrix R) (den : matrix npfloat) : matrix npfloat :=
  mk_matrix (nrows num) (ncols num) (fun r c =>
    if ne0 (getf den r c) then Np.div (get num r c) (getf den r c) else Fin 0).

(** [_vectorized_correlations(x_mat, y_mat, dist, method)]: the result
    has one row per pair and one column per spot. *)
Definition _vectorized_correlations (x_mat y_mat dist : matrix R)
    (method : string) : result (matrix npfloat) :=
  if negb (bool_decide (method = "pearson"%string) || bool_decide (method = "spearman"%string))
  then Err (ValueError "method must be one of 'pearson', 'spearman'")
  else
    let x_mat := transpose x_mat in
    let y_mat := transpose y_mat in
    let weight := transpose dist in
    let weight_sums := sum_axis0 weight in
    let x_mat := if bool_decide (method = "spearman"%string) then map rankdata x_mat else x_mat in
    let y_mat := if bool_decide (method = "spearman"%string) then map rankdata y_mat else y_mat in
    let n1 := mul_row (dot (emul x_mat y_mat) weight) weight_sums in
    let n2 := emul (dot x_mat weight) (dot y_mat weight) in
    let numerator := esub n1 n2 in
    let denominator_x :=
      esub (mul_row (dot (esq x_mat) weight) weight_sums) (esq (dot x_mat weight)) in
    let denominator_y :=
      esub (mul_row (dot (esq y_mat) weight) weight_sums) (esq (dot y_mat weight)) in
    let denominator := emul denominator_x denominator_y in
    let denominator := emap clamp_small denominator in
    let denominator := emap pow_half denominator in
    let local_corrs := divide_where numerator denominator in
    let local_corrs := emap (clip (-1) 1) local_corrs in
    Ok local_corrs.

(** [_vectorized_wcosine(x_mat, y_mat, dist)] *)
Definition _vectorized_wcosine (x_mat y_mat dist : matrix R) : matrix npfloat :=
  let x_mat := transpose x_mat in
  let y_mat := transpose y_mat in
  let weight := transpose dist in
  let xy_dot := dot (emul x_mat y_mat) weight in
  let x_dot := dot (esq x_mat) (transpose weight) in
  let y_dot := dot (esq y_mat) (transpose weight) in
  let denominator := emap (fun v => v + eps32) (emul x_dot y_dot) in
  emap2 (fun n d => Np.div n (pow_half d)) xy_dot denominator.

(** [x > 0] as a number: the booleans of numpy count as 0 and 1. *)
Definition binarize (v : R) : R := if Rlt_dec 0 v then 1 else 0.

(** [_vectorized_jaccard(x_mat, y_mat, dist)] *)
Definition _vectorized_jaccard (x_mat y_mat dist : matrix R) : matrix npfloat :=
  let x_mat := emap binarize x_mat in
  let y_mat := emap binarize y_mat in
  let x_mat := transpose x_mat in
  let y_mat := transpose y_mat in
  let weight := transpose dist in
  let numerator := dot (emap2 Rmin x_mat y_mat) weight in
  let denominator := emap (fun v => v + eps32) (dot (emap2 Rmax x_mat y_mat) weight) in
  emap2 (fun n d => Np.div n (Fin d)) numerator denominator.

End Bivariate.

(** ** Sign categories: [_spatial_utils.py] *)

Module Categories.

(** A cell of a pandas frame after [replace]: a string or an integer. *)
Inductive pyval : Type :=
| PyStr (s : string)
| PyInt (z : Z).

Definition gt0 (v : npfloat) : bool :=
  match v with Fin r => Rlt_bool 0 r | PInf => true | _ => false end.
Definition lt0 (v : npfloat) : bool :=
  match v with Fin r => Rlt_bool r 0 | NInf => true | _ => false end.

(** [mat.mean(axis=0)], over the real numbers. *)
Definition mean_axis0 (mat : matrix R) : list R :=
  tabulate (ncols mat) (fun c => sum_n (nrows mat) (fun r => get mat r c) / INR (nrows mat)).

(** [_standardize_matrix(mat, local)] *)
Definition _standardize_matrix (mat : matrix R) (local : bool) : matrix npfloat :=
  let mean := mean_axis0 mat in
  let mat := mk_matrix (nrows mat) (ncols mat) (fun r c => get mat r c - nth c mean 0) in
  if negb local
  then
    let norm := tabulate (ncols mat) (fun c => sum_n (nrows mat) (fun r => get mat r c ^ 2)) in
    mk_matrix (nrows mat) (ncols mat) (fun r c => Np.div (get mat r c) (pow_half (nth c norm 0)))
  else emap Fin mat.

(** [np.all(a >= 0)]: over the whole matrix. *)
Definition all_nonneg (a : matrix R) : bool := forallb (forallb (fun v => Rle_bool 0 v)) a.

(** [np.where(a > 0, 'P', np.where(a < 0, 'N', 'Z'))] on one value. *)
Definition sign_char (v : npfloat) : string :=
  if gt0 v then "P"%string else if lt0 v then "N"%string else "Z"%string.

(** [_encode_as_char(a)] *)
Definition _encode_as_char (a : matrix R) : matrix string :=
  let a := if all_nonneg a then _standardize_matrix a true else emap Fin a in
  emap sign_char a.

(** [_categorize(x, y)]: the labels of the two sides, concatenated. *)
Definition _categorize (x y : matrix string) : matrix string :=
  mk_matrix (nrows x) (ncols x) (fun r c =>
    String.append (get_d ""%string x r c) (get_d ""%string y r c)).

(** [DataFrame.replace(d)] with its default [regex=False]: a cell that
    is equal to a key of [d] becomes the value of that key, every other
    cell stays as it is. *)
Fixpoint replace_lookup (d : list (string * Z)) (s : string) : option Z :=
  match d with
  | [] => None
  | (k, v) :: d' => if String.eqb k s then Some v else replace_lookup d' s
  end.

Definition df_replace (d : list (string * Z)) (df : matrix string) : matrix pyval :=
  emap (fun s => match replace_lookup d s with Some v => PyInt v | None => PyStr s end) df.

(** [_simplify_cats(df)] *)
Definition _simplify_cats (df : matrix string) : matrix pyval :=
  df_replace [("(^*Z*$)"%string, 0%Z); ("NN"%string, 0%Z); ("PP"%string, 1%Z);
              ("PN"%string, (-1)%Z); ("NP"%string, (-1)%Z)] df.

(** The label of a real number. *)
Definition sign_of (v : R) : string := sign_char (Fin v).

End Categories.

(** ** The permutation test: [_local_permutation_pvals] *)

Module Permutation_test.

(** [x_mat[_idx, :]] *)
Definition take_rows (M : matrix R) (idx : list nat) : matrix R :=
  map (fun k => nth k M []) idx.

(** [local_pvals += np.array(cond, dtype=int)] for a condition on the
    permuted and the true statistic, for matrices of one shape (numpy
    raises on others). *)
Definition add_indicator (cond : npfloat -> npfloat -> bool)
    (local_pvals : matrix R) (perm_score local_truth : matrix npfloat) : matrix R :=
  mk_matrix (nrows local_pvals) (ncols local_pvals) (fun r c =>
    get local_pvals r c
    + (if cond (getf perm_score r c) (getf local_truth r c) then 1 else 0)).

(** [((x_mat > 0) + (y_mat > 0)).T]: the sum of booleans is their
    disjunction. *)
Definition pos_msk (x_mat y_mat : matrix R) : matrix bool :=
  mk_matrix (ncols x_mat) (nrows x_mat) (fun r c =>
    Rgt_bool (get x_mat c r) 0 || Rgt_bool (get y_mat c r) 0).

(** [local_pvals[~msk] = 1], for a mask of the shape of [local_pvals]
    (numpy raises on another one). *)
Definition set_where_not (msk : matrix bool) (local_pvals : matrix npfloat) : matrix npfloat :=
  mk_matrix (nrows local_pvals) (ncols local_pvals) (fun r c =>
    if negb (get_d false msk r c) then Fin 1 else getf local_pvals r c).

Section Tester.

(** The generator of numpy is a parameter of the model: a state, the
    state a seed gives, and the draw of a permutation of [0 .. n-1]. *)
Variable rng_state : Type.
Variable seed_rng : Z -> rng_state.
Variable rng_permutation : rng_state -> nat -> list nat * rng_state.

(** [np.random.default_rng(seed)]: without a seed the generator starts
    from entropy of the operating system.  The seed is taken not negative
    (numpy raises on a negative one). *)
Definition default_rng (seed : option Z) (os_entropy : Z) : rng_state :=
  match seed with
  | Some s => seed_rng s
  | None => seed_rng os_entropy
  end.

(** The statistic function: [local_fun(x_mat=..., y_mat=..., dist=...)]. *)
Definition statistic : Type := matrix R -> matrix R -> matrix R -> result (matrix npfloat).

(** The loop over [range(n)], for what is left of it. *)
Fixpoint permutation_loop (n : nat) (rng : rng_state) (local_pvals : matrix R)
    (x_mat y_mat dist : matrix R) (local_truth : matrix npfloat) (local_fun : statistic)
    (positive_only : bool) : result (matrix R) :=
  match n with
  | O => Ok local_pvals
  | S n' =>
      let spot_n := ncols local_truth in
      let (_idx, rng) := rng_permutation rng spot_n in
      do perm_score <- local_fun (take_rows x_mat _idx) y_mat dist;
      let local_pvals :=
        if positive_only
        then add_indicator Np.ge local_pvals perm_score local_truth
        else add_indicator (fun p t => Np.ge (Np.abs p) (Np.abs t))
               local_pvals perm_score local_truth in
      permutation_loop n' rng local_pvals x_mat y_mat dist local_truth local_fun positive_only
  end.

(** [_local_permutation_pvals(x_mat, y_mat, dist, local_truth, local_fun,
    n_perm, seed, positive_only)] *)
Definition _local_permutation_pvals (x_mat y_mat dist : matrix R)
    (local_truth : matrix npfloat) (local_fun : statistic) (n_perm : Z)
    (seed : option Z) (positive_only : bool) (os_entropy : Z) : result (matrix npfloat) :=
  let rng := default_rng seed os_entropy in
  let xy_n := nrows local_truth in
  let spot_n := ncols local_truth in
  let local_pvals := mk_matrix xy_n spot_n (fun _ _ => 0) in
  do local_pvals <- permutation_loop (Z.to_nat n_perm) rng local_pvals
                      x_mat y_mat dist local_truth local_fun positive_only;
  let local_pvals := emap (fun c => div_int c n_perm) local_pvals in
  let local_pvals :=
    if positive_only then set_where_not (pos_msk x_mat y_mat) local_pvals else local_pvals in
  Ok local_pvals.

(** The counts the loop has accumulated when it ends. *)
Definition permutation_counts (x_mat y_mat dist : matrix R)
    (local_truth : matrix npfloat) (local_fun : statistic) (n_perm : Z)
    (seed : option Z) (positive_only : bool) (os_entropy : Z) : result (matrix R) :=
  permutation_loop (Z.to_nat n_perm) (default_rng seed os_entropy)
    (mk_matrix (nrows local_truth) (ncols local_truth) (fun _ _ => 0))
    x_mat y_mat dist local_truth local_fun positive_only.

End Tester.

(** A generator for examples: its state counts the draws, and the k-th
    draw rotates [0 .. n-1] by [k]. *)
Definition rotation_seed (s : Z) : nat := Z.to_nat s.
Definition rotation_permutation (k : nat) (n : nat) : list nat * nat :=
  (tabulate n (fun i => ((i + k) mod n)%nat), S k).

End Permutation_test.

(** ** The proximity builder: [get_spatial_proximity] *)

Module Proximity.

(** What the builder reads and writes of an [AnnData] object: the arrays
    of [.obsm] by key and the number of observations, [.shape[0]]. *)
Record AnnData : Type := {
  obsm : gmap string (matrix R);
  n_obs : nat
}.

(** [o is None] *)
Definition is_none {A : Type} (o : option A) : bool :=
  match o with None => true | Some _ => false end.

Definition has_shapeb (n m : nat) (M : matrix R) : bool :=
  (length M =? n)%nat && forallb (fun row => (length row =? m)%nat) M.

(** [squareform(pdist(coordinates, 'euclidean'))]; scipy returns a matrix
    of one zero for no point at all. *)
Definition squareform_pdist (coordinates : matrix R) : matrix R :=
  let n := nrows coordinates in
  if (n =? 0)%nat then [[0]]
  else mk_matrix n n (fun i j =>
         sqrt ((get coordinates i 0 - get coordinates j 0) ^ 2
               + (get coordinates i 1 - get coordinates j 1) ^ 2)).

(** The branches on [family], for one distance.  The division is the one
    of the real numbers: [parameter] is taken different from 0. *)
Definition decay (family : string) (parameter : R) (d : R) : R :=
  if bool_decide (family = "gaussian"%string) then exp (- (d ^ 2) / (2 * parameter ^ 2))
  else if bool_decide (family = "misty_rbf"%string) then exp (- (d ^ 2) / parameter ^ 2)
  else if bool_decide (family = "exponential"%string) then exp (- d / parameter)
  else if bool_decide (family = "linear"%string)
       then (let v := 1 - d / parameter in if Rlt_dec v 0 then 0 else v)
  else d.

Definition families : list string :=
  ["gaussian"; "spatialdm"; "exponential"; "linear"]%string.

(** [np.fill_diagonal(proximity, 0)] *)
Definition fill_diagonal (M : matrix R) : matrix R :=
  mk_matrix (nrows M) (ncols M) (fun r c => if (r =? c)%nat then 0 else get M r c).

(** [proximity[proximity < cutoff] = 0] *)
Definition below_cutoff_to_zero (cutoff : R) (M : matrix R) : matrix R :=
  emap (fun v => if Rlt_dec v cutoff then 0 else v) M.

Section Builder.

(** Parameters of the model: the neighbour graph of scikit-learn,
    [NearestNeighbors(n_neighbors=k).fit(P).kneighbors_graph(P).toarray()],
    which may raise, and the rounding to half precision. *)
Variable kneighbors_graph : nat -> matrix R -> result (matrix R).
Variable astype_float16 : R -> R.

(** The middle of [get_spatial_proximity]: from the coordinates to the
    sparse matrix, which holds the same values as the dense one. *)
Definition proximity_of (coordinates : matrix R) (parameter : R) (family : string)
    (cutoff : option R) (n_neighbors : option nat) (bypass_diagonal : bool)
    (shape0 : nat) : result (matrix R) :=
  let proximity := squareform_pdist coordinates in
  let proximity := emap (decay family parameter) proximity in
  let proximity := if bypass_diagonal then fill_diagonal proximity else proximity in
  let proximity :=
    match cutoff with
    | Some c => below_cutoff_to_zero c proximity
    | None => proximity
    end in
  do proximity <-
    match n_neighbors with
    | Some k => do knn <- kneighbors_graph k proximity; Ok (emul proximity knn)
    | None => Ok proximity
    end;
  let spot_n := nrows proximity in
  if negb (spot_n =? shape0)%nat then Err (AssertionError "")
  else
    let proximity :=
      if (1000 <? spot_n)%nat then emap astype_float16 proximity else proximity in
    Ok proximity.

(** [get_spatial_proximity(adata, parameter, family, cutoff, n_neighbors,
    bypass_diagonal, inplace)]: the object after the call, and the value
    returned or the exception raised. *)
Definition get_spatial_proximity (adata : AnnData) (parameter : R) (family : string)
    (cutoff : option R) (n_neighbors : option nat) (bypass_diagonal inplace : bool)
    : AnnData * result (option (matrix R)) :=
  if negb (bool_decide (family ∈ families))
  then (adata, Err (AssertionError "family must be a member of families"))
  else if is_none cutoff && is_none n_neighbors
  then (adata, Err (ValueError "`cutoff` or `n_neighbors` must be provided!"))
  else
    match obsm adata !! "spatial"%string with
    | None => (adata, Err (AssertionError ""))
    | Some spatial =>
        if negb (has_shapeb (n_obs adata) 2 spatial)
        then (adata, Err (ValueError "Shape of passed values"))
        else
          match proximity_of spatial parameter family cutoff n_neighbors bypass_diagonal
                  (n_obs adata) with
          | Err e => (adata, Err e)
          | Ok proximity =>
              ({| obsm := <["proximity"%string := proximity]> (obsm adata);
                  n_obs := n_obs adata |},
               Ok (if inplace then None else Some proximity))
          end
    end.

End Builder.

End Proximity.

(** * Definitions for the statements *)

(** ** The weighted Pearson formula, as the specification writes it

    For a spot with weights [w] over the [n] spots and the values [x], [y]
    of one pair: numerator = wsum * sum(w x y) - sum(w x) * sum(w y), and
    denom_x = wsum * sum(w x^2) - sum(w x)^2. *)

Definition spec_numerator (n : nat) (w x y : nat -> R) : R :=
  sum_n n w * sum_n n (fun k => w k * x k * y k)
  - sum_n n (fun k => w k * x k) * sum_n n (fun k => w k * y k).

Definition spec_denom (n : nat) (w x : nat -> R) : R :=
  sum_n n w * sum_n n (fun k => w k * x k ^ 2) - sum_n n (fun k => w k * x k) ^ 2.

(** The values of pair [j] over the spots, ranked for spearman as the
    vectorized engine ranks them. *)
Definition entity_values (method : string) (M : matrix R) (j : nat) : list R :=
  if bool_decide (method = "spearman"%string) then rankdata (column M j) else column M j.

(** What the vectorized engine makes of a numerator and a denominator. *)
Definition vect_value (num den : R) : npfloat :=
  clip (-1) 1
    (if ne0 (pow_half (Bivariate.clamp_small den))
     then Np.div num (pow_half (Bivariate.clamp_small den))
     else Fin 0).

(** What [_wcorr] makes of a numerator and a denominator. *)
Definition masked_value (num den : R) : npfloat :=
  if Req_bool den 0 || Req_bool num 0 then Fin 0 else Np.div num (pow_half den).

(** The vectors the masked engine hands to [_wcorr] at spot [i], pair [j]. *)
Definition spot_mask (weight : matrix R) (weight_thr : R) (i : nat) : list bool :=
  map (fun v => Rgt_bool v weight_thr) (nth i weight []).
Definition masked_w (weight : matrix R) (weight_thr : R) (i : nat) : list R :=
  mask_select (nth i weight []) (spot_mask weight weight_thr i).
Definition masked_x (x_mat weight : matrix R) (weight_thr : R) (i j : nat) : list R :=
  mask_select (column x_mat j) (spot_mask weight weight_thr i).
Definition masked_y (y_mat weight : matrix R) (weight_thr : R) (i j : nat) : list R :=
  mask_select (column y_mat j) (spot_mask weight weight_thr i).

(** The values [_wcoex] hands on: ordinal ranks for spearman. *)
Definition masked_values (method : Z) (v : list R) : list R :=
  if (method =? 1)%Z then ordinal_ranks v else v.

(** The statistic of one spot and one pair. *)

Module Cell.
Import Bivariate.

(** The vectorized engines index their result by pair, then spot; the
    masked engine by spot, then pair. *)
Definition vectorized_at (x_mat y_mat dist : matrix R) (method : string) (i j : nat)
    : result npfloat :=
  do M <- _vectorized_correlations x_mat y_mat dist method; Ok (getf M j i).

Definition masked_at (x_mat y_mat weight : matrix R) (weight_thr : R) (method : Z)
    (i j : nat) : result npfloat :=
  do M <- _masked_coexpressions x_mat y_mat weight weight_thr method; Ok (getf M i j).

Definition cosine_at (x_mat y_mat dist : matrix R) (i j : nat) : npfloat :=
  getf (_vectorized_wcosine x_mat y_mat dist) j i.

Definition jaccard_at (x_mat y_mat dist : matrix R) (i j : nat) : npfloat :=
  getf (_vectorized_jaccard x_mat y_mat dist) j i.

(** The matrix has no negative weight. *)
Definition nonneg (M : matrix R) : Prop := Forall (Forall (fun v => 0 <= v)) M.

End Cell.
Export Cell.

(** The order of [insert_sorted] on the keys. *)
Definition key_le {A : Type} (leb : A -> A -> bool) (a b : A * nat) : Prop :=
  leb (fst a) (fst b) = true.

(** ** Concrete inputs *)

Module Inputs.

(** Two spots, one pair, equal values close to each other. *)
Definition close_values : matrix R := [[0]; [1 / 32]].
Definition ones2 : matrix R := [[1; 1]; [1; 1]].

(** Three spots, one pair, with a tie in each column. *)
Definition tied_x : matrix R := [[0]; [0]; [1]].
Definition tied_y : matrix R := [[0]; [1]; [0]].
Definition ones3 : matrix R := [[1; 1; 1]; [1; 1; 1]; [1; 1; 1]].

(** Three spots, one pair, and weights of both signs. *)
Definition line_x : matrix R := [[0]; [1]; [2]].
Definition line_y : matrix R := [[1]; [2]; [0]].
Definition signed_weights : matrix R := [[-1; -1; 1]; [-1; -1; 1]; [-1; -1; 1]].

(** Two spots, one pair; the first spot has no neighbour. *)
Definition two_x : matrix R := [[1]; [2]].
Definition two_y : matrix R := [[2]; [1]].
Definition lonely_first : matrix R := [[0; 0]; [0; 1]].

(** A matrix whose first column has no negative value and whose second
    column has. *)
Definition mixed_signs : matrix R := [[1; -1]; [2; -1]].

Definition signed_x : matrix R := [[-1]; [2]].
Definition signed_y : matrix R := [[-2]; [1]].

Definition pearson_statistic : Permutation_test.statistic :=
  fun x_mat y_mat dist => Bivariate._vectorized_correlations x_mat y_mat dist "pearson".

(** A statistic that looks at the value of the first spot only. *)
Definition first_value_statistic : Permutation_test.statistic :=
  fun x_mat _ _ => Ok [[Fin (get x_mat 0 0); Fin (get x_mat 0 0)]].

(** Three spots; the third one has no weight for any spot. *)
Definition gap_weights : matrix R := [[1; 1; 0]; [1; 1; 0]; [1; 1; 0]].

(** Three spots; the weight of the third one is the threshold 1/2. *)
Definition half_weights : matrix R := [[1; 1; 1 / 2]; [1; 1; 1 / 2]; [1; 1; 1 / 2]].
Definition peak_x : matrix R := [[0]; [1]; [0]].
Definition peak_y : matrix R := [[0]; [1]; [4]].

(** Four spots without ties; the fourth one has no weight. *)
Definition four_x : matrix R := [[1]; [2]; [4]; [3]].
Definition four_y : matrix R := [[1]; [3]; [4]; [2]].
Definition gap4_weights : matrix R :=
  [[1; 1; 1; 0]; [1; 1; 1; 0]; [1; 1; 1; 0]; [1; 1; 1; 0]].

(** Two spots at distance 1. *)
Definition two_points : Proximity.AnnData :=
  {| Proximity.obsm := <["spatial"%string := [[0; 0]; [1; 0]]]> ∅; Proximity.n_obs := 2 |}.

End Inputs.

(** ** Definitions for the further properties *)

(** The families whose branch divides by the parameter. *)
Definition smooth_family (family : string) : Prop :=
  family = "gaussian"%string \/ family = "exponential"%string \/ family = "linear"%string.

(** The Euclidean distance of the rows [i] and [j] of the coordinates. *)
Definition euclidean (coordinates : matrix R) (i j : nat) : R :=
  sqrt ((get coordinates i 0 - get coordinates j 0) ^ 2
        + (get coordinates i 1 - get coordinates j 1) ^ 2).

(** What the builder stores in a cell, without neighbour mask and
    without rounding. *)
Definition stored_proximity (coordinates : matrix R) (parameter : R) (family : string)
    (cutoff : R) (bypass_diagonal : bool) (r c : nat) : R :=
  let v := Proximity.decay family parameter (euclidean coordinates r c) in
  let v := if bypass_diagonal && (r =? c)%nat then 0 else v in
  if Rlt_dec v cutoff then 0 else v.

(** The mean of column [j] of a matrix with [n] rows, and the centred
    values of that column. *)
Definition column_mean (n : nat) (mat : matrix R) (j : nat) : R :=
  sum_n n (fun r => get mat r j) / INR n.
Definition centred (n : nat) (mat : matrix R) (j i : nat) : R :=
  get mat i j - column_mean n mat j.

(** A function applied to the key of a pair of the sort. *)
Definition on_key (f : R -> R) (p : R * nat) : R * nat := (f (fst p), snd p).

(** * Facts *)

(** ** Facts on arrays and sums *)

Section ArrayFacts.

Lemma nth_map_in {A B : Type} (f : A -> B) (l : list A) (d : A) (d' : B) (i : nat) :
  (i < length l)%nat -> nth i (map f l) d' = f (nth i l d).
Proof.
  intros Hi. rewrite (nth_indep _ d' (f d)) by now rewrite length_map.
  apply map_nth.
Qed.

Lemma length_tabulate {A : Type} (n : nat) (f : nat -> A) : length (tabulate n f) = n.
Proof. unfold tabulate. now rewrite length_map, length_seq. Qed.

Lemma nth_tabulate {A : Type} (n : nat) (f : nat -> A) (d : A) (i : nat) :
  (i < n)%nat -> nth i (tabulate n f) d = f i.
Proof.
  intros Hi. unfold tabulate.
  rewrite (nth_indep _ d (f 0%nat)) by now rewrite length_map, length_seq.
  rewrite map_nth, seq_nth; auto.
Qed.

Lemma tabulate_S {A : Type} (n : nat) (f : nat -> A) :
  tabulate (S n) f = tabulate n f ++ [f n].
Proof. unfold tabulate. now rewrite seq_S, map_app. Qed.

Lemma tabulate_ext {A : Type} (n : nat) (f g : nat -> A) :
  (forall i, (i < n)%nat -> f i = g i) -> tabulate n f = tabulate n g.
Proof.
  intros H. unfold tabulate. apply map_ext_in.
  intros i Hi. apply in_seq in Hi. apply H. lia.
Qed.

Lemma tabulate_nth {A : Type} (l : list A) (d : A) :
  tabulate (length l) (fun k => nth k l d) = l.
Proof.
  induction l as [|a l IH] using rev_ind; [reflexivity|].
  rewrite length_app, Nat.add_comm. cbn [length Nat.add]. rewrite tabulate_S.
  rewrite app_nth2, Nat.sub_diag by lia. cbn [nth]. f_equal.
  rewrite <- IH at 2. apply tabulate_ext. intros i Hi. now rewrite app_nth1.
Qed.

Lemma nrows_mk {A : Type} (n m : nat) (f : nat -> nat -> A) : nrows (mk_matrix n m f) = n.
Proof. apply length_tabulate. Qed.

Lemma ncols_mk {A : Type} (n m : nat) (f : nat -> nat -> A) :
  (0 < n)%nat -> ncols (mk_matrix n m f) = m.
Proof.
  intros Hn. unfold ncols, mk_matrix. destruct n as [|n]; [lia|].
  unfold tabulate at 1. cbn [seq map hd]. apply length_tabulate.
Qed.

Lemma get_d_mk {A : Type} (d : A) (n m : nat) (f : nat -> nat -> A) (r c : nat) :
  (r < n)%nat -> (c < m)%nat -> get_d d (mk_matrix n m f) r c = f r c.
Proof.
  intros Hr Hc. unfold get_d, mk_matrix.
  rewrite (nth_tabulate n _ [] r Hr). now apply nth_tabulate.
Qed.

Lemma get_mk (n m : nat) (f : nat -> nat -> R) (r c : nat) :
  (r < n)%nat -> (c < m)%nat -> get (mk_matrix n m f) r c = f r c.
Proof. apply get_d_mk. Qed.

Lemma getf_mk (n m : nat) (f : nat -> nat -> npfloat) (r c : nat) :
  (r < n)%nat -> (c < m)%nat -> getf (mk_matrix n m f) r c = f r c.
Proof. apply get_d_mk. Qed.

Lemma has_shape_mk {A : Type} (n m : nat) (f : nat -> nat -> A) :
  has_shape n m (mk_matrix n m f).
Proof.
  split; [apply length_tabulate|]. apply List.Forall_forall. intros row Hrow.
  unfold mk_matrix, tabulate in Hrow. apply in_map_iff in Hrow.
  destruct Hrow as (r & <- & _). apply length_tabulate.
Qed.

Lemma has_shape_row {A : Type} (n m : nat) (M : matrix A) (r : nat) :
  has_shape n m M -> (r < n)%nat -> length (nth r M []) = m.
Proof.
  intros [Hn Hm] Hr. rewrite List.Forall_forall in Hm. apply Hm, nth_In. lia.
Qed.

Lemma has_shape_ncols {A : Type} (n m : nat) (M : matrix A) :
  has_shape n m M -> (0 < n)%nat -> ncols M = m.
Proof.
  intros H Hn. unfold ncols.
  replace (hd [] M) with (nth 0 M []) by now destruct M.
  now apply (has_shape_row n m).
Qed.

Lemma has_shape_emap {A B : Type} (f : A -> B) (n m : nat) (M : matrix A) :
  has_shape n m M -> has_shape n m (emap f M).
Proof.
  intros [Hn Hm]. split; unfold emap; [now rewrite length_map|].
  apply List.Forall_forall. intros row Hrow. apply in_map_iff in Hrow.
  destruct Hrow as (row' & <- & Hin). rewrite length_map.
  rewrite List.Forall_forall in Hm. now apply Hm.
Qed.

Lemma get_d_emap {A B : Type} (f : A -> B) (d : A) (d' : B) (n m : nat) (M : matrix A) (r c : nat) :
  has_shape n m M -> (r < n)%nat -> (c < m)%nat ->
  get_d d' (emap f M) r c = f (get_d d M r c).
Proof.
  intros HM Hr Hc. unfold get_d, emap.
  assert (Hrow : nth r (map (map f) M) [] = map f (nth r M [])).
  { change (@nil B) with (map f []). apply map_nth. }
  rewrite Hrow. apply nth_map_in. now rewrite (has_shape_row n m).
Qed.

Lemma py_sum_from (l : list R) (a : R) : fold_left Rplus l a = a + Rsum l.
Proof.
  unfold Rsum. revert a. induction l as [|x l IH]; intros a; cbn [fold_left fold_right].
  - lra.
  - rewrite IH. lra.
Qed.

Lemma py_sum_Rsum (l : list R) : py_sum l = Rsum l.
Proof. unfold py_sum. rewrite py_sum_from. lra. Qed.

Lemma py_sum_cons (x : R) (l : list R) : py_sum (x :: l) = x + py_sum l.
Proof. rewrite !py_sum_Rsum. reflexivity. Qed.

Lemma py_sum_app (l1 l2 : list R) : py_sum (l1 ++ l2) = py_sum l1 + py_sum l2.
Proof.
  rewrite !py_sum_Rsum. unfold Rsum.
  induction l1 as [|x l1 IH]; cbn [app fold_right]; [lra|]. rewrite IH. lra.
Qed.

Lemma sum_n_0 (f : nat -> R) : sum_n 0 f = 0.
Proof. reflexivity. Qed.

Lemma sum_n_S (n : nat) (f : nat -> R) : sum_n (S n) f = sum_n n f + f n.
Proof.
  unfold sum_n. rewrite tabulate_S, py_sum_app, py_sum_cons.
  change (py_sum []) with 0. lra.
Qed.

Lemma sum_n_ext (n : nat) (f g : nat -> R) :
  (forall k, (k < n)%nat -> f k = g k) -> sum_n n f = sum_n n g.
Proof. intros H. unfold sum_n. f_equal. now apply tabulate_ext. Qed.

Lemma sum_n_zero (n : nat) (f : nat -> R) :
  (forall k, (k < n)%nat -> f k = 0) -> sum_n n f = 0.
Proof.
  induction n as [|n IH]; intros H; [reflexivity|].
  rewrite sum_n_S, IH, H by auto with arith. lra.
Qed.

Lemma sum_n_nonneg (n : nat) (f : nat -> R) :
  (forall k, (k < n)%nat -> 0 <= f k) -> 0 <= sum_n n f.
Proof.
  induction n as [|n IH]; intros H; [rewrite sum_n_0; lra|].
  rewrite sum_n_S. specialize (H n (Nat.lt_succ_diag_r n)) as Hn.
  assert (0 <= sum_n n f) by (apply IH; auto with arith). lra.
Qed.

(** A sum of non-negative terms is zero only if every term is. *)
Lemma sum_n_nonneg_zero (n : nat) (f : nat -> R) :
  (forall k, (k < n)%nat -> 0 <= f k) -> sum_n n f = 0 ->
  forall k, (k < n)%nat -> f k = 0.
Proof.
  induction n as [|n IH]; intros Hpos Hsum k Hk; [lia|].
  rewrite sum_n_S in Hsum.
  assert (H1 : 0 <= sum_n n f) by (apply sum_n_nonneg; auto with arith).
  assert (H2 : 0 <= f n) by auto with arith.
  destruct (Nat.eq_dec k n) as [->|Hne]; [lra|].
  apply IH; auto with arith; [lra|lia].
Qed.

Lemma py_sum_nth (l : list R) : py_sum l = sum_n (length l) (fun k => nth k l 0).
Proof. unfold sum_n. now rewrite tabulate_nth. Qed.

Lemma length_vmul (a b : list R) : length (vmul a b) = Nat.min (length a) (length b).
Proof. unfold vmul. now rewrite length_map, length_combine. Qed.

Lemma nth_vmul (a b : list R) (k : nat) :
  length a = length b -> nth k (vmul a b) 0 = nth k a 0 * nth k b 0.
Proof.
  intros Hlen. unfold vmul.
  destruct (Nat.lt_ge_cases k (length a)) as [Hk|Hk].
  - rewrite (nth_map_in _ _ (0, 0)) by (rewrite length_combine; lia).
    rewrite combine_nth; auto.
  - rewrite !nth_overflow; try lia; [lra|].
    rewrite length_map, length_combine. lia.
Qed.

Lemma nth_vsq (a : list R) (k : nat) : nth k (vsq a) 0 = nth k a 0 ^ 2.
Proof.
  unfold vsq. destruct (Nat.lt_ge_cases k (length a)) as [Hk|Hk].
  - now rewrite (nth_map_in _ _ 0).
  - rewrite !nth_overflow; try lia; [lra|]. now rewrite length_map.
Qed.

Lemma length_vsq (a : list R) : length (vsq a) = length a.
Proof. unfold vsq. apply length_map. Qed.

Lemma nth_column (M : matrix R) (j k : nat) : nth k (column M j) 0 = get M k j.
Proof.
  unfold column, get, get_d.
  destruct (Nat.lt_ge_cases k (length M)) as [Hk|Hk].
  - now rewrite (nth_map_in _ _ []).
  - rewrite (nth_overflow (map _ M)) by (rewrite length_map; lia).
    rewrite (nth_overflow M) by lia. now destruct j.
Qed.

Lemma length_column (M : matrix R) (j : nat) : length (column M j) = nrows M.
Proof. unfold column. apply length_map. Qed.

Lemma mask_select_all {A : Type} (l : list A) (msk : list bool) :
  length msk = length l -> Forall (fun b => b = true) msk -> mask_select l msk = l.
Proof.
  revert msk. induction l as [|a l IH]; intros [|b msk] Hlen Hall; cbn in *; try easy.
  inversion Hall as [|? ? Hb Hall']; subst. f_equal. apply IH; auto.
Qed.

Lemma mask_select_Forall {A : Type} (P : A -> Prop) (l : list A) (msk : list bool) :
  Forall P l -> Forall P (mask_select l msk).
Proof.
  revert msk. induction l as [|a l IH]; intros [|b msk] Hall; cbn; auto.
  inversion Hall; subst. destruct b; auto.
Qed.

Lemma length_mask_select {A B : Type} (l : list A) (l' : list B) (msk : list bool) :
  length l = length l' -> length (mask_select l msk) = length (mask_select l' msk).
Proof.
  revert l' msk. induction l as [|a l IH]; intros [|a' l'] [|b msk] Hlen; cbn in *; try easy.
  destruct b; cbn; auto.
Qed.

End ArrayFacts.

(** ** Shapes and cells of the array operations *)

Section OpFacts.

Lemma shape_dims {A : Type} (n m : nat) (M : matrix A) :
  has_shape n m M -> (0 < n)%nat -> nrows M = n /\ ncols M = m.
Proof. intros H Hn. split; [apply H|now apply (has_shape_ncols n m)]. Qed.

Lemma has_shape_emap2 {C : Type} (f : R -> R -> C) (n m : nat) (A B : matrix R) :
  has_shape n m A -> (0 < n)%nat -> has_shape n m (emap2 f A B).
Proof.
  intros HA Hn. destruct (shape_dims n m A HA Hn) as [Hr Hc].
  unfold emap2. rewrite Hr, Hc. apply has_shape_mk.
Qed.

Lemma get_d_emap2 {C : Type} (f : R -> R -> C) (d : C) (n m : nat) (A B : matrix R) (r c : nat) :
  has_shape n m A -> (r < n)%nat -> (c < m)%nat ->
  get_d d (emap2 f A B) r c = f (get A r c) (get B r c).
Proof.
  intros HA Hr Hc. destruct (shape_dims n m A HA) as [Hrows Hcols]; [lia|].
  unfold emap2. rewrite Hrows, Hcols. rewrite get_d_mk by assumption. reflexivity.
Qed.

Lemma has_shape_dot (n k m : nat) (A B : matrix R) :
  has_shape n k A -> has_shape k m B -> (0 < n)%nat -> (0 < k)%nat ->
  has_shape n m (dot A B).
Proof.
  intros HA HB Hn Hk. destruct (shape_dims n k A HA Hn) as [Hr _].
  destruct (shape_dims k m B HB Hk) as [_ Hc].
  unfold dot. rewrite Hr, Hc. apply has_shape_mk.
Qed.

Lemma get_dot (n k m : nat) (A B : matrix R) (r c : nat) :
  has_shape n k A -> has_shape k m B -> (r < n)%nat -> (c < m)%nat -> (0 < k)%nat ->
  get (dot A B) r c = sum_n k (fun i => get A r i * get B i c).
Proof.
  intros HA HB Hr Hc Hk. destruct (shape_dims n k A HA) as [Hrows Hcols]; [lia|].
  destruct (shape_dims k m B HB Hk) as [_ HcB].
  unfold dot. rewrite Hrows, Hcols, HcB. rewrite get_mk by assumption. reflexivity.
Qed.

Lemma has_shape_mul_row (n m : nat) (M : matrix R) (v : list R) :
  has_shape n m M -> (0 < n)%nat -> has_shape n m (mul_row M v).
Proof.
  intros HM Hn. destruct (shape_dims n m M HM Hn) as [Hr Hc].
  unfold mul_row. rewrite Hr, Hc. apply has_shape_mk.
Qed.

Lemma get_mul_row (n m : nat) (M : matrix R) (v : list R) (r c : nat) :
  has_shape n m M -> (r < n)%nat -> (c < m)%nat ->
  get (mul_row M v) r c = get M r c * nth c v 0.
Proof.
  intros HM Hr Hc. destruct (shape_dims n m M HM) as [Hrows Hcols]; [lia|].
  unfold mul_row. rewrite Hrows, Hcols. rewrite get_mk by assumption. reflexivity.
Qed.

Lemma has_shape_transpose (n m : nat) (M : matrix R) :
  has_shape n m M -> (0 < n)%nat -> has_shape m n (transpose M).
Proof.
  intros HM Hn. destruct (shape_dims n m M HM Hn) as [Hr Hc].
  unfold transpose. rewrite Hr, Hc. apply has_shape_mk.
Qed.

Lemma get_transpose (n m : nat) (M : matrix R) (r c : nat) :
  has_shape n m M -> (r < m)%nat -> (c < n)%nat -> get (transpose M) r c = get M c r.
Proof.
  intros HM Hr Hc. destruct (shape_dims n m M HM) as [Hrows Hcols]; [lia|].
  unfold transpose. rewrite Hrows, Hcols. rewrite get_mk by assumption. reflexivity.
Qed.

Lemma nth_sum_axis0 (n m : nat) (M : matrix R) (c : nat) :
  has_shape n m M -> (0 < n)%nat -> (c < m)%nat ->
  nth c (sum_axis0 M) 0 = sum_n n (fun r => get M r c).
Proof.
  intros HM Hn Hc. destruct (shape_dims n m M HM Hn) as [Hrows Hcols].
  unfold sum_axis0. rewrite Hrows, Hcols. rewrite nth_tabulate by assumption. reflexivity.
Qed.

Lemma column_tabulate (n m : nat) (M : matrix R) (j : nat) :
  has_shape n m M -> column M j = tabulate n (fun k => get M k j).
Proof.
  intros [Hn _]. rewrite <- (tabulate_nth (column M j) 0).
  rewrite length_column. unfold nrows. rewrite Hn.
  apply tabulate_ext. intros k _. apply nth_column.
Qed.

Lemma row_transpose (n m : nat) (M : matrix R) (j : nat) :
  has_shape n m M -> (0 < n)%nat -> (j < m)%nat -> nth j (transpose M) [] = column M j.
Proof.
  intros HM Hn Hj. destruct (shape_dims n m M HM Hn) as [Hrows Hcols].
  unfold transpose, mk_matrix. rewrite Hrows, Hcols.
  rewrite (nth_tabulate m _ [] j Hj). symmetry. now apply (column_tabulate n m).
Qed.

Lemma get_esq (n m : nat) (M : matrix R) (r c : nat) :
  has_shape n m M -> (r < n)%nat -> (c < m)%nat -> get (esq M) r c = get M r c ^ 2.
Proof.
  intros HM Hr Hc. unfold esq, get.
  now rewrite (get_d_emap (fun v => v ^ 2) 0 0 n m).
Qed.

Lemma length_rankdata (l : list R) : length (rankdata l) = length l.
Proof. unfold rankdata. apply length_map. Qed.

Lemma has_shape_map_rows {A : Type} (f : list A -> list A) (n m : nat) (M : matrix A) :
  (forall l, length (f l) = length l) -> has_shape n m M -> has_shape n m (map f M).
Proof.
  intros Hf [Hn Hm]. split; [now rewrite length_map|].
  apply List.Forall_forall. intros row Hrow. apply in_map_iff in Hrow.
  destruct Hrow as (row' & <- & Hin). rewrite Hf.
  rewrite List.Forall_forall in Hm. now apply Hm.
Qed.

End OpFacts.

Section VectorizedCell.
Import Bivariate.

Variables (spot_n xy_n : nat) (x_mat y_mat dist : matrix R).
Hypothesis Hx : has_shape spot_n xy_n x_mat.
Hypothesis Hy : has_shape spot_n xy_n y_mat.
Hypothesis Hd : has_shape spot_n spot_n dist.

Lemma ranked_rows (method : string) (M : matrix R) :
  has_shape spot_n xy_n M -> (0 < spot_n)%nat ->
  let T := if bool_decide (method = "spearman"%string)
           then map rankdata (transpose M) else transpose M in
  has_shape xy_n spot_n T /\
  forall j k, (j < xy_n)%nat -> get T j k = nth k (entity_values method M j) 0.
Proof.
  intros HM Hn T.
  pose proof (has_shape_transpose _ _ _ HM Hn) as HT.
  unfold T, entity_values. case_bool_decide.
  - split; [apply has_shape_map_rows; auto using length_rankdata|].
    intros j k Hj. unfold get, get_d.
    replace (nth j (map rankdata (transpose M)) []) with (rankdata (nth j (transpose M) [])).
    + now rewrite (row_transpose spot_n xy_n).
    + change (@nil R) with (rankdata []) at 2. symmetry. apply map_nth.
  - split; [exact HT|]. intros j k Hj. unfold get, get_d.
    now rewrite (row_transpose spot_n xy_n).
Qed.

(** Each cell of the vectorized engine is the formula of the
    specification, clamped and clipped. *)
Lemma vectorized_cell (method : string) (i j : nat) :
  method = "pearson"%string \/ method = "spearman"%string ->
  (i < spot_n)%nat -> (j < xy_n)%nat ->
  exists M, _vectorized_correlations x_mat y_mat dist method = Ok M /\
    has_shape xy_n spot_n M /\
    let w := get dist i in
    let x := fun k => nth k (entity_values method x_mat j) 0 in
    let y := fun k => nth k (entity_values method y_mat j) 0 in
    getf M j i = vect_value (spec_numerator spot_n w x y)
                   (spec_denom spot_n w x * spec_denom spot_n w y).
Proof.
  intros Hm Hi Hj.
  assert (Hn : (0 < spot_n)%nat) by lia.
  assert (Hp : (0 < xy_n)%nat) by lia.
  unfold _vectorized_correlations.
  replace (negb _) with false
    by (destruct Hm as [-> | ->]; reflexivity).
  destruct (ranked_rows method x_mat Hx Hn) as [HX HXc].
  destruct (ranked_rows method y_mat Hy Hn) as [HY HYc].
  set (X := if bool_decide (method = "spearman"%string)
            then map rankdata (transpose x_mat) else transpose x_mat) in *.
  set (Y := if bool_decide (method = "spearman"%string)
            then map rankdata (transpose y_mat) else transpose y_mat) in *.
  pose proof (has_shape_transpose _ _ _ Hd Hn) as HW.
  set (W := transpose dist) in *.
  assert (HWc : forall k, (k < spot_n)%nat -> get W k i = get dist i k).
  { intros k Hk. unfold W. now rewrite (get_transpose spot_n spot_n). }
  assert (Hws : nth i (sum_axis0 W) 0 = sum_n spot_n (get dist i)).
  { rewrite (nth_sum_axis0 spot_n spot_n) by assumption.
    apply sum_n_ext. intros k Hk. now apply HWc. }
  set (ws := sum_axis0 W) in *.
  assert (HXY : has_shape xy_n spot_n (emul X Y)) by now apply has_shape_emap2.
  assert (HXX : has_shape xy_n spot_n (esq X)) by now apply has_shape_emap.
  assert (HYY : has_shape xy_n spot_n (esq Y)) by now apply has_shape_emap.
  assert (HdXY : has_shape xy_n spot_n (dot (emul X Y) W)) by now apply (has_shape_dot _ spot_n).
  assert (HdX : has_shape xy_n spot_n (dot X W)) by now apply (has_shape_dot _ spot_n).
  assert (HdY : has_shape xy_n spot_n (dot Y W)) by now apply (has_shape_dot _ spot_n).
  assert (HdXX : has_shape xy_n spot_n (dot (esq X) W)) by now apply (has_shape_dot _ spot_n).
  assert (HdYY : has_shape xy_n spot_n (dot (esq Y) W)) by now apply (has_shape_dot _ spot_n).
  set (numerator := esub _ _).
  set (denominator_x := esub (mul_row (dot (esq X) W) ws) _).
  set (denominator_y := esub (mul_row (dot (esq Y) W) ws) _).
  assert (Hnum : has_shape xy_n spot_n numerator)
    by (apply has_shape_emap2; auto using has_shape_mul_row).
  assert (Hdx : has_shape xy_n spot_n denominator_x)
    by (apply has_shape_emap2; auto using has_shape_mul_row).
  assert (Hdy : has_shape xy_n spot_n denominator_y)
    by (apply has_shape_emap2; auto using has_shape_mul_row).
  assert (Hden : has_shape xy_n spot_n (emul denominator_x denominator_y))
    by now apply has_shape_emap2.
  eexists. split; [reflexivity|]. split.
  { apply has_shape_emap. unfold divide_where.
    destruct (shape_dims _ _ _ Hnum Hp) as [-> ->]. apply has_shape_mk. }
  set (w := get dist i).
  set (x := fun k => nth k (entity_values method x_mat j) 0).
  set (y := fun k => nth k (entity_values method y_mat j) 0).
  assert (Esum : forall (A : matrix R) (a : nat -> R), has_shape xy_n spot_n A ->
            (forall k, (k < spot_n)%nat -> get A j k = a k) ->
            get (dot A W) j i = sum_n spot_n (fun k => w k * a k)).
  { intros A a HA Ha. rewrite (get_dot xy_n spot_n spot_n) by assumption.
    apply sum_n_ext. intros k Hk. rewrite Ha, HWc by assumption. unfold w. ring. }
  assert (Enum : get numerator j i = spec_numerator spot_n w x y).
  { unfold numerator, esub, get at 1.
    rewrite (get_d_emap2 _ _ xy_n spot_n) by auto using has_shape_mul_row.
    rewrite (get_mul_row xy_n spot_n) by assumption. unfold emul at 2, get at 2.
    rewrite (get_d_emap2 _ _ xy_n spot_n) by assumption.
    rewrite (Esum (emul X Y) (fun k => x k * y k)), (Esum X x), (Esum Y y); auto.
    - rewrite Hws. unfold spec_numerator. fold w.
      rewrite (sum_n_ext _ (fun k => w k * x k * y k) (fun k => w k * (x k * y k)))
        by (intros; ring).
      ring.
    - intros k Hk. unfold emul, get at 1.
      rewrite (get_d_emap2 _ _ xy_n spot_n) by assumption.
      now rewrite HXc, HYc. }
  assert (Eden : forall (Z : matrix R) (z : nat -> R), has_shape xy_n spot_n Z ->
            (forall k, (k < spot_n)%nat -> get Z j k = z k) ->
            get (esub (mul_row (dot (esq Z) W) ws) (esq (dot Z W))) j i
            = spec_denom spot_n w z).
  { intros Z z HZ Hz.
    assert (HZZ : has_shape xy_n spot_n (esq Z)) by now apply has_shape_emap.
    assert (HdZZ : has_shape xy_n spot_n (dot (esq Z) W)) by now apply (has_shape_dot _ spot_n).
    assert (HdZ : has_shape xy_n spot_n (dot Z W)) by now apply (has_shape_dot _ spot_n).
    unfold esub, get at 1.
    rewrite (get_d_emap2 _ _ xy_n spot_n) by auto using has_shape_mul_row.
    rewrite (get_mul_row xy_n spot_n) by assumption.
    rewrite (get_esq xy_n spot_n) by assumption.
    rewrite (Esum (esq Z) (fun k => z k ^ 2)), (Esum Z z); auto.
    - rewrite Hws. unfold spec_denom. fold w. ring.
    - intros k Hk. rewrite (get_esq xy_n spot_n) by assumption. now rewrite Hz. }
  unfold getf.
  rewrite (get_d_emap (clip (-1) 1) NaN NaN xy_n spot_n); try assumption.
  2:{ unfold divide_where. destruct (shape_dims _ _ _ Hnum Hp) as [-> ->]. apply has_shape_mk. }
  unfold divide_where. destruct (shape_dims _ _ _ Hnum Hp) as [-> ->].
  rewrite get_d_mk by assumption.
  assert (Ecell : getf (emap pow_half (emap clamp_small (emul denominator_x denominator_y))) j i
                  = pow_half (clamp_small (spec_denom spot_n w x * spec_denom spot_n w y))).
  { unfold getf. rewrite (get_d_emap pow_half 0 NaN xy_n spot_n); auto using has_shape_emap.
    rewrite (get_d_emap clamp_small 0 0 xy_n spot_n); auto.
    unfold emul. rewrite (get_d_emap2 _ _ xy_n spot_n) by assumption.
    unfold denominator_x, denominator_y.
    rewrite (Eden X x), (Eden Y y); auto. }
  rewrite Ecell, Enum. reflexivity.
Qed.

End VectorizedCell.

(** ** The Cauchy-Schwarz inequality for weighted moments *)

Section CauchySchwarz.

Lemma discr_line (A B C : R) :
  0 <= C -> (forall t, 0 <= A - 2 * t * B + t ^ 2 * C) -> B ^ 2 <= C * A.
Proof.
  intros HC H. destruct (Req_dec C 0) as [->|HC0].
  - destruct (Req_dec B 0) as [->|HB]; [lra|].
    specialize (H ((A + 1) / (2 * B))).
    replace (A - 2 * ((A + 1) / (2 * B)) * B + ((A + 1) / (2 * B)) ^ 2 * 0)
      with (-1) in H by (field; assumption).
    lra.
  - specialize (H (B / C)).
    replace (A - 2 * (B / C) * B + (B / C) ^ 2 * C) with ((C * A - B ^ 2) / C) in H
      by (field; assumption).
    assert (HCpos : 0 < C) by lra.
    assert (Hm : 0 <= (C * A - B ^ 2) / C * C) by (apply Rmult_le_pos; lra).
    replace ((C * A - B ^ 2) / C * C) with (C * A - B ^ 2) in Hm by (field; assumption).
    lra.
Qed.

Lemma discr_form (P N Q : R) :
  (forall a b, 0 <= a ^ 2 * P + 2 * a * b * N + b ^ 2 * Q) -> N ^ 2 <= P * Q.
Proof.
  intros H.
  pose proof (H 1 0) as HP. pose proof (H 0 1) as HQ.
  pose proof (H Q (- N)) as H1.
  destruct (Rle_lt_dec (N ^ 2) (P * Q)) as [Hle|Hlt]; [exact Hle|exfalso].
  assert (HQ0 : Q = 0) by nra.
  subst Q.
  assert (HN : N <> 0) by (intros ->; lra).
  specialize (H 1 (- (P + 1) / (2 * N))).
  replace (1 ^ 2 * P + 2 * 1 * (- (P + 1) / (2 * N)) * N + (- (P + 1) / (2 * N)) ^ 2 * 0)
    with (-1) in H by (field; assumption).
  lra.
Qed.

Variables (n : nat) (w : nat -> R).
Hypothesis Hw : forall k, (k < n)%nat -> 0 <= w k.

Lemma quad_expand (z : nat -> R) (t : R) (m : nat) :
  sum_n m (fun k => w k * (z k - t) ^ 2)
  = sum_n m (fun k => w k * z k ^ 2) - 2 * t * sum_n m (fun k => w k * z k) + t ^ 2 * sum_n m w.
Proof.
  induction m as [|m IH]; [rewrite !sum_n_0; ring|].
  rewrite !sum_n_S, IH. ring.
Qed.

Lemma spec_denom_nonneg (z : nat -> R) : 0 <= spec_denom n w z.
Proof.
  unfold spec_denom.
  assert (H : sum_n n (fun k => w k * z k) ^ 2 <= sum_n n w * sum_n n (fun k => w k * z k ^ 2)).
  { apply discr_line.
    - now apply sum_n_nonneg.
    - intros t. rewrite <- quad_expand. apply sum_n_nonneg.
      intros k Hk. apply Rmult_le_pos; [auto|apply pow2_ge_0]. }
  lra.
Qed.

Lemma spec_denom_linear (x y : nat -> R) (a b : R) :
  spec_denom n w (fun k => a * x k + b * y k)
  = a ^ 2 * spec_denom n w x + 2 * a * b * spec_numerator n w x y + b ^ 2 * spec_denom n w y.
Proof.
  unfold spec_denom, spec_numerator.
  assert (H1 : forall m, sum_n m (fun k => w k * (a * x k + b * y k))
                 = a * sum_n m (fun k => w k * x k) + b * sum_n m (fun k => w k * y k)).
  { induction m as [|m IH]; [rewrite !sum_n_0; ring|]. rewrite !sum_n_S, IH. ring. }
  assert (H2 : forall m, sum_n m (fun k => w k * (a * x k + b * y k) ^ 2)
                 = a ^ 2 * sum_n m (fun k => w k * x k ^ 2)
                   + 2 * a * b * sum_n m (fun k => w k * x k * y k)
                   + b ^ 2 * sum_n m (fun k => w k * y k ^ 2)).
  { induction m as [|m IH]; [rewrite !sum_n_0; ring|]. rewrite !sum_n_S, IH. ring. }
  rewrite H1, H2. ring.
Qed.

(** The squared numerator never exceeds the product of the denominators. *)
Lemma spec_cauchy_schwarz (x y : nat -> R) :
  spec_numerator n w x y ^ 2 <= spec_denom n w x * spec_denom n w y.
Proof.
  apply discr_form. intros a b. rewrite <- spec_denom_linear. apply spec_denom_nonneg.
Qed.

(** Hence the quotient is a correlation. *)
Lemma spec_quotient_bounded (x y : nat -> R) :
  spec_denom n w x * spec_denom n w y <> 0 ->
  -1 <= spec_numerator n w x y / sqrt (spec_denom n w x * spec_denom n w y) <= 1.
Proof.
  intros Hne.
  pose proof (spec_cauchy_schwarz x y) as Hcs.
  pose proof (spec_denom_nonneg x) as Hx. pose proof (spec_denom_nonneg y) as Hy.
  set (N := spec_numerator n w x y) in *.
  set (D := spec_denom n w x * spec_denom n w y) in *.
  assert (HD : 0 < D) by (unfold D in *; nra).
  assert (Hs : 0 < sqrt D) by now apply sqrt_lt_R0.
  assert (Hss : sqrt D * sqrt D = D) by (apply sqrt_sqrt; lra).
  assert (Habs : -sqrt D <= N <= sqrt D) by (split; nra).
  split.
  - apply Rmult_le_reg_r with (sqrt D); [exact Hs|].
    unfold Rdiv. rewrite Rmult_assoc, Rinv_l by lra. lra.
  - apply Rmult_le_reg_r with (sqrt D); [exact Hs|].
    unfold Rdiv. rewrite Rmult_assoc, Rinv_l by lra. lra.
Qed.

End CauchySchwarz.

(** ** The masked engine, cell by cell *)

Section MaskedCell.
Import Bivariate.

Lemma length_insert_sorted {A : Type} (leb : A -> A -> bool) (p : A * nat) (l : list (A * nat)) :
  length (insert_sorted leb p l) = S (length l).
Proof.
  induction l as [|q l IH]; cbn; [reflexivity|].
  destruct (leb (fst p) (fst q)); cbn; auto.
Qed.

Lemma length_sort_indexed {A : Type} (leb : A -> A -> bool) (l : list (A * nat)) :
  length (sort_indexed leb l) = length l.
Proof.
  unfold sort_indexed. induction l as [|p l IH]; cbn [fold_right length]; [reflexivity|].
  now rewrite length_insert_sorted, IH.
Qed.

Lemma length_argsort {A : Type} (leb : A -> A -> bool) (l : list A) :
  length (argsort leb l) = length l.
Proof.
  unfold argsort. rewrite length_map, length_sort_indexed, length_combine, length_seq.
  apply Nat.min_id.
Qed.

Lemma length_ordinal_ranks (x : list R) : length (ordinal_ranks x) = length x.
Proof. unfold ordinal_ranks. now rewrite length_map, !length_argsort. Qed.

Lemma traverse_ok {A B : Type} (f : A -> result B) (g : A -> B) (l : list A) :
  (forall a, In a l -> f a = Ok (g a)) -> traverse f l = Ok (map g l).
Proof.
  induction l as [|a l IH]; intros H; cbn; [reflexivity|].
  rewrite (H a) by now left. cbn. rewrite IH by (intros; apply H; now right).
  reflexivity.
Qed.

Lemma py_sum_vmul (n : nat) (a b : list R) :
  length a = n -> length b = n ->
  py_sum (vmul a b) = sum_n n (fun k => nth k a 0 * nth k b 0).
Proof.
  intros Ha Hb. rewrite py_sum_nth, length_vmul, Ha, Hb, Nat.min_id.
  apply sum_n_ext. intros k _. apply nth_vmul. congruence.
Qed.

(** Without ranks, [_wcorr] evaluates the formula of the specification on
    the vectors it is given. *)
Lemma wcorr_formula (n : nat) (x y w : list R) :
  length x = n -> length y = n -> length w = n ->
  let wf := fun k => nth k w 0 in
  let xf := fun k => nth k x 0 in
  let yf := fun k => nth k y 0 in
  _wcorr x y w (py_sum w) false
  = masked_value (spec_numerator n wf xf yf) (spec_denom n wf xf * spec_denom n wf yf).
Proof.
  intros Hx Hy Hw wf xf yf. unfold _wcorr, masked_value.
  assert (Hwx : length (vmul w x) = n) by (rewrite length_vmul; lia).
  rewrite (py_sum_vmul n (vmul w x) y), !(py_sum_vmul n w) by (rewrite ?length_vsq; auto).
  rewrite py_sum_nth, Hw.
  assert (E1 : sum_n n (fun k => nth k (vmul w x) 0 * nth k y 0)
               = sum_n n (fun k => wf k * xf k * yf k)).
  { apply sum_n_ext. intros k _. rewrite nth_vmul by congruence. reflexivity. }
  assert (E2 : forall z, sum_n n (fun k => nth k w 0 * nth k (vsq z) 0)
               = sum_n n (fun k => wf k * nth k z 0 ^ 2)).
  { intros z. apply sum_n_ext. intros k _. now rewrite nth_vsq. }
  rewrite E1, !E2. reflexivity.
Qed.

(** With ranks, it does so on the ordinal ranks of the vectors. *)
Lemma wcorr_ranked (x y w : list R) (wsum : R) :
  _wcorr x y w wsum true = _wcorr (ordinal_ranks x) (ordinal_ranks y) w wsum false.
Proof. reflexivity. Qed.

Variables (spot_n xy_n : nat) (x_mat y_mat weight : matrix R) (weight_thr : R).
Hypothesis Hx : has_shape spot_n xy_n x_mat.

Lemma masked_cell (method : Z) (i j : nat) :
  (method = 0 \/ method = 1)%Z -> (i < spot_n)%nat -> (j < xy_n)%nat ->
  exists M, _masked_coexpressions x_mat y_mat weight weight_thr method = Ok M /\
    has_shape spot_n xy_n M /\
    getf M i j = _wcorr (masked_x x_mat weight weight_thr i j)
                   (masked_y y_mat weight weight_thr i j) (masked_w weight weight_thr i)
                   (py_sum (masked_w weight weight_thr i)) (method =? 1)%Z.
Proof.
  intros Hm Hi Hj. unfold _masked_coexpressions.
  destruct (shape_dims _ _ _ Hx) as [-> ->]; [lia|].
  set (cell := fun i j => _wcorr (masked_x x_mat weight weight_thr i j)
                            (masked_y y_mat weight weight_thr i j) (masked_w weight weight_thr i)
                            (py_sum (masked_w weight weight_thr i)) (method =? 1)%Z).
  exists (mk_matrix spot_n xy_n cell). split; [|split].
  - unfold mk_matrix, tabulate. apply traverse_ok. intros i' _.
    apply traverse_ok. intros j' _. unfold _wcoex, cell.
    destruct Hm as [-> | ->]; reflexivity.
  - apply has_shape_mk.
  - unfold getf. now rewrite get_d_mk.
Qed.

End MaskedCell.

(** ** Evaluating comparisons and float operations *)

Section FloatFacts.
Import Bivariate.

Lemma Rlt_bool_true (a b : R) : a < b -> Rlt_bool a b = true.
Proof. intros H. unfold Rlt_bool. now destruct (Rlt_dec a b). Qed.

Lemma Rlt_bool_false (a b : R) : b <= a -> Rlt_bool a b = false.
Proof. intros H. unfold Rlt_bool. destruct (Rlt_dec a b); [lra|reflexivity]. Qed.

Lemma Rle_bool_true (a b : R) : a <= b -> Rle_bool a b = true.
Proof. intros H. unfold Rle_bool. now destruct (Rle_dec a b). Qed.

Lemma Rle_bool_false (a b : R) : b < a -> Rle_bool a b = false.
Proof. intros H. unfold Rle_bool. destruct (Rle_dec a b); [lra|reflexivity]. Qed.

Lemma Req_bool_true (a b : R) : a = b -> Req_bool a b = true.
Proof. intros H. unfold Req_bool. now destruct (Req_dec_T a b). Qed.

Lemma Req_bool_false (a b : R) : a <> b -> Req_bool a b = false.
Proof. intros H. unfold Req_bool. now destruct (Req_dec_T a b). Qed.

Lemma clamp_small_lt (d : R) : d < 1e-6 -> clamp_small d = 0.
Proof. intros H. unfold clamp_small. now destruct (Rlt_dec d 1e-6). Qed.

Lemma clamp_small_ge (d : R) : 1e-6 <= d -> clamp_small d = d.
Proof. intros H. unfold clamp_small. destruct (Rlt_dec d 1e-6); [lra|reflexivity]. Qed.

Lemma pow_half_nonneg (x : R) : 0 <= x -> pow_half x = Fin (sqrt x).
Proof. intros H. unfold pow_half. destruct (Rlt_dec x 0); [lra|reflexivity]. Qed.

Lemma pow_half_neg (x : R) : x < 0 -> pow_half x = NaN.
Proof. intros H. unfold pow_half. now destruct (Rlt_dec x 0). Qed.

Lemma div_fin (a d : R) : d <> 0 -> Np.div a (Fin d) = Fin (a / d).
Proof. intros H. unfold Np.div. now destruct (Req_dec_T d 0). Qed.

Lemma div_zero_fin (d : R) : d <> 0 -> Np.div 0 (Fin d) = Fin 0.
Proof. intros H. rewrite div_fin by assumption. f_equal. unfold Rdiv. ring. Qed.

Lemma clip_fin (lo hi r : R) : lo <= r <= hi -> clip lo hi (Fin r) = Fin r.
Proof.
  intros [H1 H2]. unfold clip.
  destruct (Rlt_dec r lo); [lra|]. destruct (Rlt_dec hi r); [lra|reflexivity].
Qed.

Lemma clip_fin_bounded (lo hi r : R) :
  lo <= hi -> exists r', clip lo hi (Fin r) = Fin r' /\ lo <= r' <= hi.
Proof.
  intros H. unfold clip. eexists. split; [reflexivity|].
  destruct (Rlt_dec r lo); [lra|]. destruct (Rlt_dec hi r); lra.
Qed.

Lemma vect_value_small (num den : R) : den < 1e-6 -> vect_value num den = Fin 0.
Proof.
  intros H. unfold vect_value. rewrite clamp_small_lt by assumption.
  rewrite pow_half_nonneg by lra. rewrite sqrt_0. cbn [ne0].
  rewrite Req_bool_true by reflexivity. cbn [negb]. apply clip_fin. lra.
Qed.

Lemma vect_value_large (num den : R) :
  1e-6 <= den -> vect_value num den = clip (-1) 1 (Fin (num / sqrt den)).
Proof.
  intros H. unfold vect_value. rewrite clamp_small_ge by assumption.
  rewrite pow_half_nonneg by lra.
  assert (Hs : sqrt den <> 0) by (apply Rgt_not_eq, sqrt_lt_R0; lra).
  cbn [ne0]. rewrite Req_bool_false by assumption. cbn [negb].
  now rewrite div_fin.
Qed.

(** The clipped value is always a finite number of [-1, 1]. *)
Lemma vect_value_bounded (num den : R) :
  exists r, vect_value num den = Fin r /\ -1 <= r <= 1.
Proof.
  destruct (Rlt_le_dec den 1e-6) as [H|H].
  - exists 0. split; [now apply vect_value_small|lra].
  - rewrite vect_value_large by assumption. apply clip_fin_bounded. lra.
Qed.

Lemma masked_value_zero (num den : R) : den = 0 \/ num = 0 -> masked_value num den = Fin 0.
Proof.
  intros [H|H]; unfold masked_value.
  - now rewrite (Req_bool_true den) by assumption.
  - rewrite (Req_bool_true num) by assumption. now rewrite orb_true_r.
Qed.

Lemma masked_value_pos (num den : R) :
  0 < den -> num <> 0 -> masked_value num den = Fin (num / sqrt den).
Proof.
  intros Hd Hn. unfold masked_value.
  rewrite !Req_bool_false by lra. cbn [orb].
  rewrite pow_half_nonneg by lra. apply div_fin.
  apply Rgt_not_eq, sqrt_lt_R0. lra.
Qed.

Lemma masked_value_neg (num den : R) :
  den < 0 -> num <> 0 -> masked_value num den = NaN.
Proof.
  intros Hd Hn. unfold masked_value.
  rewrite !Req_bool_false by lra. cbn [orb].
  now rewrite pow_half_neg.
Qed.

End FloatFacts.

Section CellFacts.
Import Bivariate.

Variables (spot_n xy_n : nat) (x_mat y_mat dist : matrix R).
Hypothesis Hx : has_shape spot_n xy_n x_mat.
Hypothesis Hy : has_shape spot_n xy_n y_mat.
Hypothesis Hd : has_shape spot_n spot_n dist.

Lemma nonneg_get (M : matrix R) (r c : nat) : nonneg M -> 0 <= get M r c.
Proof.
  intros HM. unfold get, get_d.
  destruct (Nat.lt_ge_cases r (length M)) as [Hr|Hr].
  - unfold nonneg in HM. rewrite List.Forall_forall in HM.
    specialize (HM (nth r M []) (nth_In _ _ Hr)).
    destruct (Nat.lt_ge_cases c (length (nth r M []))) as [Hc|Hc].
    + rewrite List.Forall_forall in HM. apply HM. now apply nth_In.
    + rewrite (nth_overflow (nth r M [])) by assumption. lra.
  - rewrite (nth_overflow M) by assumption. destruct c; cbn; lra.
Qed.

Lemma vectorized_at_value (method : string) (i j : nat) :
  method = "pearson"%string \/ method = "spearman"%string ->
  (i < spot_n)%nat -> (j < xy_n)%nat ->
  vectorized_at x_mat y_mat dist method i j
  = Ok (vect_value
          (spec_numerator spot_n (get dist i)
             (fun k => nth k (entity_values method x_mat j) 0)
             (fun k => nth k (entity_values method y_mat j) 0))
          (spec_denom spot_n (get dist i) (fun k => nth k (entity_values method x_mat j) 0)
           * spec_denom spot_n (get dist i) (fun k => nth k (entity_values method y_mat j) 0))).
Proof.
  intros Hm Hi Hj.
  destruct (vectorized_cell spot_n xy_n x_mat y_mat dist Hx Hy Hd method i j Hm Hi Hj)
    as (M & HM & _ & Hcell).
  unfold vectorized_at. rewrite HM. cbn [rbind]. now rewrite Hcell.
Qed.

Lemma masked_at_value (weight_thr : R) (method : Z) (i j : nat) :
  (method = 0 \/ method = 1)%Z -> (i < spot_n)%nat -> (j < xy_n)%nat ->
  masked_at x_mat y_mat dist weight_thr method i j
  = Ok (_wcorr (masked_x x_mat dist weight_thr i j) (masked_y y_mat dist weight_thr i j)
          (masked_w dist weight_thr i) (py_sum (masked_w dist weight_thr i))
          (method =? 1)%Z).
Proof.
  intros Hm Hi Hj.
  destruct (masked_cell spot_n xy_n x_mat y_mat dist weight_thr Hx method i j Hm Hi Hj)
    as (M & HM & _ & Hcell).
  unfold masked_at. rewrite HM. cbn [rbind]. now rewrite Hcell.
Qed.

Lemma cosine_at_value (i j : nat) :
  (i < spot_n)%nat -> (j < xy_n)%nat ->
  cosine_at x_mat y_mat dist i j
  = Np.div (sum_n spot_n (fun k => get x_mat k j * get y_mat k j * get dist i k))
      (pow_half (sum_n spot_n (fun k => get x_mat k j ^ 2 * get dist k i)
                 * sum_n spot_n (fun k => get y_mat k j ^ 2 * get dist k i) + eps32)).
Proof.
  intros Hi Hj.
  assert (Hn : (0 < spot_n)%nat) by lia. assert (Hp : (0 < xy_n)%nat) by lia.
  unfold cosine_at, _vectorized_wcosine.
  pose proof (has_shape_transpose _ _ _ Hx Hn) as HX.
  pose proof (has_shape_transpose _ _ _ Hy Hn) as HY.
  pose proof (has_shape_transpose _ _ _ Hd Hn) as HW.
  pose proof (has_shape_transpose _ _ _ HW Hn) as HWT.
  set (X := transpose x_mat) in *. set (Y := transpose y_mat) in *.
  set (W := transpose dist) in *.
  assert (HXY : has_shape xy_n spot_n (emul X Y)) by now apply has_shape_emap2.
  assert (HXX : has_shape xy_n spot_n (esq X)) by now apply has_shape_emap.
  assert (HYY : has_shape xy_n spot_n (esq Y)) by now apply has_shape_emap.
  assert (H1 : has_shape xy_n spot_n (dot (emul X Y) W)) by now apply (has_shape_dot _ spot_n).
  assert (H2 : has_shape xy_n spot_n (dot (esq X) (transpose W))) by now apply (has_shape_dot _ spot_n).
  assert (H3 : has_shape xy_n spot_n (dot (esq Y) (transpose W))) by now apply (has_shape_dot _ spot_n).
  assert (EX : forall k, (k < spot_n)%nat -> get X j k = get x_mat k j).
  { intros k Hk. unfold X. now rewrite (get_transpose spot_n xy_n). }
  assert (EY : forall k, (k < spot_n)%nat -> get Y j k = get y_mat k j).
  { intros k Hk. unfold Y. now rewrite (get_transpose spot_n xy_n). }
  assert (EW : forall k, (k < spot_n)%nat -> get W k i = get dist i k).
  { intros k Hk. unfold W. now rewrite (get_transpose spot_n spot_n). }
  assert (EWT : forall k, (k < spot_n)%nat -> get (transpose W) k i = get dist k i).
  { intros k Hk. rewrite (get_transpose spot_n spot_n) by assumption.
    unfold W. now rewrite (get_transpose spot_n spot_n). }
  unfold getf. rewrite (get_d_emap2 _ _ xy_n spot_n) by assumption.
  assert (Hden : has_shape xy_n spot_n (emul (dot (esq X) (transpose W)) (dot (esq Y) (transpose W))))
    by now apply has_shape_emap2.
  unfold get at 2. rewrite (get_d_emap _ 0 0 xy_n spot_n) by assumption.
  unfold emul at 2. rewrite (get_d_emap2 _ _ xy_n spot_n) by assumption.
  rewrite !(get_dot xy_n spot_n spot_n) by assumption.
  f_equal; [|f_equal; f_equal; f_equal].
  - apply sum_n_ext. intros k Hk. unfold emul, get at 1.
    rewrite (get_d_emap2 _ _ xy_n spot_n) by assumption.
    now rewrite EX, EY, EW.
  - apply sum_n_ext. intros k Hk. rewrite (get_esq xy_n spot_n) by assumption.
    now rewrite EX, EWT.
  - apply sum_n_ext. intros k Hk. rewrite (get_esq xy_n spot_n) by assumption.
    now rewrite EY, EWT.
Qed.

Lemma jaccard_at_value (i j : nat) :
  (i < spot_n)%nat -> (j < xy_n)%nat ->
  jaccard_at x_mat y_mat dist i j
  = Np.div (sum_n spot_n (fun k =>
              Rmin (binarize (get x_mat k j)) (binarize (get y_mat k j)) * get dist i k))
      (Fin (sum_n spot_n (fun k =>
              Rmax (binarize (get x_mat k j)) (binarize (get y_mat k j)) * get dist i k)
            + eps32)).
Proof.
  intros Hi Hj.
  assert (Hn : (0 < spot_n)%nat) by lia. assert (Hp : (0 < xy_n)%nat) by lia.
  unfold jaccard_at, _vectorized_jaccard.
  pose proof (has_shape_emap binarize _ _ _ Hx) as HbX.
  pose proof (has_shape_emap binarize _ _ _ Hy) as HbY.
  pose proof (has_shape_transpose _ _ _ HbX Hn) as HX.
  pose proof (has_shape_transpose _ _ _ HbY Hn) as HY.
  pose proof (has_shape_transpose _ _ _ Hd Hn) as HW.
  set (X := transpose (emap binarize x_mat)) in *.
  set (Y := transpose (emap binarize y_mat)) in *.
  set (W := transpose dist) in *.
  assert (Hmin : has_shape xy_n spot_n (emap2 Rmin X Y)) by now apply has_shape_emap2.
  assert (Hmax : has_shape xy_n spot_n (emap2 Rmax X Y)) by now apply has_shape_emap2.
  assert (H1 : has_shape xy_n spot_n (dot (emap2 Rmin X Y) W)) by now apply (has_shape_dot _ spot_n).
  assert (H2 : has_shape xy_n spot_n (dot (emap2 Rmax X Y) W)) by now apply (has_shape_dot _ spot_n).
  assert (EX : forall k, (k < spot_n)%nat -> get X j k = binarize (get x_mat k j)).
  { intros k Hk. unfold X. rewrite (get_transpose spot_n xy_n) by assumption.
    unfold get. now rewrite (get_d_emap binarize 0 0 spot_n xy_n). }
  assert (EY : forall k, (k < spot_n)%nat -> get Y j k = binarize (get y_mat k j)).
  { intros k Hk. unfold Y. rewrite (get_transpose spot_n xy_n) by assumption.
    unfold get. now rewrite (get_d_emap binarize 0 0 spot_n xy_n). }
  assert (EW : forall k, (k < spot_n)%nat -> get W k i = get dist i k).
  { intros k Hk. unfold W. now rewrite (get_transpose spot_n spot_n). }
  unfold getf. rewrite (get_d_emap2 _ _ xy_n spot_n) by assumption.
  unfold get at 2. rewrite (get_d_emap _ 0 0 xy_n spot_n) by assumption.
  fold (get (dot (emap2 Rmax X Y) W) j i).
  rewrite !(get_dot xy_n spot_n spot_n) by assumption.
  f_equal; [|f_equal; f_equal].
  - apply sum_n_ext. intros k Hk. unfold get at 1.
    rewrite (get_d_emap2 _ _ xy_n spot_n) by assumption.
    now rewrite EX, EY, EW.
  - apply sum_n_ext. intros k Hk. unfold get at 1.
    rewrite (get_d_emap2 _ _ xy_n spot_n) by assumption.
    now rewrite EX, EY, EW.
Qed.

End CellFacts.

(** ** Spots without weight *)

Section ZeroWeight.
Import Bivariate.

Lemma eps32_pos : 0 < eps32.
Proof. unfold eps32. apply Rinv_0_lt_compat, pow_lt. lra. Qed.

Lemma Rsum_nonneg (l : list R) : Forall (fun v => 0 <= v) l -> 0 <= Rsum l.
Proof.
  induction 1 as [|v l Hv Hl IH]; unfold Rsum in *; cbn [fold_right]; lra.
Qed.

Lemma py_sum_nonneg_zero (l : list R) :
  Forall (fun v => 0 <= v) l -> py_sum l = 0 -> Forall (fun v => v = 0) l.
Proof.
  rewrite py_sum_Rsum. induction 1 as [|v l Hv Hl IH]; intros Hs; constructor.
  - pose proof (Rsum_nonneg l Hl). unfold Rsum in *. cbn [fold_right] in Hs. lra.
  - apply IH. pose proof (Rsum_nonneg l Hl). unfold Rsum in *. cbn [fold_right] in Hs. lra.
Qed.

Lemma py_sum_all_zero (l : list R) : Forall (fun v => v = 0) l -> py_sum l = 0.
Proof.
  rewrite py_sum_Rsum. unfold Rsum.
  induction 1 as [|v l Hv Hl IH]; cbn [fold_right]; lra.
Qed.

Lemma vmul_zero_l (w z : list R) :
  Forall (fun v => v = 0) w -> Forall (fun v => v = 0) (vmul w z).
Proof.
  intros Hw. revert z. induction Hw as [|v w Hv Hw IH]; intros [|u z]; cbn; constructor.
  - cbn. rewrite Hv. ring.
  - apply IH.
Qed.

(** Weights that are all zero give the statistic 0, whatever the values. *)
Lemma wcorr_zero_weights (x y w : list R) (wsum : R) (rank : bool) :
  Forall (fun v => v = 0) w -> _wcorr x y w wsum rank = Fin 0.
Proof.
  intros Hw. unfold _wcorr.
  set (x' := if rank then ordinal_ranks x else x).
  set (y' := if rank then ordinal_ranks y else y).
  rewrite (py_sum_all_zero (vmul w x')), (py_sum_all_zero (vmul w y')),
    (py_sum_all_zero (vmul w (vsq x'))), (py_sum_all_zero (vmul (vmul w x') y'))
    by auto using vmul_zero_l.
  replace (wsum * 0 - 0 * 0) with 0 by ring.
  rewrite Req_bool_true; [reflexivity|ring].
Qed.

Variables (spot_n xy_n : nat) (x_mat y_mat dist : matrix R).
Hypothesis Hx : has_shape spot_n xy_n x_mat.
Hypothesis Hy : has_shape spot_n xy_n y_mat.
Hypothesis Hd : has_shape spot_n spot_n dist.
Hypothesis Hpos : nonneg dist.

Lemma nonneg_row (i : nat) : Forall (fun v => 0 <= v) (nth i dist []).
Proof.
  destruct (Nat.lt_ge_cases i (length dist)) as [Hi|Hi].
  - unfold nonneg in Hpos. rewrite List.Forall_forall in Hpos. now apply Hpos, nth_In.
  - rewrite nth_overflow by assumption. constructor.
Qed.

Lemma zero_row_entries (i : nat) :
  sum_n spot_n (get dist i) = 0 -> forall k, (k < spot_n)%nat -> get dist i k = 0.
Proof.
  intros Hs. apply sum_n_nonneg_zero; [|exact Hs].
  intros k _. now apply nonneg_get.
Qed.

Lemma zero_row_list (i : nat) :
  (i < spot_n)%nat -> sum_n spot_n (get dist i) = 0 ->
  Forall (fun v => v = 0) (nth i dist []).
Proof.
  intros Hi Hs. apply py_sum_nonneg_zero; [apply nonneg_row|].
  rewrite py_sum_nth, (has_shape_row spot_n spot_n) by assumption. exact Hs.
Qed.

Lemma masked_zero_sum (thr : R) (method : Z) (i j : nat) :
  (method = 0 \/ method = 1)%Z -> (i < spot_n)%nat -> (j < xy_n)%nat ->
  py_sum (masked_w dist thr i) = 0 ->
  masked_at x_mat y_mat dist thr method i j = Ok (Fin 0).
Proof.
  intros Hm Hi Hj Hs.
  rewrite (masked_at_value spot_n xy_n) by assumption. f_equal.
  apply wcorr_zero_weights. apply py_sum_nonneg_zero; [|exact Hs].
  apply mask_select_Forall, nonneg_row.
Qed.

Lemma masked_zero_row (thr : R) (method : Z) (i j : nat) :
  (method = 0 \/ method = 1)%Z -> (i < spot_n)%nat -> (j < xy_n)%nat ->
  sum_n spot_n (get dist i) = 0 ->
  masked_at x_mat y_mat dist thr method i j = Ok (Fin 0).
Proof.
  intros Hm Hi Hj Hs.
  rewrite (masked_at_value spot_n xy_n) by assumption. f_equal.
  apply wcorr_zero_weights, mask_select_Forall. now apply zero_row_list.
Qed.

Lemma vectorized_zero_row (method : string) (i j : nat) :
  method = "pearson"%string \/ method = "spearman"%string ->
  (i < spot_n)%nat -> (j < xy_n)%nat ->
  sum_n spot_n (get dist i) = 0 ->
  vectorized_at x_mat y_mat dist method i j = Ok (Fin 0).
Proof.
  intros Hm Hi Hj Hs.
  rewrite (vectorized_at_value spot_n xy_n) by assumption. f_equal.
  apply vect_value_small.
  pose proof (zero_row_entries i Hs) as Hz.
  assert (E : forall z, spec_denom spot_n (get dist i) z = 0).
  { intros z. unfold spec_denom.
    rewrite (sum_n_zero _ (fun k => get dist i k * z k)) by (intros k Hk; rewrite Hz by assumption; ring).
    rewrite Hs. ring. }
  rewrite !E. lra.
Qed.

Lemma cosine_zero_row (i j : nat) :
  (i < spot_n)%nat -> (j < xy_n)%nat ->
  sum_n spot_n (get dist i) = 0 ->
  cosine_at x_mat y_mat dist i j = Fin 0.
Proof.
  intros Hi Hj Hs.
  rewrite (cosine_at_value spot_n xy_n) by assumption.
  pose proof (zero_row_entries i Hs) as Hz.
  rewrite (sum_n_zero _ (fun k => get x_mat k j * get y_mat k j * get dist i k))
    by (intros k Hk; rewrite Hz by assumption; ring).
  assert (Hsq : forall M : matrix R, 0 <= sum_n spot_n (fun k => get M k j ^ 2 * get dist k i)).
  { intros M. apply sum_n_nonneg. intros k _.
    apply Rmult_le_pos; [apply pow2_ge_0|now apply nonneg_get]. }
  pose proof (Hsq x_mat) as HA. pose proof (Hsq y_mat) as HB. pose proof eps32_pos as He.
  set (A := sum_n spot_n (fun k => get x_mat k j ^ 2 * get dist k i)) in *.
  set (B := sum_n spot_n (fun k => get y_mat k j ^ 2 * get dist k i)) in *.
  assert (HAB : 0 < A * B + eps32) by nra.
  rewrite pow_half_nonneg by lra. apply div_zero_fin.
  apply Rgt_not_eq. now apply sqrt_lt_R0.
Qed.

Lemma jaccard_zero_row (i j : nat) :
  (i < spot_n)%nat -> (j < xy_n)%nat ->
  sum_n spot_n (get dist i) = 0 ->
  jaccard_at x_mat y_mat dist i j = Fin 0.
Proof.
  intros Hi Hj Hs.
  rewrite (jaccard_at_value spot_n xy_n) by assumption.
  pose proof (zero_row_entries i Hs) as Hz.
  rewrite !(sum_n_zero _ (fun k => _ * get dist i k))
    by (intros k Hk; rewrite Hz by assumption; ring).
  pose proof eps32_pos. apply div_zero_fin. lra.
Qed.

End ZeroWeight.

(** ** Sorting and ranks *)

Section SortFacts.
Context {A : Type} (leb : A -> A -> bool).
Hypothesis leb_total : forall a b, leb a b = true \/ leb b a = true.
Hypothesis leb_trans : forall a b c, leb a b = true -> leb b c = true -> leb a c = true.

Lemma insert_sorted_perm (p : A * nat) (l : list (A * nat)) :
  Permutation (insert_sorted leb p l) (p :: l).
Proof.
  induction l as [|q l IH]; cbn [insert_sorted]; [reflexivity|].
  destruct (leb (fst p) (fst q)); [reflexivity|].
  rewrite IH. apply perm_swap.
Qed.

Lemma sort_indexed_perm (l : list (A * nat)) : Permutation (sort_indexed leb l) l.
Proof.
  unfold sort_indexed. induction l as [|p l IH]; cbn [fold_right]; [reflexivity|].
  rewrite insert_sorted_perm. now constructor.
Qed.

Lemma insert_sorted_sorted (p : A * nat) (l : list (A * nat)) :
  StronglySorted (key_le leb) l -> StronglySorted (key_le leb) (insert_sorted leb p l).
Proof.
  induction 1 as [|q l Hl IH Hq]; cbn [insert_sorted].
  - constructor; constructor.
  - destruct (leb (fst p) (fst q)) eqn:E.
    + constructor; [now constructor|]. constructor; [exact E|].
      eapply List.Forall_impl; [|exact Hq]. intros x Hx. unfold key_le in *. eauto.
    + constructor; [exact IH|].
      eapply Permutation_Forall; [symmetry; apply insert_sorted_perm|].
      constructor; [|exact Hq]. unfold key_le.
      destruct (leb_total (fst p) (fst q)); congruence.
Qed.

Lemma sort_indexed_sorted (l : list (A * nat)) : StronglySorted (key_le leb) (sort_indexed leb l).
Proof.
  unfold sort_indexed. induction l as [|p l IH]; cbn [fold_right]; [constructor|].
  now apply insert_sorted_sorted.
Qed.

End SortFacts.

Section RankFacts.

Lemma map_fst_combine_seq {A : Type} (l : list A) (s : nat) :
  map fst (combine l (seq s (length l))) = l.
Proof.
  revert s. induction l as [|a l IH]; intros s; cbn; [reflexivity|]. now rewrite IH.
Qed.

Lemma map_snd_combine_seq {A : Type} (l : list A) (s : nat) :
  map snd (combine l (seq s (length l))) = seq s (length l).
Proof.
  revert s. induction l as [|a l IH]; intros s; cbn; [reflexivity|]. now rewrite IH.
Qed.

Lemma in_combine_seq {A : Type} (l : list A) (d a : A) (b s : nat) :
  In (a, b) (combine l (seq s (length l))) ->
  (s <= b < s + length l)%nat /\ nth (b - s) l d = a.
Proof.
  revert s. induction l as [|x l IH]; intros s H; cbn in H; [contradiction|].
  destruct H as [H|H].
  - injection H as -> ->. cbn [length]. rewrite Nat.sub_diag. split; [lia|reflexivity].
  - apply IH in H. destruct H as [Hb Hn]. cbn [length]. split; [lia|].
    replace (b - s)%nat with (S (b - S s)) by lia. exact Hn.
Qed.

Lemma Permutation_count (f : R -> bool) (l l' : list R) :
  Permutation l l' -> length (List.filter f l) = length (List.filter f l').
Proof.
  induction 1 as [|x l l' _ IH|x y l|l l' l'' _ IH1 _ IH2]; cbn [List.filter].
  - reflexivity.
  - destruct (f x); cbn [length]; now rewrite IH.
  - destruct (f x), (f y); reflexivity.
  - congruence.
Qed.

Lemma count_lt_none (l : list R) (v : R) :
  Forall (fun u => v <= u) l -> count_lt l v = 0%nat.
Proof.
  unfold count_lt. induction 1 as [|u l Hu Hl IH]; cbn [List.filter]; [reflexivity|].
  now rewrite Rlt_bool_false.
Qed.

(** In a sorted list without repetition, the number of values below the
    value at a position is the position. *)
Lemma sorted_position (K : list R) (m : nat) :
  StronglySorted Rle K -> List.NoDup K -> (m < length K)%nat -> count_lt K (nth m K 0) = m.
Proof.
  intros HS. revert m. induction HS as [|a K HK IH Ha]; intros m Hnd Hm; [cbn in Hm; lia|].
  inversion Hnd as [|? ? Hnotin Hnd']; subst.
  destruct m as [|m]; cbn [nth].
  - unfold count_lt. cbn [List.filter]. rewrite Rlt_bool_false by lra.
    now apply count_lt_none.
  - cbn [length] in Hm. assert (Hin : In (nth m K 0) K) by (apply nth_In; lia).
    rewrite List.Forall_forall in Ha. specialize (Ha _ Hin).
    assert (a <> nth m K 0) by (intros ->; contradiction).
    unfold count_lt. cbn [List.filter]. rewrite Rlt_bool_true by lra.
    cbn [length]. f_equal. apply IH; [exact Hnd'|lia].
Qed.

Lemma count_eq_absent (l : list R) (v : R) : ~ In v l -> count_eq l v = 0%nat.
Proof.
  unfold count_eq. induction l as [|u l IH]; intros Hn; cbn [List.filter]; [reflexivity|].
  rewrite Req_bool_false by (intros ->; apply Hn; now left).
  apply IH. intros H. apply Hn. now right.
Qed.

Lemma count_eq_once (l : list R) (v : R) : List.NoDup l -> In v l -> count_eq l v = 1%nat.
Proof.
  induction 1 as [|u l Hu Hl IH]; intros Hin; [contradiction|].
  unfold count_eq in *. cbn [List.filter].
  destruct (Req_dec u v) as [->|Hne].
  - rewrite Req_bool_true by reflexivity. cbn [length]. f_equal.
    now apply count_eq_absent.
  - rewrite Req_bool_false by assumption. apply IH. destruct Hin; [contradiction|assumption].
Qed.

Lemma Rle_bool_total (a b : R) : Rle_bool a b = true \/ Rle_bool b a = true.
Proof.
  destruct (Rle_lt_dec a b); [left|right]; apply Rle_bool_true; lra.
Qed.

Lemma Rle_bool_trans (a b c : R) :
  Rle_bool a b = true -> Rle_bool b c = true -> Rle_bool a c = true.
Proof.
  unfold Rle_bool. destruct (Rle_dec a b), (Rle_dec b c), (Rle_dec a c); auto; try discriminate.
  lra.
Qed.

Lemma nat_leb_total (a b : nat) : Nat.leb a b = true \/ Nat.leb b a = true.
Proof. rewrite !Nat.leb_le. lia. Qed.

Lemma nat_leb_trans (a b c : nat) :
  Nat.leb a b = true -> Nat.leb b c = true -> Nat.leb a c = true.
Proof. rewrite !Nat.leb_le. lia. Qed.

Lemma sorted_keys {A : Type} (leb : A -> A -> bool) (le : A -> A -> Prop) (S : list (A * nat)) :
  (forall a b, leb a b = true -> le a b) ->
  StronglySorted (key_le leb) S -> StronglySorted le (map fst S).
Proof.
  intros Hle. induction 1 as [|p S HS IH Hp]; cbn [map]; constructor; [exact IH|].
  apply List.Forall_map. eapply List.Forall_impl; [|exact Hp]. intros q Hq. now apply Hle.
Qed.

Lemma seq_sorted (s n : nat) : StronglySorted le (seq s n).
Proof.
  revert s. induction n as [|n IH]; intros s; cbn [seq]; constructor; [apply IH|].
  apply List.Forall_forall. intros x Hx. apply in_seq in Hx. lia.
Qed.

(** Without ties, [argsort] twice gives for each position the number of
    smaller values. *)
Lemma argsort_twice (l : list R) (k : nat) :
  List.NoDup l -> (k < length l)%nat ->
  nth k (argsort Nat.leb (argsort Rle_bool l)) 0%nat = count_lt l (nth k l 0).
Proof.
  intros Hnd Hk.
  set (S1 := sort_indexed Rle_bool (combine l (seq 0 (length l)))).
  assert (HP1 : Permutation S1 (combine l (seq 0 (length l)))) by apply sort_indexed_perm.
  assert (Hp : argsort Rle_bool l = map snd S1) by reflexivity.
  set (p := argsort Rle_bool l) in *.
  assert (Hlp : length p = (length l)) by apply length_argsort.
  assert (Hpp : Permutation p (seq 0 (length l))).
  { rewrite Hp. rewrite <- (map_snd_combine_seq l 0). now apply Permutation_map. }
  assert (HK1 : Permutation (map fst S1) l).
  { pose proof (Permutation_map fst HP1) as H. now rewrite map_fst_combine_seq in H. }
  set (S2 := sort_indexed Nat.leb (combine p (seq 0 (length p)))).
  assert (HP2 : Permutation S2 (combine p (seq 0 (length p)))) by apply sort_indexed_perm.
  assert (Hq : argsort Nat.leb p = map snd S2) by reflexivity.
  assert (Hkeys : map fst S2 = seq 0 (length l)).
  { apply (StronglySorted_unique le).
    - apply (sorted_keys Nat.leb le); [intros a b; apply Nat.leb_le|].
      apply sort_indexed_sorted; [apply nat_leb_total|apply nat_leb_trans].
    - apply seq_sorted.
    - rewrite <- Hpp. pose proof (Permutation_map fst HP2) as H.
      now rewrite map_fst_combine_seq in H. }
  assert (Hl2 : length S2 = (length l)).
  { unfold S2. rewrite length_sort_indexed, length_combine, length_seq. lia. }
  set (m := nth k (argsort Nat.leb p) 0%nat).
  assert (Hin2 : In (k, m) S2).
  { replace (k, m) with (nth k S2 (0%nat, 0%nat)); [apply nth_In; lia|].
    rewrite (surjective_pairing (nth k S2 (0%nat, 0%nat))). f_equal.
    - change (fst (nth k S2 (0%nat, 0%nat))) with (fst (nth k S2 (0%nat, snd (0%nat, 0%nat)))).
      rewrite <- (map_nth fst). cbn [fst]. rewrite Hkeys. now apply seq_nth.
    - unfold m. rewrite Hq. now rewrite <- (map_nth snd). }
  apply (Permutation_in _ HP2) in Hin2.
  apply (in_combine_seq p 0%nat) in Hin2. rewrite Nat.sub_0_r, Hlp in Hin2.
  destruct Hin2 as [Hm Hpm].
  assert (Hin1 : In (nth m (map fst S1) 0, k) S1).
  { replace (nth m (map fst S1) 0, k) with (nth m S1 (0, 0%nat)).
    - apply nth_In. unfold S1. rewrite length_sort_indexed, length_combine, length_seq. lia.
    - rewrite (surjective_pairing (nth m S1 (0, 0%nat))). f_equal.
      + now rewrite <- (map_nth fst).
      + rewrite <- Hpm, Hp. now rewrite <- (map_nth snd). }
  apply (Permutation_in _ HP1) in Hin1.
  apply (in_combine_seq l 0) in Hin1. rewrite Nat.sub_0_r in Hin1.
  destruct Hin1 as [_ Hval].
  rewrite Hval. unfold count_lt. rewrite <- (Permutation_count _ _ _ HK1).
  fold (count_lt (map fst S1) (nth m (map fst S1) 0)). symmetry.
  apply sorted_position.
  - apply (sorted_keys Rle_bool Rle).
    + intros a b H. unfold Rle_bool in H. now destruct (Rle_dec a b).
    + apply sort_indexed_sorted; [apply Rle_bool_total|apply Rle_bool_trans].
  - eapply Permutation_NoDup; [symmetry; exact HK1|exact Hnd].
  - rewrite length_map. unfold S1.
    rewrite length_sort_indexed, length_combine, length_seq. lia.
Qed.

(** Without ties the average ranks are the ordinal ranks plus one. *)
Lemma rankdata_ordinal (l : list R) (k : nat) :
  List.NoDup l -> (k < length l)%nat ->
  nth k (rankdata l) 0 = nth k (ordinal_ranks l) 0 + 1.
Proof.
  intros Hnd Hk. unfold rankdata, ordinal_ranks.
  rewrite (nth_map_in _ l 0) by assumption.
  rewrite (nth_map_in INR _ 0%nat) by now rewrite !length_argsort.
  rewrite argsort_twice by assumption.
  rewrite count_eq_once by (auto using nth_In). cbn [INR]. field.
Qed.

End RankFacts.

(** ** The masked engine and the formula *)

Section MaskedFormula.
Import Bivariate.

Variables (spot_n xy_n : nat) (x_mat y_mat dist : matrix R) (thr : R).
Hypothesis Hx : has_shape spot_n xy_n x_mat.
Hypothesis Hy : has_shape spot_n xy_n y_mat.
Hypothesis Hd : has_shape spot_n spot_n dist.

Lemma length_masked_x (i j : nat) :
  (i < spot_n)%nat -> length (masked_x x_mat dist thr i j) = length (masked_w dist thr i).
Proof.
  intros Hi. unfold masked_x, masked_w. apply length_mask_select.
  rewrite length_column, (has_shape_row spot_n spot_n) by assumption. apply Hx.
Qed.

Lemma length_masked_y (i j : nat) :
  (i < spot_n)%nat -> length (masked_y y_mat dist thr i j) = length (masked_w dist thr i).
Proof.
  intros Hi. unfold masked_y, masked_w. apply length_mask_select.
  rewrite length_column, (has_shape_row spot_n spot_n) by assumption. apply Hy.
Qed.

Lemma length_masked_values (method : Z) (v : list R) :
  length (masked_values method v) = length v.
Proof. unfold masked_values. destruct (method =? 1)%Z; auto using length_ordinal_ranks. Qed.

(** Each cell of the masked engine is the formula of the specification
    on the neighbours above the threshold, without clamp or clip. *)
Lemma masked_at_formula (method : Z) (i j : nat) :
  (method = 0 \/ method = 1)%Z -> (i < spot_n)%nat -> (j < xy_n)%nat ->
  let n := length (masked_w dist thr i) in
  let w := fun k => nth k (masked_w dist thr i) 0 in
  let x := fun k => nth k (masked_values method (masked_x x_mat dist thr i j)) 0 in
  let y := fun k => nth k (masked_values method (masked_y y_mat dist thr i j)) 0 in
  masked_at x_mat y_mat dist thr method i j
  = Ok (masked_value (spec_numerator n w x y) (spec_denom n w x * spec_denom n w y)).
Proof.
  intros Hm Hi Hj n w x y.
  rewrite (masked_at_value spot_n xy_n) by assumption. f_equal.
  assert (E : _wcorr (masked_x x_mat dist thr i j) (masked_y y_mat dist thr i j)
                (masked_w dist thr i) (py_sum (masked_w dist thr i)) (method =? 1)%Z
              = _wcorr (masked_values method (masked_x x_mat dist thr i j))
                  (masked_values method (masked_y y_mat dist thr i j))
                  (masked_w dist thr i) (py_sum (masked_w dist thr i)) false).
  { unfold masked_values. destruct (method =? 1)%Z; reflexivity. }
  rewrite E. apply wcorr_formula; fold n.
  - now rewrite length_masked_values, length_masked_x.
  - now rewrite length_masked_values, length_masked_y.
  - reflexivity.
Qed.

Lemma mask_above_threshold (w : list R) :
  Forall (fun v => thr < v) (mask_select w (map (fun v => Rgt_bool v thr) w)).
Proof.
  induction w as [|v w IH]; cbn; [constructor|].
  unfold Rgt_bool at 1, Rlt_bool. destruct (Rlt_dec thr v); [constructor|]; auto.
Qed.

Lemma masked_w_nonneg (i : nat) :
  0 <= thr \/ nonneg dist -> Forall (fun v => 0 <= v) (masked_w dist thr i).
Proof.
  intros [Hthr|Hpos]; unfold masked_w, spot_mask.
  - eapply List.Forall_impl; [|apply mask_above_threshold]. cbn. intros v Hv. lra.
  - apply mask_select_Forall. now apply nonneg_row.
Qed.

Lemma masked_value_bounded (n : nat) (w x y : nat -> R) :
  (forall k, (k < n)%nat -> 0 <= w k) ->
  exists r, masked_value (spec_numerator n w x y) (spec_denom n w x * spec_denom n w y) = Fin r
            /\ -1 <= r <= 1.
Proof.
  intros Hw.
  set (N := spec_numerator n w x y). set (D := spec_denom n w x * spec_denom n w y).
  destruct (Req_dec D 0) as [HD|HD]; [exists 0; split; [apply masked_value_zero; auto|lra]|].
  destruct (Req_dec N 0) as [HN|HN]; [exists 0; split; [apply masked_value_zero; auto|lra]|].
  pose proof (spec_denom_nonneg n w Hw x). pose proof (spec_denom_nonneg n w Hw y).
  assert (0 < D) by (unfold D in *; nra).
  exists (N / sqrt D). split; [now apply masked_value_pos|].
  now apply spec_quotient_bounded.
Qed.

Lemma masked_at_bounded (method : Z) (i j : nat) :
  (method = 0 \/ method = 1)%Z -> (i < spot_n)%nat -> (j < xy_n)%nat ->
  0 <= thr \/ nonneg dist ->
  exists r, masked_at x_mat y_mat dist thr method i j = Ok (Fin r) /\ -1 <= r <= 1.
Proof.
  intros Hm Hi Hj Hw. rewrite masked_at_formula by assumption.
  destruct (masked_value_bounded (length (masked_w dist thr i))
              (fun k => nth k (masked_w dist thr i) 0)
              (fun k => nth k (masked_values method (masked_x x_mat dist thr i j)) 0)
              (fun k => nth k (masked_values method (masked_y y_mat dist thr i j)) 0))
    as (r & Hr & Hb).
  - intros k Hk. pose proof (masked_w_nonneg i Hw) as HF.
    rewrite List.Forall_forall in HF. now apply HF, nth_In.
  - exists r. split; [now rewrite Hr|exact Hb].
Qed.

End MaskedFormula.

(** ** Range of the correlations *)

Section Range.
Import Bivariate.

(** X19: over the real numbers every cell of the vectorized engine is a
    finite number of [-1, 1], since the engine clips; the masked engine
    does not clip, and over the real numbers its cells are finite numbers
    of [-1, 1] when the threshold is not negative or no weight is, by the
    Cauchy-Schwarz inequality. *)
Theorem correlations_within_unit_interval
    (spot_n xy_n : nat) (x_mat y_mat dist : matrix R) (thr : R) (i j : nat) :
  has_shape spot_n xy_n x_mat -> has_shape spot_n xy_n y_mat ->
  has_shape spot_n spot_n dist -> (i < spot_n)%nat -> (j < xy_n)%nat ->
  (forall method, method = "pearson"%string \/ method = "spearman"%string ->
     exists r, vectorized_at x_mat y_mat dist method i j = Ok (Fin r) /\ -1 <= r <= 1) /\
  (0 <= thr \/ nonneg dist ->
   forall method, (method = 0 \/ method = 1)%Z ->
     exists r, masked_at x_mat y_mat dist thr method i j = Ok (Fin r) /\ -1 <= r <= 1).
Proof.
  intros Hx Hy Hd Hi Hj. split.
  - intros method Hm. rewrite (vectorized_at_value spot_n xy_n) by assumption.
    destruct (vect_value_bounded
                (spec_numerator spot_n (get dist i)
                   (fun k => nth k (entity_values method x_mat j) 0)
                   (fun k => nth k (entity_values method y_mat j) 0))
                (spec_denom spot_n (get dist i) (fun k => nth k (entity_values method x_mat j) 0)
                 * spec_denom spot_n (get dist i) (fun k => nth k (entity_values method y_mat j) 0)))
      as (r & Hr & Hb).
    exists r. split; [now rewrite Hr|exact Hb].
  - intros Hw method Hm. now apply (masked_at_bounded spot_n xy_n).
Qed.

(** C3: the last step of [_wcorr] returns the quotient of the numerator
    and the root of the product of the denominators as it is, where the
    vectorized engine clips it.  Over the real numbers and for weights
    that are not negative the square of the numerator never exceeds that
    product; floating-point rounding of near-degenerate columns makes it
    exceed it, and then the masked engine returns a value outside [-1, 1]
    and the vectorized engine returns -1 or 1. *)
Theorem masked_engine_does_not_clip (num den : R) :
  1e-6 <= den -> den < num ^ 2 ->
  (exists r, masked_value num den = Fin r /\ 1 < Rabs r) /\
  (exists r, vect_value num den = Fin r /\ Rabs r = 1).
Proof.
  intros Hden Hnum.
  assert (Hs : 0 < sqrt den) by (apply sqrt_lt_R0; lra).
  assert (Hss : sqrt den * sqrt den = den) by (apply sqrt_sqrt; lra).
  assert (Hn0 : num <> 0) by (intros ->; nra).
  assert (Hq : num / sqrt den * sqrt den = num) by (field; lra).
  assert (Hout : 1 < num / sqrt den \/ num / sqrt den < -1).
  { destruct (Rlt_le_dec 0 num) as [Hpos|Hneg].
    - left. apply Rmult_lt_reg_r with (sqrt den); [exact Hs|]. rewrite Hq. nra.
    - right. apply Rmult_lt_reg_r with (sqrt den); [exact Hs|]. rewrite Hq. nra. }
  split.
  - exists (num / sqrt den). split; [apply masked_value_pos; lra|].
    destruct Hout as [H|H]; [rewrite Rabs_pos_eq by lra|rewrite Rabs_left by lra]; lra.
  - rewrite vect_value_large by assumption. unfold clip.
    destruct Hout as [H|H].
    + destruct (Rlt_dec (num / sqrt den) (-1)); [lra|].
      destruct (Rlt_dec 1 (num / sqrt den)); [|lra].
      exists 1. split; [reflexivity|]. rewrite Rabs_pos_eq; lra.
    + destruct (Rlt_dec (num / sqrt den) (-1)); [|lra].
      exists (-1). split; [reflexivity|]. rewrite Rabs_left; lra.
Qed.

(** C3, witness: the numerator 2 over the product 1. *)
Lemma masked_engine_does_not_clip_witness :
  (exists r, masked_value 2 1 = Fin r /\ 1 < Rabs r) /\
  (exists r, vect_value 2 1 = Fin r /\ Rabs r = 1).
Proof. apply masked_engine_does_not_clip; lra. Defined.

End Range.

(** ** Tactics for concrete inputs *)

Ltac shape_tac := split; [reflexivity | repeat constructor].

Ltac eval_cmp :=
  repeat first
    [ rewrite Rlt_bool_true by lra | rewrite Rlt_bool_false by lra
    | rewrite Rle_bool_true by lra | rewrite Rle_bool_false by lra
    | rewrite Req_bool_true by lra | rewrite Req_bool_false by lra ].

Ltac eval_sums :=
  unfold spec_numerator, spec_denom, sum_n, tabulate, py_sum;
  cbn [seq map fold_left nth].

(** Replaces the numerator and the denominator of a cell by their values. *)
Ltac set_masked num den :=
  match goal with
  | |- masked_value ?n ?d = _ =>
      replace n with num by (first [ring | field]);
      replace d with den by (first [ring | field])
  end.

Ltac set_vect num den :=
  match goal with
  | |- vect_value ?n ?d = _ =>
      replace n with num by (first [ring | field]);
      replace d with den by (first [ring | field])
  end.

Ltac eval_ranks :=
  unfold ordinal_ranks, argsort, sort_indexed, rankdata, count_lt, count_eq;
  repeat (progress (cbn [combine seq length fold_right insert_sorted fst snd map List.filter
                         Nat.leb nth INR Nat.add]; eval_cmp)).

(** ** Runs on concrete inputs *)

Section ConcreteFacts.
Import Bivariate Inputs.

Lemma masked_value_sqrt (num den s : R) :
  0 < s -> den = s * s -> num <> 0 -> masked_value num den = Fin (num / s).
Proof.
  intros Hs -> Hn. rewrite masked_value_pos by (auto; nra).
  now rewrite sqrt_square by lra.
Qed.

Lemma vect_value_sqrt (num den s : R) :
  0 < s -> den = s * s -> 1e-6 <= den -> -1 <= num / s <= 1 ->
  vect_value num den = Fin (num / s).
Proof.
  intros Hs Hd Hden Hb. rewrite vect_value_large by assumption.
  rewrite Hd, sqrt_square by lra. now apply clip_fin.
Qed.

(** Without the condition on the weights: with a negative threshold and
    weights of both signs the masked engine, which does not clip, returns
    5/4. *)
Remark masked_statistic_exceeds_one :
  exists r, masked_at line_x line_y signed_weights (-2) 0 0 0 = Ok (Fin r) /\ 1 < r.
Proof.
  exists (5 / 4). split; [|lra].
  rewrite (masked_at_formula 3 1) by (try shape_tac; auto with zarith).
  unfold masked_values, masked_x, masked_y, masked_w, spot_mask, column, Rgt_bool,
    line_x, line_y, signed_weights.
  cbn [Z.eqb nth map]. eval_cmp. cbn [mask_select length nth]. eval_sums.
  f_equal. set_masked 5 (4 * 4). now rewrite (masked_value_sqrt _ _ 4) by lra.
Qed.

(** X19, witness: two spots with uniform weights. *)
Lemma correlations_within_unit_interval_witness :
  (exists r, vectorized_at two_x two_y ones2 "pearson" 0 0 = Ok (Fin r) /\ -1 <= r <= 1) /\
  (exists r, masked_at two_x two_y ones2 0 1 0 0 = Ok (Fin r) /\ -1 <= r <= 1).
Proof.
  destruct (correlations_within_unit_interval 2 1 two_x two_y ones2 0 0 0) as [H1 H2];
    try shape_tac; try lia.
  split.
  - apply H1. now left.
  - apply H2; [left; lra|now right].
Defined.

End ConcreteFacts.

(** ** Zero and near-zero denominators *)

Section Degenerate.
Import Bivariate Inputs.

(** C1, as amended: for a weight matrix without negative entries and a
    spot whose weights sum to zero, every engine returns exactly 0 at that
    spot for every pair (a finite 0: no NaN, no infinity, no exception);
    the masked engine does so as soon as the weights above the threshold
    sum to zero.  A denominator below 1e-6 gives 0 in the vectorized
    correlations only; the masked engine gives 0 where its denominator or
    its numerator is exactly 0. *)
Theorem zero_weight_spot_gives_zero
    (spot_n xy_n : nat) (x_mat y_mat dist : matrix R) (thr : R) (i j : nat) :
  has_shape spot_n xy_n x_mat -> has_shape spot_n xy_n y_mat ->
  has_shape spot_n spot_n dist -> (i < spot_n)%nat -> (j < xy_n)%nat ->
  (nonneg dist -> sum_n spot_n (get dist i) = 0 ->
     (forall method, method = "pearson"%string \/ method = "spearman"%string ->
        vectorized_at x_mat y_mat dist method i j = Ok (Fin 0)) /\
     (forall method, (method = 0 \/ method = 1)%Z ->
        masked_at x_mat y_mat dist thr method i j = Ok (Fin 0)) /\
     cosine_at x_mat y_mat dist i j = Fin 0 /\
     jaccard_at x_mat y_mat dist i j = Fin 0) /\
  (nonneg dist -> py_sum (masked_w dist thr i) = 0 ->
     forall method, (method = 0 \/ method = 1)%Z ->
       masked_at x_mat y_mat dist thr method i j = Ok (Fin 0)) /\
  (forall method, method = "pearson"%string \/ method = "spearman"%string ->
     spec_denom spot_n (get dist i) (fun k => nth k (entity_values method x_mat j) 0)
     * spec_denom spot_n (get dist i) (fun k => nth k (entity_values method y_mat j) 0) < 1e-6 ->
     vectorized_at x_mat y_mat dist method i j = Ok (Fin 0)) /\
  (forall method, (method = 0 \/ method = 1)%Z ->
     let n := length (masked_w dist thr i) in
     let w := fun k => nth k (masked_w dist thr i) 0 in
     let x := fun k => nth k (masked_values method (masked_x x_mat dist thr i j)) 0 in
     let y := fun k => nth k (masked_values method (masked_y y_mat dist thr i j)) 0 in
     spec_denom n w x * spec_denom n w y = 0 \/ spec_numerator n w x y = 0 ->
     masked_at x_mat y_mat dist thr method i j = Ok (Fin 0)).
Proof.
  intros Hx Hy Hd Hi Hj. repeat split.
  - intros method Hm. now apply (vectorized_zero_row spot_n xy_n).
  - intros method Hm. now apply (masked_zero_row spot_n xy_n).
  - now apply (cosine_zero_row spot_n xy_n).
  - now apply (jaccard_zero_row spot_n xy_n).
  - intros Hpos Hs method Hm. now apply (masked_zero_sum spot_n xy_n).
  - intros method Hm Hsmall.
    rewrite (vectorized_at_value spot_n xy_n) by assumption.
    f_equal. now apply vect_value_small.
  - intros method Hm n w x y H0.
    rewrite (masked_at_formula spot_n xy_n) by assumption.
    f_equal. now apply masked_value_zero.
Qed.

(** C1, witness: the first of two spots has no neighbour. *)
Lemma zero_weight_spot_gives_zero_witness :
  vectorized_at two_x two_y lonely_first "pearson" 0 0 = Ok (Fin 0) /\
  vectorized_at two_x two_y lonely_first "spearman" 0 0 = Ok (Fin 0) /\
  masked_at two_x two_y lonely_first 0 0 0 0 = Ok (Fin 0) /\
  masked_at two_x two_y lonely_first 0 1 0 0 = Ok (Fin 0) /\
  cosine_at two_x two_y lonely_first 0 0 = Fin 0 /\
  jaccard_at two_x two_y lonely_first 0 0 = Fin 0.
Proof.
  destruct (zero_weight_spot_gives_zero 2 1 two_x two_y lonely_first 0 0 0)
    as (H & _); try shape_tac; try lia.
  destruct H as (Hv & Hm & Hc & Hj).
  - unfold nonneg, lonely_first. repeat constructor; lra.
  - unfold lonely_first. eval_sums. cbn [get get_d nth]. ring.
  - repeat split; auto.
Defined.

(** The masked engine on two equal columns of close values. *)
Lemma masked_close_values :
  masked_at close_values close_values ones2 0 0 0 0 = Ok (Fin 1).
Proof.
  rewrite (masked_at_formula 2 1) by (try shape_tac; auto with zarith).
  unfold masked_values, masked_x, masked_y, masked_w, spot_mask, column, Rgt_bool,
    close_values, ones2.
  cbn [Z.eqb nth map]. eval_cmp. cbn [mask_select length nth]. eval_sums.
  f_equal. set_masked (1 / 1024) (1 / 1024 * (1 / 1024)).
  rewrite (masked_value_sqrt _ _ (1 / 1024)) by lra. f_equal. lra.
Qed.

Lemma close_values_denominator :
  spec_denom 2 (get ones2 0) (fun k => get close_values k 0)
  * spec_denom 2 (get ones2 0) (fun k => get close_values k 0) < 1e-6.
Proof. unfold ones2, close_values. eval_sums. cbn [get get_d nth]. lra. Qed.

(** C1, counterexample: a cell of the masked engine whose denominator is
    2^-20, below the 1e-6 of the vectorized engine, is 1 and not 0. *)
Lemma masked_near_zero_denominator_not_zero :
  spec_denom 2 (get ones2 0) (fun k => get close_values k 0)
  * spec_denom 2 (get ones2 0) (fun k => get close_values k 0) < 1e-6 /\
  masked_at close_values close_values ones2 0 0 0 0 = Ok (Fin 1) /\
  Fin 1 <> Fin 0.
Proof.
  split; [exact close_values_denominator|]. split; [exact masked_close_values|].
  intros H. injection H as H. lra.
Qed.

End Degenerate.

Section CategoryFacts.
Import Categories.

Example simplify_cats_run :
  _simplify_cats [["PP"; "PN"; "NP"; "NN"]; ["PZ"; "ZP"; "ZZ"; "NZ"]]%string
  = [[PyInt 1; PyInt (-1); PyInt (-1); PyInt 0];
     [PyStr "PZ"; PyStr "ZP"; PyStr "ZZ"; PyStr "NZ"]].
Proof. reflexivity. Qed.

(** C4: [_simplify_cats] maps PP to 1, PN and NP to -1 and NN to 0, but a
    label with a Z (PZ, ZP, ZZ, NZ, ZN) stays the string it was: the key
    written as a pattern is compared literally. *)
Theorem simplify_cats_keeps_labels_with_Z :
  _simplify_cats [["PP"; "PN"; "NP"; "NN"]]%string
    = [[PyInt 1; PyInt (-1); PyInt (-1); PyInt 0]] /\
  _simplify_cats [["PZ"; "ZP"; "ZZ"; "NZ"; "ZN"]]%string
    = [[PyStr "PZ"; PyStr "ZP"; PyStr "ZZ"; PyStr "NZ"; PyStr "ZN"]] /\
  forall s, s <> "(^*Z*$)"%string -> s <> "NN"%string -> s <> "PP"%string ->
            s <> "PN"%string -> s <> "NP"%string ->
            _simplify_cats [[s]] = [[PyStr s]].
Proof.
  split; [reflexivity|]. split; [reflexivity|].
  intros s H1 H2 H3 H4 H5. unfold _simplify_cats, df_replace, emap.
  cbn [map replace_lookup].
  repeat match goal with
         | |- context [String.eqb ?k s] =>
             let E := fresh in
             destruct (String.eqb_spec k s) as [E|E]; [congruence|clear E]
         end.
  reflexivity.
Qed.

End CategoryFacts.

Section EncodeFacts.
Import Categories Inputs.

Lemma sum_n_minus_const (n : nat) (f : nat -> R) (c : R) :
  sum_n n (fun k => f k - c) = sum_n n f - INR n * c.
Proof.
  induction n as [|n IH]; [rewrite !sum_n_0; cbn; ring|].
  rewrite !sum_n_S, IH, S_INR. ring.
Qed.

Lemma bounded_search (n : nat) (P : nat -> Prop) :
  (forall k, {P k} + {~ P k}) ->
  {exists k, (k < n)%nat /\ P k} + {forall k, (k < n)%nat -> ~ P k}.
Proof.
  intros dec. induction n as [|n [IH|IH]].
  - right. intros k Hk. lia.
  - left. destruct IH as (k & Hk & HP). exists k. split; [lia|exact HP].
  - destruct (dec n) as [HP|HP].
    + left. exists n. split; [lia|exact HP].
    + right. intros k Hk. destruct (Nat.eq_dec k n) as [->|Hne]; [exact HP|].
      apply IH. lia.
Qed.

(** Values that are not all equal have one below their mean. *)
Lemma below_mean_exists (n : nat) (x : nat -> R) (r r' : nat) :
  (r < n)%nat -> (r' < n)%nat -> x r <> x r' ->
  exists k, (k < n)%nat /\ x k < sum_n n x / INR n.
Proof.
  intros Hr Hr' Hne. set (mu := sum_n n x / INR n).
  destruct (bounded_search n (fun k => x k < mu)) as [H|H]; [intros k; apply Rlt_dec|exact H|].
  exfalso.
  assert (Hn : INR n <> 0) by (apply not_0_INR; lia).
  assert (Hz : forall k, (k < n)%nat -> x k - mu = 0).
  { apply sum_n_nonneg_zero.
    - intros k Hk. specialize (H k Hk). lra.
    - rewrite sum_n_minus_const. unfold mu. field. exact Hn. }
  pose proof (Hz r Hr). pose proof (Hz r' Hr'). lra.
Qed.

Lemma all_nonneg_spec (n m : nat) (a : matrix R) :
  has_shape n m a ->
  all_nonneg a = true <-> (forall r c, (r < n)%nat -> (c < m)%nat -> 0 <= get a r c).
Proof.
  intros Ha. unfold all_nonneg. rewrite forallb_forall. split.
  - intros H r c Hr Hc. unfold get, get_d.
    assert (Hin : In (nth r a []) a) by (apply nth_In; destruct Ha; lia).
    specialize (H _ Hin). rewrite forallb_forall in H.
    assert (Hin' : In (nth c (nth r a []) 0) (nth r a [])).
    { apply nth_In. now rewrite (has_shape_row n m). }
    specialize (H _ Hin'). unfold Rle_bool in H. now destruct (Rle_dec 0 _).
  - intros H row Hrow. apply forallb_forall. intros v Hv.
    destruct (In_nth a row [] Hrow) as (r & Hr & <-).
    destruct (In_nth _ v 0 Hv) as (c & Hc & <-).
    apply Rle_bool_true. apply (H r c); [destruct Ha; lia|].
    rewrite (has_shape_row n m) in Hc; auto. destruct Ha; lia.
Qed.

Lemma sign_of_neg (v : R) : v < 0 -> sign_of v = "N"%string.
Proof.
  intros H. unfold sign_of, sign_char, gt0, lt0.
  now rewrite Rlt_bool_false, Rlt_bool_true by lra.
Qed.

Lemma encode_centred (n m : nat) (a : matrix R) (i j : nat) :
  has_shape n m a -> (i < n)%nat -> (j < m)%nat -> all_nonneg a = true ->
  get_d ""%string (_encode_as_char a) i j
  = sign_of (get a i j - sum_n n (fun r => get a r j) / INR n).
Proof.
  intros Ha Hi Hj Hall. unfold _encode_as_char, _standardize_matrix. rewrite Hall.
  cbn [negb]. destruct (shape_dims n m a Ha) as [-> ->]; [lia|].
  rewrite (get_d_emap sign_char NaN ""%string n m); auto using has_shape_emap, has_shape_mk.
  rewrite (get_d_emap Fin 0 NaN n m); auto using has_shape_mk.
  rewrite get_d_mk by assumption. unfold mean_axis0.
  destruct (shape_dims n m a Ha) as [-> ->]; [lia|].
  rewrite nth_tabulate by assumption. reflexivity.
Qed.

Lemma encode_raw (n m : nat) (a : matrix R) (i j : nat) :
  has_shape n m a -> (i < n)%nat -> (j < m)%nat -> all_nonneg a = false ->
  get_d ""%string (_encode_as_char a) i j = sign_of (get a i j).
Proof.
  intros Ha Hi Hj Hall. unfold _encode_as_char. rewrite Hall.
  rewrite (get_d_emap sign_char NaN ""%string n m); auto using has_shape_emap.
  now rewrite (get_d_emap Fin 0 NaN n m).
Qed.

(** C9, as amended, over the real numbers: when no value of the whole
    matrix is negative, [_encode_as_char] subtracts from every column its
    mean and labels the differences; as soon as one value of the matrix is
    negative it labels the values as they are, also in the columns without
    a negative value.  In the first case a column whose values are not all
    equal has an N.  (The mean of the source is rounded: a value within
    rounding of the mean of its column can get another label.) *)
Theorem encode_centres_nonnegative_matrix (n m : nat) (a : matrix R) (i j : nat) :
  has_shape n m a -> (i < n)%nat -> (j < m)%nat ->
  ((forall r c, (r < n)%nat -> (c < m)%nat -> 0 <= get a r c) ->
     get_d ""%string (_encode_as_char a) i j
     = sign_of (get a i j - sum_n n (fun r => get a r j) / INR n)) /\
  ((exists r c, (r < n)%nat /\ (c < m)%nat /\ get a r c < 0) ->
     get_d ""%string (_encode_as_char a) i j = sign_of (get a i j)) /\
  ((forall r c, (r < n)%nat -> (c < m)%nat -> 0 <= get a r c) ->
   (exists r r', (r < n)%nat /\ (r' < n)%nat /\ get a r j <> get a r' j) ->
     exists r, (r < n)%nat /\ get_d ""%string (_encode_as_char a) r j = "N"%string).
Proof.
  intros Ha Hi Hj. split; [|split].
  - intros Hall. apply (encode_centred n m); auto. now apply (all_nonneg_spec n m).
  - intros (r & c & Hr & Hc & Hneg). apply (encode_raw n m); auto.
    destruct (all_nonneg a) eqn:E; [|reflexivity].
    apply (all_nonneg_spec n m a Ha) with (r := r) (c := c) in E; auto. lra.
  - intros Hall (r & r' & Hr & Hr' & Hne).
    destruct (below_mean_exists n (fun k => get a k j) r r' Hr Hr' Hne) as (k & Hk & Hlt).
    exists k. split; [exact Hk|].
    rewrite (encode_centred n m); auto; [|now apply (all_nonneg_spec n m)].
    apply sign_of_neg. lra.
Qed.

(** C9, witness: a matrix without negative values. *)
Lemma encode_centres_nonnegative_matrix_witness :
  get_d ""%string (_encode_as_char two_x) 0 0
  = sign_of (get two_x 0 0 - sum_n 2 (fun r => get two_x r 0) / INR 2) /\
  exists r, (r < 2)%nat /\ get_d ""%string (_encode_as_char two_x) r 0 = "N"%string.
Proof.
  destruct (encode_centres_nonnegative_matrix 2 1 two_x 0 0) as (H1 & _ & H3);
    try shape_tac; try lia.
  assert (Hpos : forall r c, (r < 2)%nat -> (c < 1)%nat -> 0 <= get two_x r c).
  { intros [|[|r]] [|c] Hr Hc; try lia; unfold two_x; cbn [get get_d nth]; lra. }
  split; [now apply H1|]. apply H3; [exact Hpos|].
  exists 0%nat, 1%nat. repeat split; try lia. unfold two_x. cbn [get get_d nth]. lra.
Defined.

(** C9, counterexample: the first column of [mixed_signs] has no negative
    value and two different values, yet its mean is not subtracted and it
    gets no N. *)
Lemma encode_keeps_nonnegative_column :
  (0 <= get mixed_signs 0 0 /\ 0 <= get mixed_signs 1 0) /\
  get mixed_signs 0 0 <> get mixed_signs 1 0 /\
  _encode_as_char mixed_signs = [["P"; "N"]; ["P"; "N"]]%string /\
  sign_of (get mixed_signs 0 0 - sum_n 2 (fun r => get mixed_signs r 0) / INR 2) = "N"%string.
Proof.
  unfold mixed_signs. cbn [get get_d nth]. repeat split; try lra.
  - unfold _encode_as_char, all_nonneg. cbn [forallb]. eval_cmp. cbn [andb].
    unfold emap, sign_char, gt0, lt0. cbn [map]. eval_cmp. reflexivity.
  - apply sign_of_neg. eval_sums. cbn [INR]. lra.
Qed.

End EncodeFacts.

Section TesterFacts.
Import Bivariate Permutation_test Inputs.

Variable rng_state : Type.
Variable seed_rng : Z -> rng_state.
Variable rng_permutation : rng_state -> nat -> list nat * rng_state.

Abbreviation loop := (permutation_loop rng_state rng_permutation).
Abbreviation pvals := (_local_permutation_pvals rng_state seed_rng rng_permutation).
Abbreviation counts := (permutation_counts rng_state seed_rng rng_permutation).

Lemma has_shape_add_indicator (cond : npfloat -> npfloat -> bool) (n m : nat)
    (pv : matrix R) (perm truth : matrix npfloat) :
  has_shape n m pv -> (0 < n)%nat -> has_shape n m (add_indicator cond pv perm truth).
Proof.
  intros H Hn. destruct (shape_dims n m pv H Hn) as [Hr Hc].
  unfold add_indicator. rewrite Hr, Hc. apply has_shape_mk.
Qed.

Lemma loop_shape (k n m : nat) (rng : rng_state) (pv x_mat y_mat dist : matrix R)
    (truth : matrix npfloat) (f : statistic) (po : bool) (C : matrix R) :
  has_shape n m pv -> (0 < n)%nat ->
  loop k rng pv x_mat y_mat dist truth f po = Ok C -> has_shape n m C.
Proof.
  revert rng pv. induction k as [|k IH]; intros rng pv Hpv Hn Hrun; cbn in Hrun.
  - injection Hrun as <-. exact Hpv.
  - destruct (rng_permutation rng (ncols truth)) as [idx rng'].
    destruct (f (take_rows x_mat idx) y_mat dist) as [perm|e]; cbn in Hrun; [|discriminate].
    eapply IH; [|exact Hn|exact Hrun].
    destruct po; now apply has_shape_add_indicator.
Qed.

(** An exception of the tester is an exception of the statistic function. *)
Lemma loop_error (k : nat) (rng : rng_state) (pv x_mat y_mat dist : matrix R)
    (truth : matrix npfloat) (f : statistic) (po : bool) (e : exn) :
  loop k rng pv x_mat y_mat dist truth f po = Err e ->
  exists idx, f (take_rows x_mat idx) y_mat dist = Err e.
Proof.
  revert rng pv. induction k as [|k IH]; intros rng pv Hrun; cbn in Hrun; [discriminate|].
  destruct (rng_permutation rng (ncols truth)) as [idx rng'].
  destruct (f (take_rows x_mat idx) y_mat dist) as [perm|e'] eqn:Ef; cbn in Hrun.
  - now apply IH in Hrun.
  - inversion Hrun; subst. now exists idx.
Qed.

Lemma pvals_unfold (x_mat y_mat dist : matrix R) (truth : matrix npfloat) (f : statistic)
    (n_perm : Z) (seed : option Z) (po : bool) (e : Z) :
  pvals x_mat y_mat dist truth f n_perm seed po e
  = do C <- counts x_mat y_mat dist truth f n_perm seed po e;
    Ok (let P := emap (fun c => div_int c n_perm) C in
        if po then set_where_not (pos_msk x_mat y_mat) P else P).
Proof. reflexivity. Qed.

(** C6: with [positive_only] the tester returns 1 at every cell whose x
    and y value at that spot are both at most 0, and the count of the loop
    divided by [n_perm] at every other cell. *)
Theorem positive_only_forces_one
    (spot_n xy_n : nat) (x_mat y_mat dist : matrix R) (local_truth : matrix npfloat)
    (local_fun : statistic) (n_perm : Z) (seed : option Z) (os_entropy : Z) (i j : nat) :
  has_shape spot_n xy_n x_mat -> has_shape xy_n spot_n local_truth ->
  (i < spot_n)%nat -> (j < xy_n)%nat ->
  match counts x_mat y_mat dist local_truth local_fun n_perm seed true os_entropy with
  | Err e => pvals x_mat y_mat dist local_truth local_fun n_perm seed true os_entropy = Err e
  | Ok C =>
      exists P,
        pvals x_mat y_mat dist local_truth local_fun n_perm seed true os_entropy = Ok P /\
        (get x_mat i j <= 0 -> get y_mat i j <= 0 -> getf P j i = Fin 1) /\
        (0 < get x_mat i j \/ 0 < get y_mat i j -> getf P j i = div_int (get C j i) n_perm)
  end.
Proof.
  intros Hx Ht Hi Hj. rewrite pvals_unfold.
  destruct (counts x_mat y_mat dist local_truth local_fun n_perm seed true os_entropy)
    as [C|e] eqn:HC; [|reflexivity].
  cbn [rbind]. eexists. split; [reflexivity|].
  assert (Hp : (0 < xy_n)%nat) by lia. assert (Hn : (0 < spot_n)%nat) by lia.
  assert (HCs : has_shape xy_n spot_n C).
  { unfold permutation_counts in HC. eapply loop_shape; [|exact Hp|exact HC].
    destruct (shape_dims _ _ _ Ht Hp) as [-> ->]. apply has_shape_mk. }
  pose proof (has_shape_emap (fun c => div_int c n_perm) _ _ _ HCs) as HPs.
  unfold set_where_not, pos_msk, getf.
  destruct (shape_dims _ _ _ HPs Hp) as [-> ->].
  destruct (shape_dims _ _ _ Hx Hn) as [-> ->].
  rewrite !get_d_mk by assumption.
  split.
  - intros H1 H2. unfold Rgt_bool. now rewrite !Rlt_bool_false by assumption.
  - intros H. replace (Rgt_bool (get x_mat i j) 0 || Rgt_bool (get y_mat i j) 0) with true.
    + cbn [negb]. now rewrite (get_d_emap (fun c => div_int c n_perm) 0 NaN xy_n spot_n).
    + symmetry. apply orb_true_iff. unfold Rgt_bool.
      destruct H; [left|right]; now apply Rlt_bool_true.
Qed.

(** C7: with a seed, the p-values do not depend on anything but the
    arguments: two calls with the same arguments and the same seed return
    the same matrix, whatever entropy the system holds at each call. *)
Theorem same_seed_same_pvalues
    (x_mat y_mat dist : matrix R) (local_truth : matrix npfloat) (local_fun : statistic)
    (n_perm : Z) (seed : Z) (positive_only : bool) (entropy1 entropy2 : Z) :
  pvals x_mat y_mat dist local_truth local_fun n_perm (Some seed) positive_only entropy1
  = pvals x_mat y_mat dist local_truth local_fun n_perm (Some seed) positive_only entropy2.
Proof.
  rewrite !pvals_unfold. unfold permutation_counts.
  replace (default_rng rng_state seed_rng (Some seed) entropy1)
    with (default_rng rng_state seed_rng (Some seed) entropy2) by reflexivity.
  reflexivity.
Qed.

Lemma div_int_zero (n : Z) : div_int 0 n = if (n =? 0)%Z then NaN else Fin 0.
Proof.
  unfold div_int, Np.div. destruct (Z.eqb_spec n 0) as [->|Hn].
  - destruct (Req_dec_T 0 0); [|contradiction]. reflexivity.
  - destruct (Req_dec_T (IZR n) 0) as [H|H].
    + apply eq_IZR_R0 in H. contradiction.
    + f_equal. unfold Rdiv. ring.
Qed.

(** C8, as amended: the tester does not check [n_perm].  On valid
    inputs (matrices of matching shapes, a seed that is not negative, a
    statistic function that returns matrices of the shape of the true
    statistic) and for [n_perm] at most 0 it draws no permutation, calls no
    statistic function and raises nothing: it returns 0 / n_perm (NaN when
    [n_perm] is 0) at every cell, or 1 where [positive_only] masks.  For
    every [n_perm], what it raises on such inputs was raised by the
    statistic function. *)
Theorem n_perm_is_not_checked
    (spot_n xy_n : nat) (x_mat y_mat dist : matrix R) (local_truth : matrix npfloat)
    (local_fun : statistic) (n_perm : Z) (seed : option Z) (positive_only : bool)
    (os_entropy : Z) :
  has_shape spot_n xy_n x_mat -> has_shape spot_n xy_n y_mat ->
  has_shape xy_n spot_n local_truth -> (0 < xy_n)%nat ->
  match seed with Some s => (0 <= s)%Z | None => True end ->
  (forall idx M, length idx = spot_n -> Forall (fun k => (k < spot_n)%nat) idx ->
     local_fun (take_rows x_mat idx) y_mat dist = Ok M -> has_shape xy_n spot_n M) ->
  ((n_perm <= 0)%Z ->
     let P := emap (fun c => div_int c n_perm) (mk_matrix xy_n spot_n (fun _ _ => 0)) in
     pvals x_mat y_mat dist local_truth local_fun n_perm seed positive_only os_entropy
     = Ok (if positive_only then set_where_not (pos_msk x_mat y_mat) P else P) /\
     forall r c, (r < xy_n)%nat -> (c < spot_n)%nat ->
       getf P r c = if (n_perm =? 0)%Z then NaN else Fin 0) /\
  (forall e,
     pvals x_mat y_mat dist local_truth local_fun n_perm seed positive_only os_entropy = Err e ->
     exists idx, local_fun (take_rows x_mat idx) y_mat dist = Err e).
Proof.
  intros _ _ Ht Hp _ _.
  destruct (shape_dims _ _ _ Ht Hp) as [Hrows Hcols].
  split.
  - intros Hn P. split.
    + rewrite pvals_unfold. unfold permutation_counts.
      replace (Z.to_nat n_perm) with 0%nat by lia. rewrite Hrows, Hcols. reflexivity.
    + intros r c Hr Hc. unfold P, getf.
      rewrite (get_d_emap (fun c => div_int c n_perm) 0 NaN xy_n spot_n);
        auto using has_shape_mk.
      rewrite get_d_mk by assumption. apply div_int_zero.
  - intros e He. rewrite pvals_unfold in He. unfold permutation_counts in He.
    destruct (loop _ _ _ _ _ _ _ _ _) as [C|e'] eqn:Hrun; cbn in He; [discriminate|].
    inversion He; subst. eapply loop_error. exact Hrun.
Qed.

End TesterFacts.

Section TesterRuns.
Import Bivariate Permutation_test Inputs.

Abbreviation rotation_pvals :=
  (_local_permutation_pvals nat rotation_seed rotation_permutation).

Lemma loop_total {S : Type} (perm : S -> nat -> list nat * S) (k : nat) (rng : S)
    (pv x_mat y_mat dist : matrix R) (truth : matrix npfloat) (f : statistic) (po : bool) :
  (forall x', is_ok (f x' y_mat dist) = true) ->
  exists C, permutation_loop S perm k rng pv x_mat y_mat dist truth f po = Ok C.
Proof.
  intros Hf. revert rng pv. induction k as [|k IH]; intros rng pv; cbn.
  - now exists pv.
  - destruct (perm rng (ncols truth)) as [idx rng'].
    specialize (Hf (take_rows x_mat idx)).
    destruct (f (take_rows x_mat idx) y_mat dist) as [M|e]; [|discriminate].
    cbn [rbind]. apply IH.
Qed.

(** C6, witness: two permutations of two spots; at the first spot x and y
    are negative. *)
Lemma positive_only_forces_one_witness :
  exists P,
    rotation_pvals signed_x signed_y ones2 [[Fin 0; Fin 0]] pearson_statistic 2 (Some 1%Z)
      true 0 = Ok P /\
    getf P 0 0 = Fin 1.
Proof.
  pose proof (positive_only_forces_one nat rotation_seed rotation_permutation 2 1
                signed_x signed_y ones2 [[Fin 0; Fin 0]] pearson_statistic 2 (Some 1%Z) 0 0 0)
    as H.
  destruct (loop_total rotation_permutation (Z.to_nat 2) (rotation_seed 1)
              (mk_matrix 1 2 (fun _ _ => 0)) signed_x signed_y ones2 [[Fin 0; Fin 0]]
              pearson_statistic true) as [C HC]; [reflexivity|].
  unfold permutation_counts, default_rng in H.
  change (nrows [[Fin 0; Fin 0]]) with 1%nat in H.
  change (ncols [[Fin 0; Fin 0]]) with 2%nat in H.
  rewrite HC in H.
  destruct H as (P & HP & Hone & _); try shape_tac; try lia.
  exists P. split; [exact HP|].
  apply Hone; unfold signed_x, signed_y; cbn [get get_d nth]; lra.
Defined.

Lemma has_shape_take_rows (n n' m : nat) (M : matrix R) (idx : list nat) :
  has_shape n m M -> length idx = n' -> Forall (fun k => (k < n)%nat) idx ->
  has_shape n' m (take_rows M idx).
Proof.
  intros [Hlen Hrows] Hidx Hin. split; unfold take_rows; [now rewrite length_map|].
  apply List.Forall_forall. intros row Hrow. apply in_map_iff in Hrow.
  destruct Hrow as (k & <- & Hk).
  rewrite List.Forall_forall in Hin, Hrows. apply Hrows, nth_In. rewrite Hlen. now apply Hin.
Qed.

(** The Pearson statistic returns one row per pair and one column per
    spot. *)
Lemma pearson_statistic_shape (spot_n xy_n : nat) (x_mat y_mat dist : matrix R)
    (M : matrix npfloat) :
  has_shape spot_n xy_n x_mat -> has_shape spot_n xy_n y_mat ->
  has_shape spot_n spot_n dist -> (0 < spot_n)%nat -> (0 < xy_n)%nat ->
  pearson_statistic x_mat y_mat dist = Ok M -> has_shape xy_n spot_n M.
Proof.
  intros Hx Hy Hd Hn Hp HM.
  destruct (vectorized_cell spot_n xy_n x_mat y_mat dist Hx Hy Hd "pearson" 0 0
              (or_introl eq_refl) Hn Hp) as (M' & HM' & Hshape & _).
  unfold pearson_statistic in HM. rewrite HM' in HM. now injection HM as <-.
Qed.

(** C8, witness: two spots, one pair, [n_perm = -2]. *)
Lemma n_perm_is_not_checked_witness :
  rotation_pvals two_x two_y ones2 [[Fin 0; Fin 0]] pearson_statistic (-2) (Some 1%Z) false 0
  = Ok (emap (fun c => div_int c (-2)) (mk_matrix 1 2 (fun _ _ => 0))) /\
  forall r c, (r < 1)%nat -> (c < 2)%nat ->
    getf (emap (fun c => div_int c (-2)) (mk_matrix 1 2 (fun _ _ => 0))) r c = Fin 0.
Proof.
  assert (Hx : has_shape 2 1 two_x) by shape_tac.
  assert (Hy : has_shape 2 1 two_y) by shape_tac.
  assert (Hd : has_shape 2 2 ones2) by shape_tac.
  assert (Ht : has_shape 1 2 [[Fin 0; Fin 0]]) by shape_tac.
  assert (Hp : (0 < 1)%nat) by lia.
  assert (Hn : (0 < 2)%nat) by lia.
  assert (Hseed : (0 <= 1)%Z) by lia.
  assert (Hstat : forall idx M, length idx = 2%nat -> Forall (fun k => (k < 2)%nat) idx ->
            pearson_statistic (take_rows two_x idx) two_y ones2 = Ok M -> has_shape 1 2 M).
  { intros idx M Hlen Hin. apply (pearson_statistic_shape 2 1); auto.
    now apply (has_shape_take_rows 2 2 1). }
  destruct (n_perm_is_not_checked nat rotation_seed rotation_permutation 2 1 two_x two_y
              ones2 [[Fin 0; Fin 0]] pearson_statistic (-2) (Some 1%Z) false 0
              Hx Hy Ht Hp Hseed Hstat) as [H _].
  apply H. lia.
Defined.

(** C8, counterexample: with [n_perm = 0] the tester raises nothing and
    returns a matrix of NaN. *)
Lemma zero_permutations_return_nan :
  rotation_pvals two_x two_y ones2 [[Fin 0; Fin 0]] pearson_statistic 0 (Some 1%Z) false 0
  = Ok [[NaN; NaN]].
Proof.
  unfold _local_permutation_pvals.
  change (Z.to_nat 0) with 0%nat. cbn [permutation_loop rbind].
  change (nrows [[Fin 0; Fin 0]]) with 1%nat. change (ncols [[Fin 0; Fin 0]]) with 2%nat.
  unfold mk_matrix, tabulate, emap. cbn [seq map]. now rewrite div_int_zero.
Qed.

(** Without a seed two calls may differ. *)
Remark unseeded_calls_may_differ :
  rotation_pvals two_x two_y ones2 [[Fin (3 / 2); Fin (3 / 2)]] first_value_statistic 1
    None false 0
  <> rotation_pvals two_x two_y ones2 [[Fin (3 / 2); Fin (3 / 2)]] first_value_statistic 1
       None false 1.
Proof.
  unfold _local_permutation_pvals, default_rng, rotation_seed.
  change (Z.to_nat 1) with 1%nat. change (Z.to_nat 0) with 0%nat.
  change (nrows [[Fin (3 / 2); Fin (3 / 2)]]) with 1%nat.
  change (ncols [[Fin (3 / 2); Fin (3 / 2)]]) with 2%nat.
  cbn [permutation_loop].
  change (ncols [[Fin (3 / 2); Fin (3 / 2)]]) with 2%nat.
  unfold rotation_permutation, first_value_statistic, take_rows, two_x, tabulate.
  cbn [seq map Nat.add Nat.modulo Nat.divmod fst snd Nat.sub nth get get_d rbind].
  unfold add_indicator, mk_matrix, tabulate, emap, getf, get.
  cbn [nrows ncols length hd seq map get_d nth Np.abs Np.ge].
  unfold Rge_bool. rewrite !Rabs_pos_eq by lra. eval_cmp.
  unfold div_int. rewrite !div_fin by lra.
  intros H. injection H as H _. lra.
Qed.

End TesterRuns.

Section ProximityFacts.
Import Proximity Inputs.

Variable kneighbors_graph : nat -> matrix R -> result (matrix R).
Variable astype_float16 : R -> R.

Abbreviation builder := (get_spatial_proximity kneighbors_graph astype_float16).

Lemma decay_spatialdm (parameter d : R) : decay "spatialdm" parameter d = d.
Proof. reflexivity. Qed.

Lemma sqrt_of_square (v s : R) : 0 <= s -> v = s * s -> sqrt v = s.
Proof. intros Hs ->. now apply sqrt_square. Qed.

(** C5: for the family 'spatialdm', the only name under which the builder
    accepts the rbf kernel, no branch applies: the distances stay as they
    are.  Two spots at distance 1 with parameter 1 get the proximity 1, and
    not exp(-1). *)
Theorem spatialdm_family_keeps_distances :
  (forall parameter d, decay "spatialdm" parameter d = d) /\
  builder two_points 1 "spatialdm" (Some 0.01) None false false
  = ({| obsm := <["proximity"%string := [[0; 1]; [1; 0]]]> (obsm two_points); n_obs := 2 |},
     Ok (Some [[0; 1]; [1; 0]])) /\
  exp (- (1 ^ 2) / 1 ^ 2) <> 1.
Proof.
  split; [exact decay_spatialdm|]. split.
  - unfold get_spatial_proximity, two_points. cbn [obsm n_obs].
    rewrite lookup_insert_eq.
    change (bool_decide ("spatialdm"%string ∈ families)) with true.
    cbn [negb is_none andb has_shapeb length Nat.eqb forallb].
    assert (E : proximity_of kneighbors_graph astype_float16 [[0; 0]; [1; 0]] 1 "spatialdm"
                  (Some 0.01) None false 2 = Ok [[0; 1]; [1; 0]]).
    { unfold proximity_of, squareform_pdist, mk_matrix, tabulate, emap, below_cutoff_to_zero.
      cbn [nrows length Nat.eqb seq map get get_d nth].
      rewrite !decay_spatialdm.
      rewrite (sqrt_of_square ((0 - 0) ^ 2 + (0 - 0) ^ 2) 0) by lra.
      rewrite (sqrt_of_square ((0 - 1) ^ 2 + (0 - 0) ^ 2) 1) by lra.
      rewrite (sqrt_of_square ((1 - 0) ^ 2 + (0 - 0) ^ 2) 1) by lra.
      rewrite (sqrt_of_square ((1 - 1) ^ 2 + (0 - 0) ^ 2) 0) by lra.
      unfold emap. cbn [map].
      destruct (Rlt_dec 0 0.01); [|lra]. destruct (Rlt_dec 1 0.01); [lra|].
      reflexivity. }
    rewrite E. reflexivity.
  - replace (- (1 ^ 2) / 1 ^ 2) with (-1) by field.
    pose proof (exp_increasing (-1) 0) as H. rewrite exp_0 in H. lra.
Qed.

End ProximityFacts.

(** ** Agreement of the two engines *)

Section Agreement.
Import Bivariate Inputs.

Lemma ratio_bounded (N D : R) : 0 < D -> N ^ 2 <= D -> -1 <= N / sqrt D <= 1.
Proof.
  intros HD HN.
  assert (Hs : 0 < sqrt D) by now apply sqrt_lt_R0.
  assert (Hss : sqrt D * sqrt D = D) by (apply sqrt_sqrt; lra).
  assert (Habs : - sqrt D <= N <= sqrt D) by (split; nra).
  split; apply Rmult_le_reg_r with (sqrt D); try exact Hs;
    unfold Rdiv; rewrite Rmult_assoc, Rinv_l by lra; lra.
Qed.

(** Off the interval (0, 1e-6) and under the Cauchy-Schwarz inequality
    the clamp and the clip of the vectorized engine change nothing. *)
Lemma value_agree (N D : R) :
  N ^ 2 <= D -> D = 0 \/ 1e-6 <= D -> vect_value N D = masked_value N D.
Proof.
  intros Hcs [HD|HD].
  - rewrite vect_value_small by lra. symmetry. apply masked_value_zero. now left.
  - rewrite vect_value_large by assumption.
    destruct (Req_dec N 0) as [HN|HN].
    + rewrite masked_value_zero by now right. subst N.
      replace (0 / sqrt D) with 0 by (unfold Rdiv; ring). apply clip_fin. lra.
    + rewrite masked_value_pos by (auto; lra). apply clip_fin. apply ratio_bounded; lra.
Qed.

Lemma spec_numerator_ext (n : nat) (w w' x x' y y' : nat -> R) :
  (forall k, (k < n)%nat -> w k = w' k) ->
  (forall k, (k < n)%nat -> x k = x' k) ->
  (forall k, (k < n)%nat -> y k = y' k) ->
  spec_numerator n w x y = spec_numerator n w' x' y'.
Proof.
  intros Hw Hx Hy. unfold spec_numerator.
  rewrite (sum_n_ext n w w') by assumption.
  rewrite (sum_n_ext n (fun k => w k * x k * y k) (fun k => w' k * x' k * y' k))
    by (intros k Hk; now rewrite Hw, Hx, Hy).
  rewrite (sum_n_ext n (fun k => w k * x k) (fun k => w' k * x' k))
    by (intros k Hk; now rewrite Hw, Hx).
  rewrite (sum_n_ext n (fun k => w k * y k) (fun k => w' k * y' k))
    by (intros k Hk; now rewrite Hw, Hy).
  reflexivity.
Qed.

Lemma spec_denom_ext (n : nat) (w w' x x' : nat -> R) :
  (forall k, (k < n)%nat -> w k = w' k) ->
  (forall k, (k < n)%nat -> x k = x' k) ->
  spec_denom n w x = spec_denom n w' x'.
Proof.
  intros Hw Hx. unfold spec_denom.
  rewrite (sum_n_ext n w w') by assumption.
  rewrite (sum_n_ext n (fun k => w k * x k ^ 2) (fun k => w' k * x' k ^ 2))
    by (intros k Hk; now rewrite Hw, Hx).
  rewrite (sum_n_ext n (fun k => w k * x k) (fun k => w' k * x' k))
    by (intros k Hk; now rewrite Hw, Hx).
  reflexivity.
Qed.

(** The formula does not see a shift of the values: ranks from 0 and
    ranks from 1 give the same statistic. *)
Lemma sum_n_shift (n : nat) (w z : nat -> R) (c : R) :
  sum_n n (fun k => w k * (z k + c)) = sum_n n (fun k => w k * z k) + c * sum_n n w.
Proof.
  induction n as [|m IH]; [rewrite !sum_n_0; ring|]. rewrite !sum_n_S, IH. ring.
Qed.

Lemma sum_n_shift_product (n : nat) (w x y : nat -> R) (a b : R) :
  sum_n n (fun k => w k * (x k + a) * (y k + b))
  = sum_n n (fun k => w k * x k * y k) + b * sum_n n (fun k => w k * x k)
    + a * sum_n n (fun k => w k * y k) + a * b * sum_n n w.
Proof.
  induction n as [|m IH]; [rewrite !sum_n_0; ring|]. rewrite !sum_n_S, IH. ring.
Qed.

Lemma sum_n_shift_square (n : nat) (w x : nat -> R) (a : R) :
  sum_n n (fun k => w k * (x k + a) ^ 2)
  = sum_n n (fun k => w k * x k ^ 2) + 2 * a * sum_n n (fun k => w k * x k)
    + a ^ 2 * sum_n n w.
Proof.
  induction n as [|m IH]; [rewrite !sum_n_0; ring|]. rewrite !sum_n_S, IH. ring.
Qed.

Lemma spec_numerator_shift (n : nat) (w x y : nat -> R) (a b : R) :
  spec_numerator n w (fun k => x k + a) (fun k => y k + b) = spec_numerator n w x y.
Proof.
  unfold spec_numerator. rewrite sum_n_shift_product, !sum_n_shift. ring.
Qed.

Lemma spec_denom_shift (n : nat) (w x : nat -> R) (a : R) :
  spec_denom n w (fun k => x k + a) = spec_denom n w x.
Proof.
  unfold spec_denom. rewrite sum_n_shift_square, sum_n_shift. ring.
Qed.

Variables (spot_n xy_n : nat) (x_mat y_mat dist : matrix R) (thr : R).
Hypothesis Hx : has_shape spot_n xy_n x_mat.
Hypothesis Hy : has_shape spot_n xy_n y_mat.
Hypothesis Hd : has_shape spot_n spot_n dist.

Section FullRow.
Variable i : nat.
Hypothesis Hi : (i < spot_n)%nat.
Hypothesis Hfull : Forall (fun v => thr < v) (nth i dist []).

Lemma spot_mask_full : Forall (fun b => b = true) (spot_mask dist thr i).
Proof.
  unfold spot_mask. apply List.Forall_map.
  eapply List.Forall_impl; [|exact Hfull]. intros v Hv. unfold Rgt_bool.
  now apply Rlt_bool_true.
Qed.

Lemma length_spot_mask : length (spot_mask dist thr i) = spot_n.
Proof. unfold spot_mask. rewrite length_map. now apply (has_shape_row spot_n spot_n). Qed.

Lemma masked_w_full : masked_w dist thr i = nth i dist [].
Proof.
  unfold masked_w. apply mask_select_all; [|apply spot_mask_full].
  unfold spot_mask. now rewrite length_map.
Qed.

Lemma masked_x_full (j : nat) : masked_x x_mat dist thr i j = column x_mat j.
Proof.
  unfold masked_x. apply mask_select_all; [|apply spot_mask_full].
  rewrite length_spot_mask, length_column. symmetry. apply Hx.
Qed.

Lemma masked_y_full (j : nat) : masked_y y_mat dist thr i j = column y_mat j.
Proof.
  unfold masked_y. apply mask_select_all; [|apply spot_mask_full].
  rewrite length_spot_mask, length_column. symmetry. apply Hy.
Qed.

Lemma full_row_nonneg : 0 <= thr -> forall k, (k < spot_n)%nat -> 0 <= get dist i k.
Proof.
  intros Hthr k Hk. unfold get, get_d.
  rewrite List.Forall_forall in Hfull.
  assert (thr < nth k (nth i dist []) 0); [|lra].
  apply Hfull, nth_In. now rewrite (has_shape_row spot_n spot_n).
Qed.

(** On a spot whose weights all pass the threshold, the masked engine
    evaluates the formula on whole columns. *)
Lemma masked_at_full (method : Z) (j : nat) :
  (method = 0 \/ method = 1)%Z -> (j < xy_n)%nat ->
  masked_at x_mat y_mat dist thr method i j
  = Ok (masked_value
          (spec_numerator spot_n (get dist i)
             (fun k => nth k (masked_values method (column x_mat j)) 0)
             (fun k => nth k (masked_values method (column y_mat j)) 0))
          (spec_denom spot_n (get dist i)
             (fun k => nth k (masked_values method (column x_mat j)) 0)
           * spec_denom spot_n (get dist i)
               (fun k => nth k (masked_values method (column y_mat j)) 0))).
Proof.
  intros Hm Hj. rewrite (masked_at_formula spot_n xy_n) by assumption.
  rewrite masked_w_full, masked_x_full, masked_y_full.
  now rewrite (has_shape_row spot_n spot_n) by assumption.
Qed.

End FullRow.

End Agreement.

Section AgreementTheorem.
Import Bivariate Inputs.

Lemma sum_n_S_head (n : nat) (f : nat -> R) :
  sum_n (S n) f = f 0%nat + sum_n n (fun k => f (S k)).
Proof.
  induction n as [|n IH]; [rewrite sum_n_S, !sum_n_0; ring|].
  rewrite (sum_n_S (S n) f), IH, (sum_n_S n (fun k => f (S k))). ring.
Qed.

(** A sum weighted by [w] does not change when the mask drops entries
    whose weight is 0. *)
Lemma masked_sum (g : R -> R -> R) (w x y : list R) (msk : list bool) :
  length x = length w -> length y = length w -> length msk = length w ->
  (forall k, (k < length w)%nat -> nth k msk true = false -> nth k w 0 = 0) ->
  sum_n (length (mask_select w msk))
    (fun k => nth k (mask_select w msk) 0
              * g (nth k (mask_select x msk) 0) (nth k (mask_select y msk) 0))
  = sum_n (length w) (fun k => nth k w 0 * g (nth k x 0) (nth k y 0)).
Proof.
  revert x y msk.
  induction w as [|a w IH]; intros [|b x] [|c y] [|m msk] Hx Hy Hm Hz;
    cbn [length] in Hx, Hy, Hm; try discriminate; [reflexivity|].
  assert (IH' := IH x y msk (eq_add_S _ _ Hx) (eq_add_S _ _ Hy) (eq_add_S _ _ Hm)
                   (fun k Hk => Hz (S k) (proj1 (Nat.succ_lt_mono _ _) Hk))).
  destruct m; cbn [mask_select length].
  - rewrite !sum_n_S_head. cbn [nth]. now rewrite IH'.
  - assert (Ha : a = 0) by exact (Hz 0%nat (Nat.lt_0_succ _) eq_refl).
    rewrite sum_n_S_head. cbn [nth]. rewrite IH', Ha. ring.
Qed.

Lemma masked_moments (w x y : list R) (msk : list bool) :
  length x = length w -> length y = length w -> length msk = length w ->
  (forall k, (k < length w)%nat -> nth k msk true = false -> nth k w 0 = 0) ->
  let mw := fun k => nth k (mask_select w msk) 0 in
  let mx := fun k => nth k (mask_select x msk) 0 in
  let my := fun k => nth k (mask_select y msk) 0 in
  let n' := length (mask_select w msk) in
  spec_numerator n' mw mx my
  = spec_numerator (length w) (fun k => nth k w 0) (fun k => nth k x 0) (fun k => nth k y 0) /\
  spec_denom n' mw mx = spec_denom (length w) (fun k => nth k w 0) (fun k => nth k x 0) /\
  spec_denom n' mw my = spec_denom (length w) (fun k => nth k w 0) (fun k => nth k y 0).
Proof.
  intros Hx Hy Hm Hz mw mx my n'.
  pose proof (masked_sum (fun _ _ => 1) w x y msk Hx Hy Hm Hz) as S1.
  pose proof (masked_sum (fun a b => a * b) w x y msk Hx Hy Hm Hz) as Sxy.
  pose proof (masked_sum (fun a _ => a) w x y msk Hx Hy Hm Hz) as Sx.
  pose proof (masked_sum (fun _ b => b) w x y msk Hx Hy Hm Hz) as Sy.
  pose proof (masked_sum (fun a _ => a ^ 2) w x y msk Hx Hy Hm Hz) as Sxx.
  pose proof (masked_sum (fun _ b => b ^ 2) w x y msk Hx Hy Hm Hz) as Syy.
  cbv beta in S1, Sxy, Sx, Sy, Sxx, Syy. fold n' in S1, Sxy, Sx, Sy, Sxx, Syy.
  assert (E1 : sum_n n' mw = sum_n (length w) (fun k => nth k w 0)).
  { rewrite (sum_n_ext n' mw (fun k => nth k (mask_select w msk) 0 * 1))
      by (intros; unfold mw; ring).
    rewrite S1. apply sum_n_ext. intros. ring. }
  assert (Exy : sum_n n' (fun k => mw k * mx k * my k)
                = sum_n (length w) (fun k => nth k w 0 * nth k x 0 * nth k y 0)).
  { rewrite (sum_n_ext n' _ (fun k => nth k (mask_select w msk) 0
               * (nth k (mask_select x msk) 0 * nth k (mask_select y msk) 0)))
      by (intros; unfold mw, mx, my; ring).
    rewrite Sxy. apply sum_n_ext. intros. ring. }
  assert (Exx : sum_n n' (fun k => mw k * mx k ^ 2)
                = sum_n (length w) (fun k => nth k w 0 * nth k x 0 ^ 2)) by exact Sxx.
  assert (Eyy : sum_n n' (fun k => mw k * my k ^ 2)
                = sum_n (length w) (fun k => nth k w 0 * nth k y 0 ^ 2)) by exact Syy.
  assert (Ex : sum_n n' (fun k => mw k * mx k)
               = sum_n (length w) (fun k => nth k w 0 * nth k x 0)) by exact Sx.
  assert (Ey : sum_n n' (fun k => mw k * my k)
               = sum_n (length w) (fun k => nth k w 0 * nth k y 0)) by exact Sy.
  unfold spec_numerator, spec_denom. rewrite E1, Exy, Exx, Eyy, Ex, Ey. auto.
Qed.

(** C2, as amended: at a spot whose weights are not negative and are
    each above the threshold or exactly 0, so that the mask drops no
    weight, and where the product of the denominators is 0 or at least
    1e-6, the vectorized and the masked engine return the same Pearson
    statistic, exactly: the masked engine has neither the clamp below 1e-6
    nor the clip.  The vectorized Spearman variant ranks the values of all
    spots with [rankdata] (average ranks of ties, from 1), the masked one
    the values the mask keeps with [argsort] twice (ranks from 0, tied
    values at different ranks); at a spot whose weights all pass the
    threshold and for columns without a tie the two rankings differ by 1,
    and the two engines return the same statistic under the same condition
    on the denominators. *)
Theorem engines_agree_where_mask_drops_no_weight
    (spot_n xy_n : nat) (x_mat y_mat dist : matrix R) (thr : R) (i j : nat) :
  has_shape spot_n xy_n x_mat -> has_shape spot_n xy_n y_mat ->
  has_shape spot_n spot_n dist -> (i < spot_n)%nat -> (j < xy_n)%nat ->
  (forall k, (k < spot_n)%nat -> 0 <= get dist i k) ->
  (forall k, (k < spot_n)%nat -> thr < get dist i k \/ get dist i k = 0) ->
  (spec_denom spot_n (get dist i) (fun k => get x_mat k j)
   * spec_denom spot_n (get dist i) (fun k => get y_mat k j) = 0
   \/ 1e-6 <= spec_denom spot_n (get dist i) (fun k => get x_mat k j)
              * spec_denom spot_n (get dist i) (fun k => get y_mat k j) ->
   vectorized_at x_mat y_mat dist "pearson" i j = masked_at x_mat y_mat dist thr 0 i j) /\
  (Forall (fun v => thr < v) (nth i dist []) ->
   List.NoDup (column x_mat j) -> List.NoDup (column y_mat j) ->
   (forall k, (k < spot_n)%nat ->
      nth k (rankdata (column x_mat j)) 0 = nth k (ordinal_ranks (column x_mat j)) 0 + 1 /\
      nth k (rankdata (column y_mat j)) 0 = nth k (ordinal_ranks (column y_mat j)) 0 + 1) /\
   (spec_denom spot_n (get dist i) (fun k => nth k (rankdata (column x_mat j)) 0)
    * spec_denom spot_n (get dist i) (fun k => nth k (rankdata (column y_mat j)) 0) = 0
    \/ 1e-6 <= spec_denom spot_n (get dist i) (fun k => nth k (rankdata (column x_mat j)) 0)
               * spec_denom spot_n (get dist i) (fun k => nth k (rankdata (column y_mat j)) 0) ->
    vectorized_at x_mat y_mat dist "spearman" i j = masked_at x_mat y_mat dist thr 1 i j)).
Proof.
  intros Hx Hy Hd Hi Hj Hw Hmask.
  assert (Hrow : length (nth i dist []) = spot_n) by now apply (has_shape_row spot_n spot_n).
  split.
  - intros HD.
    rewrite (vectorized_at_value spot_n xy_n) by auto.
    rewrite (masked_at_formula spot_n xy_n) by auto.
    unfold entity_values, masked_values.
    change (bool_decide ("pearson"%string = "spearman"%string)) with false.
    change (0 =? 1)%Z with false. cbv iota zeta.
    assert (Hlx : length (column x_mat j) = length (nth i dist []))
      by (rewrite length_column, Hrow; apply Hx).
    assert (Hly : length (column y_mat j) = length (nth i dist []))
      by (rewrite length_column, Hrow; apply Hy).
    assert (Hlm : length (spot_mask dist thr i) = length (nth i dist []))
      by (unfold spot_mask; now rewrite length_map).
    assert (Hz : forall k, (k < length (nth i dist []))%nat ->
              nth k (spot_mask dist thr i) true = false -> nth k (nth i dist []) 0 = 0).
    { intros k Hk Hoff. unfold spot_mask in Hoff.
      rewrite (nth_map_in _ _ 0) in Hoff by assumption.
      rewrite Hrow in Hk. destruct (Hmask k Hk) as [Habove|H0]; [|exact H0].
      unfold Rgt_bool in Hoff. unfold get, get_d in Habove.
      rewrite Rlt_bool_true in Hoff by assumption. discriminate. }
    destruct (masked_moments (nth i dist []) (column x_mat j) (column y_mat j)
                (spot_mask dist thr i) Hlx Hly Hlm Hz) as (EN & EDx & EDy).
    cbv zeta in EN, EDx, EDy.
    unfold masked_w, masked_x, masked_y. rewrite EN, EDx, EDy, Hrow.
    change (fun k => nth k (nth i dist []) 0) with (get dist i).
    assert (Ex : forall M : matrix R,
              spec_denom spot_n (get dist i) (fun k => nth k (column M j) 0)
              = spec_denom spot_n (get dist i) (fun k => get M k j)).
    { intros M. apply spec_denom_ext; auto. intros k _. apply nth_column. }
    f_equal. apply value_agree.
    + now apply spec_cauchy_schwarz.
    + now rewrite !Ex.
  - intros Hfull Hnx Hny.
    assert (Hlx : length (column x_mat j) = spot_n) by (rewrite length_column; apply Hx).
    assert (Hly : length (column y_mat j) = spot_n) by (rewrite length_column; apply Hy).
    assert (Hr : forall k, (k < spot_n)%nat ->
              nth k (rankdata (column x_mat j)) 0 = nth k (ordinal_ranks (column x_mat j)) 0 + 1 /\
              nth k (rankdata (column y_mat j)) 0 = nth k (ordinal_ranks (column y_mat j)) 0 + 1).
    { intros k Hk. split; apply rankdata_ordinal; auto; lia. }
    split; [exact Hr|]. intros HD.
    rewrite (vectorized_at_value spot_n xy_n) by auto.
    rewrite (masked_at_full spot_n xy_n) by auto.
    unfold entity_values, masked_values.
    change (bool_decide ("spearman"%string = "spearman"%string)) with true.
    change (1 =? 1)%Z with true. cbv iota.
    set (rx := fun k => nth k (rankdata (column x_mat j)) 0) in *.
    set (ry := fun k => nth k (rankdata (column y_mat j)) 0) in *.
    set (ox := fun k => nth k (ordinal_ranks (column x_mat j)) 0).
    set (oy := fun k => nth k (ordinal_ranks (column y_mat j)) 0).
    assert (EN : spec_numerator spot_n (get dist i) rx ry
                 = spec_numerator spot_n (get dist i) ox oy).
    { rewrite <- (spec_numerator_shift spot_n (get dist i) ox oy 1 1).
      apply spec_numerator_ext; auto; intros k Hk; now apply Hr. }
    assert (EDx : spec_denom spot_n (get dist i) rx = spec_denom spot_n (get dist i) ox).
    { rewrite <- (spec_denom_shift spot_n (get dist i) ox 1).
      apply spec_denom_ext; auto; intros k Hk; now apply Hr. }
    assert (EDy : spec_denom spot_n (get dist i) ry = spec_denom spot_n (get dist i) oy).
    { rewrite <- (spec_denom_shift spot_n (get dist i) oy 1).
      apply spec_denom_ext; auto; intros k Hk; now apply Hr. }
    rewrite <- EN, <- EDx, <- EDy. f_equal. apply value_agree.
    + now apply spec_cauchy_schwarz.
    + exact HD.
Qed.

(** C2, witness: the Pearson statistic at a spot whose third neighbour
    has weight 0 and is dropped by the mask; the Spearman statistic on two
    spots with full weights and two different values in each column. *)
Lemma engines_agree_where_mask_drops_no_weight_witness :
  vectorized_at line_x line_y gap_weights "pearson" 0 0
  = masked_at line_x line_y gap_weights 0 0 0 0 /\
  vectorized_at two_x two_y ones2 "spearman" 0 0 = masked_at two_x two_y ones2 0 1 0 0.
Proof.
  split.
  - destruct (engines_agree_where_mask_drops_no_weight 3 1 line_x line_y gap_weights 0 0 0)
      as [H1 _]; try shape_tac; try lia.
    + intros [|[|[|k]]] Hk; try lia; unfold gap_weights; cbn [get get_d nth]; lra.
    + intros [|[|[|k]]] Hk; try lia; unfold gap_weights; cbn [get get_d nth];
        first [left; lra | right; reflexivity].
    + apply H1. right. unfold line_x, line_y, gap_weights. eval_sums. cbn [get get_d nth]. lra.
  - destruct (engines_agree_where_mask_drops_no_weight 2 1 two_x two_y ones2 0 0 0)
      as [_ H2]; try shape_tac; try lia.
    + intros [|[|k]] Hk; try lia; unfold ones2; cbn [get get_d nth]; lra.
    + intros [|[|k]] Hk; try lia; unfold ones2; cbn [get get_d nth]; left; lra.
    + apply H2.
      * unfold ones2. cbn [nth]. repeat constructor; lra.
      * unfold two_x, column. cbn [map nth]. repeat constructor; cbn [In]; intros H; lra.
      * unfold two_y, column. cbn [map nth]. repeat constructor; cbn [In]; intros H; lra.
      * right. unfold two_x, two_y, ones2, column. cbn [map nth].
        eval_ranks. eval_sums. cbn [get get_d nth]. lra.
Defined.

Lemma vectorized_close_values :
  vectorized_at close_values close_values ones2 "pearson" 0 0 = Ok (Fin 0).
Proof.
  rewrite (vectorized_at_value 2 1) by (try shape_tac; auto).
  f_equal. apply vect_value_small.
  unfold entity_values, column, close_values, ones2.
  change (bool_decide ("pearson"%string = "spearman"%string)) with false.
  cbn [map nth]. eval_sums. cbn [get get_d nth]. lra.
Qed.

Lemma vectorized_tied_values :
  vectorized_at tied_x tied_y ones3 "spearman" 0 0 = Ok (Fin (-1 / 2)).
Proof.
  rewrite (vectorized_at_value 3 1) by (try shape_tac; auto).
  f_equal.
  unfold entity_values, column, tied_x, tied_y, ones3.
  change (bool_decide ("spearman"%string = "spearman"%string)) with true.
  cbn [map nth]. eval_ranks. eval_sums. cbn [get get_d nth].
  set_vect (- 9 / 4) (9 / 2 * (9 / 2)).
  rewrite (vect_value_sqrt _ _ (9 / 2)) by lra. f_equal. lra.
Qed.

Lemma masked_tied_values :
  masked_at tied_x tied_y ones3 0 1 0 0 = Ok (Fin (1 / 2)).
Proof.
  rewrite (masked_at_formula 3 1) by (try shape_tac; auto with zarith).
  unfold masked_values, masked_x, masked_y, masked_w, spot_mask, column, Rgt_bool,
    tied_x, tied_y, ones3.
  change (1 =? 1)%Z with true. cbn [nth map]. eval_cmp. cbn [mask_select length nth].
  eval_ranks. eval_sums.
  f_equal. set_masked 3 (6 * 6).
  rewrite (masked_value_sqrt _ _ 6) by lra. f_equal. lra.
Qed.

Lemma vectorized_four_values :
  vectorized_at four_x four_y gap4_weights "spearman" 0 0 = Ok (Fin (13 / 14)).
Proof.
  rewrite (vectorized_at_value 4 1) by (try shape_tac; auto).
  f_equal.
  unfold entity_values, column, four_x, four_y, gap4_weights.
  change (bool_decide ("spearman"%string = "spearman"%string)) with true.
  cbn [map nth]. eval_ranks. eval_sums. cbn [get get_d nth].
  set_vect 13 (14 * 14).
  rewrite (vect_value_sqrt _ _ 14) by lra. reflexivity.
Qed.

Lemma masked_four_values :
  masked_at four_x four_y gap4_weights 0 1 0 0 = Ok (Fin 1).
Proof.
  rewrite (masked_at_formula 4 1) by (try shape_tac; auto with zarith).
  unfold masked_values, masked_x, masked_y, masked_w, spot_mask, column, Rgt_bool,
    four_x, four_y, gap4_weights.
  change (1 =? 1)%Z with true. cbn [nth map]. eval_cmp. cbn [mask_select length nth].
  eval_ranks. eval_sums.
  f_equal. set_masked 6 (6 * 6).
  rewrite (masked_value_sqrt _ _ 6) by lra. f_equal. lra.
Qed.

Lemma vectorized_peak_values :
  vectorized_at peak_x peak_y half_weights "pearson" 0 0 = Ok (Fin (- 1 / 9)).
Proof.
  rewrite (vectorized_at_value 3 1) by (try shape_tac; auto).
  f_equal.
  unfold entity_values, column, peak_x, peak_y, half_weights.
  change (bool_decide ("pearson"%string = "spearman"%string)) with false.
  cbn [map nth]. eval_sums. cbn [get get_d nth].
  set_vect (- 1 / 2) (9 / 2 * (9 / 2)).
  rewrite (vect_value_sqrt _ _ (9 / 2)) by lra. f_equal. lra.
Qed.

Lemma masked_peak_values :
  masked_at peak_x peak_y half_weights (1 / 2) 0 0 0 = Ok (Fin 1).
Proof.
  rewrite (masked_at_formula 3 1) by (try shape_tac; auto with zarith).
  unfold masked_values, masked_x, masked_y, masked_w, spot_mask, column, Rgt_bool,
    peak_x, peak_y, half_weights.
  cbn [Z.eqb nth map]. eval_cmp. cbn [mask_select length nth]. eval_sums.
  f_equal. set_masked 1 (1 * 1).
  rewrite (masked_value_sqrt _ _ 1) by lra. f_equal. lra.
Qed.

(** C2, counterexample: on equal columns of the close values 0 and 1/32
    the vectorized Pearson statistic is 0 and the masked one is 1; on
    columns with a tie the vectorized Spearman statistic is -1/2 and the
    masked one is 1/2, the ordinal ranks of (0, 0, 1) being (0, 1, 2) and
    not the average ranks (3/2, 3/2, 3).  With a neighbour whose weight
    1/2 is not above the threshold 1/2 the vectorized Pearson statistic is
    -1/9 and the masked one is 1; with a neighbour of weight 0 and no tie
    the vectorized Spearman statistic is 13/14 and the masked one is 1,
    the ranks being taken over four and over three spots. *)
Lemma engines_disagree :
  (vectorized_at close_values close_values ones2 "pearson" 0 0 = Ok (Fin 0) /\
   masked_at close_values close_values ones2 0 0 0 0 = Ok (Fin 1)) /\
  (vectorized_at tied_x tied_y ones3 "spearman" 0 0 = Ok (Fin (-1 / 2)) /\
   masked_at tied_x tied_y ones3 0 1 0 0 = Ok (Fin (1 / 2))) /\
  (rankdata (column tied_x 0) = [3 / 2; 3 / 2; 3] /\
   ordinal_ranks (column tied_x 0) = [0; 1; 2]) /\
  (vectorized_at peak_x peak_y half_weights "pearson" 0 0 = Ok (Fin (- 1 / 9)) /\
   masked_at peak_x peak_y half_weights (1 / 2) 0 0 0 = Ok (Fin 1)) /\
  (vectorized_at four_x four_y gap4_weights "spearman" 0 0 = Ok (Fin (13 / 14)) /\
   masked_at four_x four_y gap4_weights 0 1 0 0 = Ok (Fin 1)).
Proof.
  split; [split; [exact vectorized_close_values|exact masked_close_values]|].
  split; [split; [exact vectorized_tied_values|exact masked_tied_values]|].
  split; [|split; [split; [exact vectorized_peak_values|exact masked_peak_values]
                  |split; [exact vectorized_four_values|exact masked_four_values]]].
  unfold tied_x, column. cbn [map nth]. split.
  - eval_ranks. repeat (f_equal; try lra).
  - eval_ranks. repeat (f_equal; try lra).
Qed.

End AgreementTheorem.

(** * Further properties of the engine *)

Section EngineProperties.
Import Bivariate Inputs.

Lemma sum_n_le (n : nat) (f g : nat -> R) :
  (forall k, (k < n)%nat -> f k <= g k) -> sum_n n f <= sum_n n g.
Proof.
  induction n as [|n IH]; intros H; [rewrite !sum_n_0; lra|].
  rewrite !sum_n_S. specialize (H n (Nat.lt_succ_diag_r n)) as Hn.
  assert (sum_n n f <= sum_n n g) by (apply IH; auto with arith). lra.
Qed.

Lemma binarize_cases (v : R) :
  (0 < v /\ binarize v = 1) \/ (v <= 0 /\ binarize v = 0).
Proof. unfold binarize. destruct (Rlt_dec 0 v); [left|right]; split; auto; lra. Qed.

Lemma ratio_unit (N D : R) : 0 <= N -> N < D -> 0 <= N / D < 1.
Proof.
  intros HN HD. assert (HDpos : 0 < D) by lra.
  assert (Hinv : 0 < / D) by now apply Rinv_0_lt_compat.
  unfold Rdiv. split; [apply Rmult_le_pos; lra|].
  apply Rmult_lt_reg_r with D; [exact HDpos|].
  rewrite Rmult_assoc, Rinv_l by lra. lra.
Qed.

Variables (spot_n xy_n : nat) (x_mat y_mat dist : matrix R).
Hypothesis Hx : has_shape spot_n xy_n x_mat.
Hypothesis Hy : has_shape spot_n xy_n y_mat.
Hypothesis Hd : has_shape spot_n spot_n dist.

Lemma jaccard_terms (i j k : nat) :
  nonneg dist ->
  0 <= Rmin (binarize (get x_mat k j)) (binarize (get y_mat k j)) * get dist i k
    <= Rmax (binarize (get x_mat k j)) (binarize (get y_mat k j)) * get dist i k.
Proof.
  intros Hpos. pose proof (nonneg_get dist i k Hpos) as Hw.
  destruct (binarize_cases (get x_mat k j)) as [[_ ->]|[_ ->]];
    destruct (binarize_cases (get y_mat k j)) as [[_ ->]|[_ ->]];
    unfold Rmin, Rmax; repeat destruct (Rle_dec _ _); try lra; nra.
Qed.

(** X1: with weights that are not negative, every Jaccard statistic is a
    finite number, at least 0 and below 1: the epsilon added to the
    denominator keeps it from 1 and from a division by zero. *)
Theorem jaccard_within_unit_interval (i j : nat) :
  nonneg dist -> (i < spot_n)%nat -> (j < xy_n)%nat ->
  exists r, jaccard_at x_mat y_mat dist i j = Fin r /\ 0 <= r < 1.
Proof.
  intros Hpos Hi Hj. rewrite (jaccard_at_value spot_n xy_n) by assumption.
  set (N := sum_n spot_n (fun k =>
              Rmin (binarize (get x_mat k j)) (binarize (get y_mat k j)) * get dist i k)).
  set (S := sum_n spot_n (fun k =>
              Rmax (binarize (get x_mat k j)) (binarize (get y_mat k j)) * get dist i k)).
  assert (HN : 0 <= N) by (apply sum_n_nonneg; intros k _; now apply jaccard_terms).
  assert (HNS : N <= S) by (apply sum_n_le; intros k _; now apply jaccard_terms).
  pose proof eps32_pos as He.
  exists (N / (S + eps32)). split; [apply div_fin; lra|]. apply ratio_unit; lra.
Qed.

(** X2: with weights that are not negative, the Jaccard statistic of a
    spot is exactly 0 if and only if no neighbour of positive weight has a
    positive value in both variables. *)
Theorem jaccard_zero_iff_disjoint (i j : nat) :
  nonneg dist -> (i < spot_n)%nat -> (j < xy_n)%nat ->
  jaccard_at x_mat y_mat dist i j = Fin 0 <->
  (forall k, (k < spot_n)%nat -> 0 < get dist i k ->
     ~ (0 < get x_mat k j /\ 0 < get y_mat k j)).
Proof.
  intros Hpos Hi Hj. rewrite (jaccard_at_value spot_n xy_n) by assumption.
  set (f := fun k => Rmin (binarize (get x_mat k j)) (binarize (get y_mat k j)) * get dist i k).
  set (S := sum_n spot_n (fun k =>
              Rmax (binarize (get x_mat k j)) (binarize (get y_mat k j)) * get dist i k)).
  assert (HS : 0 <= S).
  { apply sum_n_nonneg. intros k _. pose proof (jaccard_terms i j k Hpos). lra. }
  pose proof eps32_pos as He.
  rewrite div_fin by lra. split.
  - intros H k Hk Hw [Hxp Hyp]. injection H as H.
    assert (HN : sum_n spot_n f = 0).
    { apply Rmult_eq_compat_r with (r := S + eps32) in H.
      unfold Rdiv in H. rewrite Rmult_assoc, Rinv_l, Rmult_0_l in H by lra. lra. }
    assert (Hk0 : f k = 0).
    { apply (sum_n_nonneg_zero spot_n f); auto.
      intros k' _. unfold f. now apply jaccard_terms. }
    unfold f in Hk0.
    destruct (binarize_cases (get x_mat k j)) as [[_ Ex]|[? _]]; [|lra].
    destruct (binarize_cases (get y_mat k j)) as [[_ Ey]|[? _]]; [|lra].
    rewrite Ex, Ey in Hk0. unfold Rmin in Hk0. destruct (Rle_dec 1 1); lra.
  - intros H. f_equal.
    rewrite (sum_n_zero spot_n f); [unfold Rdiv; ring|].
    intros k Hk. unfold f. pose proof (nonneg_get dist i k Hpos) as Hw.
    destruct (Req_dec (get dist i k) 0) as [->|Hne]; [ring|].
    assert (Hwp : 0 < get dist i k) by lra. specialize (H k Hk Hwp).
    destruct (binarize_cases (get x_mat k j)) as [[Hxp ->]|[_ ->]];
      destruct (binarize_cases (get y_mat k j)) as [[Hyp ->]|[_ ->]];
      try (exfalso; apply H; split; assumption);
      unfold Rmin; destruct (Rle_dec _ _); lra.
Qed.

End EngineProperties.

Section EngineSymmetry.
Import Bivariate Inputs.

Lemma sum_n_square_linear (n : nat) (w x y : nat -> R) (a b : R) :
  sum_n n (fun k => w k * (a * x k + b * y k) ^ 2)
  = a ^ 2 * sum_n n (fun k => w k * x k ^ 2)
    + 2 * a * b * sum_n n (fun k => w k * x k * y k)
    + b ^ 2 * sum_n n (fun k => w k * y k ^ 2).
Proof.
  induction n as [|m IH]; [rewrite !sum_n_0; ring|]. rewrite !sum_n_S, IH. ring.
Qed.

(** The Cauchy-Schwarz inequality for the weighted products themselves. *)
Lemma weighted_cauchy_schwarz (n : nat) (w x y : nat -> R) :
  (forall k, (k < n)%nat -> 0 <= w k) ->
  sum_n n (fun k => w k * x k * y k) ^ 2
  <= sum_n n (fun k => w k * x k ^ 2) * sum_n n (fun k => w k * y k ^ 2).
Proof.
  intros Hw. apply discr_form. intros a b. rewrite <- sum_n_square_linear.
  apply sum_n_nonneg. intros k Hk. apply Rmult_le_pos; [auto|apply pow2_ge_0].
Qed.

Lemma ratio_strict (N D : R) : 0 < D -> N ^ 2 < D -> -1 < N / sqrt D < 1.
Proof.
  intros HD HN.
  assert (Hs : 0 < sqrt D) by now apply sqrt_lt_R0.
  assert (Hss : sqrt D * sqrt D = D) by (apply sqrt_sqrt; lra).
  assert (Habs : - sqrt D < N < sqrt D) by (split; nra).
  split; apply Rmult_lt_reg_r with (sqrt D); try exact Hs;
    unfold Rdiv; rewrite Rmult_assoc, Rinv_l by lra; lra.
Qed.

Lemma spec_numerator_sym (n : nat) (w x y : nat -> R) :
  spec_numerator n w x y = spec_numerator n w y x.
Proof.
  unfold spec_numerator.
  rewrite (sum_n_ext n (fun k => w k * x k * y k) (fun k => w k * y k * x k))
    by (intros; ring).
  ring.
Qed.

Lemma spec_numerator_self (n : nat) (w x : nat -> R) :
  spec_numerator n w x x = spec_denom n w x.
Proof.
  unfold spec_numerator, spec_denom.
  rewrite (sum_n_ext n (fun k => w k * x k * x k) (fun k => w k * x k ^ 2))
    by (intros; ring).
  ring.
Qed.

Variables (spot_n xy_n : nat) (x_mat y_mat dist : matrix R).
Hypothesis Hx : has_shape spot_n xy_n x_mat.
Hypothesis Hy : has_shape spot_n xy_n y_mat.
Hypothesis Hd : has_shape spot_n spot_n dist.

(** X3: for weights that are not negative and a spot whose row and
    column of the weight matrix coincide (a symmetric matrix), the cosine
    statistic is a finite number strictly between -1 and 1.  The code
    takes the numerator from the row and the denominator from the column
    of the spot, hence the condition. *)
Theorem cosine_within_unit_interval (i j : nat) :
  nonneg dist -> (forall k, (k < spot_n)%nat -> get dist k i = get dist i k) ->
  (i < spot_n)%nat -> (j < xy_n)%nat ->
  exists r, cosine_at x_mat y_mat dist i j = Fin r /\ -1 < r < 1.
Proof.
  intros Hpos Hsym Hi Hj. rewrite (cosine_at_value spot_n xy_n) by assumption.
  pose (w := get dist i). pose (x := fun k => get x_mat k j). pose (y := fun k => get y_mat k j).
  rewrite (sum_n_ext spot_n (fun k => get x_mat k j * get y_mat k j * get dist i k)
             (fun k => w k * x k * y k)) by (intros; unfold w, x, y; ring).
  rewrite (sum_n_ext spot_n (fun k => get x_mat k j ^ 2 * get dist k i)
             (fun k => w k * x k ^ 2)) by (intros k Hk; rewrite Hsym by assumption; unfold w, x; ring).
  rewrite (sum_n_ext spot_n (fun k => get y_mat k j ^ 2 * get dist k i)
             (fun k => w k * y k ^ 2)) by (intros k Hk; rewrite Hsym by assumption; unfold w, y; ring).
  assert (Hw : forall k, (k < spot_n)%nat -> 0 <= w k) by (intros; now apply nonneg_get).
  pose proof (weighted_cauchy_schwarz spot_n w x y Hw) as Hcs.
  pose proof eps32_pos as He.
  set (N := sum_n spot_n (fun k => w k * x k * y k)) in *.
  set (D := sum_n spot_n (fun k => w k * x k ^ 2) * sum_n spot_n (fun k => w k * y k ^ 2)) in *.
  assert (HD : 0 <= D) by (pose proof (pow2_ge_0 N); lra).
  rewrite pow_half_nonneg by lra.
  assert (Hs : sqrt (D + eps32) <> 0) by (apply Rgt_not_eq, sqrt_lt_R0; lra).
  exists (N / sqrt (D + eps32)). split; [now apply div_fin|].
  apply ratio_strict; lra.
Qed.

(** X4: over the real numbers every statistic is symmetric in its two
    variables: exchanging [x_mat] and [y_mat] changes no cell, in either
    engine and for each method.  (In floating point the masked engine
    multiplies in another order after the exchange.) *)
Theorem statistics_symmetric_in_variables (thr : R) (i j : nat) :
  (i < spot_n)%nat -> (j < xy_n)%nat ->
  (forall method, method = "pearson"%string \/ method = "spearman"%string ->
     vectorized_at x_mat y_mat dist method i j = vectorized_at y_mat x_mat dist method i j) /\
  (forall method, (method = 0 \/ method = 1)%Z ->
     masked_at x_mat y_mat dist thr method i j = masked_at y_mat x_mat dist thr method i j) /\
  cosine_at x_mat y_mat dist i j = cosine_at y_mat x_mat dist i j /\
  jaccard_at x_mat y_mat dist i j = jaccard_at y_mat x_mat dist i j.
Proof.
  intros Hi Hj. repeat split.
  - intros method Hm. rewrite !(vectorized_at_value spot_n xy_n) by assumption.
    now rewrite spec_numerator_sym, Rmult_comm.
  - intros method Hm. rewrite !(masked_at_formula spot_n xy_n) by assumption.
    unfold masked_y. fold (masked_x x_mat dist thr i j). fold (masked_x y_mat dist thr i j).
    now rewrite spec_numerator_sym, Rmult_comm.
  - rewrite !(cosine_at_value spot_n xy_n) by assumption.
    rewrite (sum_n_ext spot_n (fun k => get x_mat k j * get y_mat k j * get dist i k)
               (fun k => get y_mat k j * get x_mat k j * get dist i k)) by (intros; ring).
    now rewrite Rmult_comm.
  - rewrite !(jaccard_at_value spot_n xy_n) by assumption.
    rewrite (sum_n_ext spot_n
               (fun k => Rmin (binarize (get x_mat k j)) (binarize (get y_mat k j)) * get dist i k)
               (fun k => Rmin (binarize (get y_mat k j)) (binarize (get x_mat k j)) * get dist i k))
      by (intros; now rewrite Rmin_comm).
    rewrite (sum_n_ext spot_n
               (fun k => Rmax (binarize (get x_mat k j)) (binarize (get y_mat k j)) * get dist i k)
               (fun k => Rmax (binarize (get y_mat k j)) (binarize (get x_mat k j)) * get dist i k))
      by (intros; now rewrite Rmax_comm).
    reflexivity.
Qed.

End EngineSymmetry.

Section IdenticalColumns.
Import Bivariate Inputs.

Variables (spot_n xy_n : nat) (x_mat y_mat dist : matrix R).
Hypothesis Hx : has_shape spot_n xy_n x_mat.
Hypothesis Hy : has_shape spot_n xy_n y_mat.
Hypothesis Hd : has_shape spot_n spot_n dist.

Lemma same_column (j : nat) :
  (forall k, (k < spot_n)%nat -> get y_mat k j = get x_mat k j) ->
  column y_mat j = column x_mat j.
Proof.
  intros Hsame. rewrite (column_tabulate spot_n xy_n y_mat j Hy).
  rewrite (column_tabulate spot_n xy_n x_mat j Hx). now apply tabulate_ext.
Qed.

(** X5: when the two variables of a pair have the same values over the
    spots and no weight is negative, the Pearson and the Spearman statistic
    of a spot are exactly 1, unless the weighted variance [V] of the
    values is degenerate there, in which case they are exactly 0:
    [V * V < 1e-6] in the vectorized engine, [V = 0] in the masked one. *)
Theorem identical_columns_give_one (thr : R) (i j : nat) :
  nonneg dist -> (i < spot_n)%nat -> (j < xy_n)%nat ->
  (forall k, (k < spot_n)%nat -> get y_mat k j = get x_mat k j) ->
  (forall method, method = "pearson"%string \/ method = "spearman"%string ->
     vectorized_at x_mat y_mat dist method i j
     = Ok (Fin (if Rlt_dec
                     (spec_denom spot_n (get dist i)
                        (fun k => nth k (entity_values method x_mat j) 0)
                      * spec_denom spot_n (get dist i)
                          (fun k => nth k (entity_values method x_mat j) 0)) 1e-6
                then 0 else 1))) /\
  (forall method, (method = 0 \/ method = 1)%Z ->
     masked_at x_mat y_mat dist thr method i j
     = Ok (Fin (if Req_dec_T
                     (spec_denom (length (masked_w dist thr i))
                        (fun k => nth k (masked_w dist thr i) 0)
                        (fun k => nth k (masked_values method (masked_x x_mat dist thr i j)) 0))
                     0
                then 0 else 1))).
Proof.
  intros Hpos Hi Hj Hsame. pose proof (same_column j Hsame) as Hcol. split.
  - intros method Hm. rewrite (vectorized_at_value spot_n xy_n) by assumption.
    assert (E : entity_values method y_mat j = entity_values method x_mat j)
      by (unfold entity_values; now rewrite Hcol).
    rewrite E, spec_numerator_self. f_equal.
    set (V := spec_denom spot_n (get dist i)
                (fun k => nth k (entity_values method x_mat j) 0)).
    assert (HV : 0 <= V).
    { apply spec_denom_nonneg. intros k _. now apply nonneg_get. }
    destruct (Rlt_dec (V * V) 1e-6) as [Hs|Hs].
    + now apply vect_value_small.
    + assert (HVpos : 0 < V) by nra.
      rewrite (vect_value_sqrt V (V * V) V); try lra.
      * f_equal. field. lra.
      * replace (V / V) with 1 by (field; lra). lra.
  - intros method Hm. rewrite (masked_at_formula spot_n xy_n) by assumption.
    assert (E : masked_y y_mat dist thr i j = masked_x x_mat dist thr i j)
      by (unfold masked_y, masked_x; now rewrite Hcol).
    rewrite E, spec_numerator_self. f_equal.
    set (V := spec_denom (length (masked_w dist thr i))
                (fun k => nth k (masked_w dist thr i) 0)
                (fun k => nth k (masked_values method (masked_x x_mat dist thr i j)) 0)).
    assert (HV : 0 <= V).
    { apply spec_denom_nonneg. intros k Hk.
      pose proof (masked_w_nonneg dist thr i (or_intror Hpos)) as HF.
      rewrite List.Forall_forall in HF. now apply HF, nth_In. }
    destruct (Req_dec_T V 0) as [H0|H0].
    + apply masked_value_zero. now right.
    + rewrite (masked_value_sqrt V (V * V) V); try lra. f_equal. field. lra.
Qed.

End IdenticalColumns.

Section TesterProperties.
Import Bivariate Permutation_test Inputs.

Variable rng_state : Type.
Variable seed_rng : Z -> rng_state.
Variable rng_permutation : rng_state -> nat -> list nat * rng_state.

Abbreviation run_loop := (permutation_loop rng_state rng_permutation).
Abbreviation run_pvals := (_local_permutation_pvals rng_state seed_rng rng_permutation).

Lemma get_add_indicator (cond : npfloat -> npfloat -> bool) (n m : nat)
    (pv : matrix R) (perm truth : matrix npfloat) (r c : nat) :
  has_shape n m pv -> (r < n)%nat -> (c < m)%nat ->
  get (add_indicator cond pv perm truth) r c
  = get pv r c + (if cond (getf perm r c) (getf truth r c) then 1 else 0).
Proof.
  intros H Hr Hc. destruct (shape_dims n m pv H) as [Hrows Hcols]; [lia|].
  unfold add_indicator. rewrite Hrows, Hcols. now rewrite get_mk.
Qed.


(** A cell whose true statistic is NaN is never counted. *)
Lemma loop_nan_cell (k n m : nat) (rng : rng_state) (pv x_mat y_mat dist : matrix R)
    (truth : matrix npfloat) (f : statistic) (po : bool) (C : matrix R) (r c : nat) :
  has_shape n m pv -> (r < n)%nat -> (c < m)%nat -> getf truth r c = NaN ->
  run_loop k rng pv x_mat y_mat dist truth f po = Ok C -> get C r c = get pv r c.
Proof.
  revert rng pv. induction k as [|k IH]; intros rng pv Hpv Hr Hc Hnan Hrun;
    cbn [permutation_loop] in Hrun.
  - now injection Hrun as <-.
  - destruct (rng_permutation rng (ncols truth)) as [idx rng'].
    destruct (f (take_rows x_mat idx) y_mat dist) as [perm|e]; cbn [rbind] in Hrun;
      [|discriminate].
    assert (Hn : (0 < n)%nat) by lia.
    erewrite IH; [| | exact Hr | exact Hc | exact Hnan | exact Hrun].
    + destruct po; rewrite (get_add_indicator _ n m) by assumption; rewrite Hnan.
      * replace (Np.ge (getf perm r c) NaN) with false by (now destruct (getf perm r c)).
        ring.
      * cbn [Np.abs].
        replace (Np.ge (Np.abs (getf perm r c)) NaN) with false
          by (now destruct (Np.abs (getf perm r c))).
        ring.
    + destruct po; now apply has_shape_add_indicator.
Qed.


Variables (spot_n xy_n : nat) (x_mat y_mat dist : matrix R) (local_truth : matrix npfloat).
Variables (local_fun : statistic) (n_perm : Z) (seed : option Z) (os_entropy : Z).
Hypothesis Ht : has_shape xy_n spot_n local_truth.
Hypothesis Hp : (0 < xy_n)%nat.
Hypothesis Hperm : (0 < n_perm)%Z.

Lemma pvals_cells (positive_only : bool) (P : matrix npfloat) :
  run_pvals x_mat y_mat dist local_truth local_fun n_perm seed positive_only os_entropy = Ok P ->
  exists C,
    run_loop (Z.to_nat n_perm) (default_rng rng_state seed_rng seed os_entropy)
      (mk_matrix xy_n spot_n (fun _ _ => 0)) x_mat y_mat dist local_truth local_fun
      positive_only = Ok C /\
    has_shape xy_n spot_n C /\ has_shape xy_n spot_n P /\
    forall r c, (r < xy_n)%nat -> (c < spot_n)%nat ->
      getf P r c = div_int (get C r c) n_perm \/ (positive_only = true /\ getf P r c = Fin 1).
Proof.
  intros HP. unfold _local_permutation_pvals in HP.
  destruct (shape_dims _ _ _ Ht Hp) as [Hrows Hcols]. rewrite Hrows, Hcols in HP.
  destruct (run_loop _ _ _ _ _ _ _ _ _) as [C|e] eqn:HC; cbn [rbind] in HP; [|discriminate].
  exists C. split; [reflexivity|].
  assert (HCs : has_shape xy_n spot_n C).
  { eapply loop_shape; [apply has_shape_mk|exact Hp|exact HC]. }
  pose proof (has_shape_emap (fun c => div_int c n_perm) _ _ _ HCs) as HQ.
  split; [exact HCs|]. injection HP as <-. destruct positive_only.
  - split.
    + unfold set_where_not. destruct (shape_dims _ _ _ HQ Hp) as [-> ->]. apply has_shape_mk.
    + intros r c Hr Hc. unfold set_where_not, getf.
      destruct (shape_dims _ _ _ HQ Hp) as [-> ->]. rewrite get_d_mk by assumption.
      destruct (negb _); [right; auto|left].
      now rewrite (get_d_emap (fun c => div_int c n_perm) 0 NaN xy_n spot_n).
  - split; [exact HQ|]. intros r c Hr Hc. left. unfold getf.
    now rewrite (get_d_emap (fun c => div_int c n_perm) 0 NaN xy_n spot_n).
Qed.


Lemma pvals_cells_exact (positive_only : bool) (P : matrix npfloat) :
  has_shape spot_n xy_n x_mat ->
  run_pvals x_mat y_mat dist local_truth local_fun n_perm seed positive_only os_entropy = Ok P ->
  exists C,
    run_loop (Z.to_nat n_perm) (default_rng rng_state seed_rng seed os_entropy)
      (mk_matrix xy_n spot_n (fun _ _ => 0)) x_mat y_mat dist local_truth local_fun
      positive_only = Ok C /\
    forall r c, (r < xy_n)%nat -> (c < spot_n)%nat ->
      getf P r c
      = if positive_only
           && negb (Rgt_bool (get x_mat c r) 0 || Rgt_bool (get y_mat c r) 0)
        then Fin 1 else div_int (get C r c) n_perm.
Proof.
  intros Hx HP. unfold _local_permutation_pvals in HP.
  destruct (shape_dims _ _ _ Ht Hp) as [Hrows Hcols]. rewrite Hrows, Hcols in HP.
  destruct (run_loop _ _ _ _ _ _ _ _ _) as [C|e] eqn:HC; cbn [rbind] in HP; [|discriminate].
  exists C. split; [reflexivity|].
  assert (HCs : has_shape xy_n spot_n C).
  { eapply loop_shape; [apply has_shape_mk|exact Hp|exact HC]. }
  pose proof (has_shape_emap (fun c => div_int c n_perm) _ _ _ HCs) as HQ.
  injection HP as <-. intros r c Hr Hc. destruct positive_only; cbn [andb].
  - unfold set_where_not, pos_msk, getf.
    destruct (shape_dims _ _ _ HQ Hp) as [-> ->].
    destruct (shape_dims _ _ _ Hx) as [-> ->]; [lia|].
    rewrite !get_d_mk by assumption.
    destruct (negb _); [reflexivity|].
    now rewrite (get_d_emap (fun c => div_int c n_perm) 0 NaN xy_n spot_n).
  - unfold getf. now rewrite (get_d_emap (fun c => div_int c n_perm) 0 NaN xy_n spot_n).
Qed.

(** X8: a cell whose true statistic is NaN is never counted as met or
    exceeded: with a positive number of permutations its p-value is
    exactly 0, the most significant value, two-sided and one-sided alike;
    only where [positive_only] is set and neither x nor y is positive at
    that spot is it the 1 of the mask. *)
Theorem nan_statistic_gets_pvalue_zero (positive_only : bool) (P : matrix npfloat) (r c : nat) :
  has_shape spot_n xy_n x_mat -> has_shape spot_n xy_n y_mat ->
  (r < xy_n)%nat -> (c < spot_n)%nat -> getf local_truth r c = NaN ->
  run_pvals x_mat y_mat dist local_truth local_fun n_perm seed positive_only os_entropy = Ok P ->
  (positive_only = false \/ 0 < get x_mat c r \/ 0 < get y_mat c r -> getf P r c = Fin 0) /\
  (positive_only = true -> get x_mat c r <= 0 -> get y_mat c r <= 0 -> getf P r c = Fin 1).
Proof.
  intros Hx _ Hr Hc Hnan HP.
  destruct (pvals_cells_exact positive_only P Hx HP) as (C & HC & Hcells).
  rewrite (Hcells r c Hr Hc).
  rewrite (loop_nan_cell _ xy_n spot_n _ _ _ _ _ _ _ _ C r c
             (has_shape_mk xy_n spot_n (fun _ _ => 0)) Hr Hc Hnan HC).
  rewrite get_mk by assumption. rewrite div_int_zero.
  replace (n_perm =? 0)%Z with false by (symmetry; apply Z.eqb_neq; lia).
  unfold Rgt_bool. split.
  - intros [-> | [Hpos | Hpos]]; [reflexivity| |].
    + rewrite (Rlt_bool_true 0 (get x_mat c r)) by assumption.
      cbn [orb negb]. now rewrite andb_false_r.
    + rewrite (Rlt_bool_true 0 (get y_mat c r)) by assumption.
      rewrite orb_true_r. cbn [negb]. now rewrite andb_false_r.
  - intros -> Hxn Hyn. now rewrite !Rlt_bool_false by assumption.
Qed.

Lemma loop_counts_integer (k n m : nat) (rng : rng_state) (pv x_mat' y_mat' dist' : matrix R)
    (truth : matrix npfloat) (f : statistic) (po : bool) (C : matrix R) (hi : nat) :
  has_shape n m pv -> (0 < n)%nat ->
  (forall r c, (r < n)%nat -> (c < m)%nat ->
     exists a : nat, get pv r c = INR a /\ (a <= hi)%nat) ->
  run_loop k rng pv x_mat' y_mat' dist' truth f po = Ok C ->
  forall r c, (r < n)%nat -> (c < m)%nat ->
    exists a : nat, get C r c = INR a /\ (a <= hi + k)%nat.
Proof.
  revert rng pv hi. induction k as [|k IH]; intros rng pv hi Hpv Hn Hb Hrun r c Hr Hc;
    cbn [permutation_loop] in Hrun.
  - injection Hrun as <-. destruct (Hb r c Hr Hc) as (a & Ea & Ha). exists a. split; [exact Ea|lia].
  - destruct (rng_permutation rng (ncols truth)) as [idx rng'].
    destruct (f (take_rows x_mat' idx) y_mat' dist') as [perm|e]; cbn [rbind] in Hrun;
      [|discriminate].
    replace (hi + S k)%nat with (S hi + k)%nat by lia.
    eapply IH; [| exact Hn | | exact Hrun | exact Hr | exact Hc].
    + destruct po; now apply has_shape_add_indicator.
    + intros r' c' Hr' Hc'. destruct (Hb r' c' Hr' Hc') as (a & Ea & Ha).
      destruct po; rewrite (get_add_indicator _ n m) by assumption; rewrite Ea;
        match goal with |- context [if ?b then _ else _] => destruct b end;
        first [ exists (S a); split; [now rewrite S_INR|lia]
              | exists a; split; [ring|lia] ].
Qed.

Lemma ge_refl (t : npfloat) : t <> NaN -> Np.ge t t = true.
Proof.
  destruct t as [x| | |]; intros H; try reflexivity; [|contradiction].
  cbn. unfold Rge_bool. apply Rle_bool_true. lra.
Qed.

Lemma abs_not_nan (t : npfloat) : t <> NaN -> Np.abs t <> NaN.
Proof. destruct t; intros H; try discriminate. contradiction. Qed.

(** When no permutation of the spots changes the statistic, every round
    counts. *)
Lemma loop_constant_statistic (k n m : nat) (rng : rng_state)
    (pv x_mat' y_mat' dist' : matrix R) (truth : matrix npfloat) (f : statistic) (po : bool) :
  (forall s, Permutation (fst (rng_permutation s (ncols truth))) (seq 0 (ncols truth))) ->
  (forall idx, Permutation idx (seq 0 (ncols truth)) ->
     f (take_rows x_mat' idx) y_mat' dist' = Ok truth) ->
  has_shape n m pv -> (0 < n)%nat ->
  exists C,
    run_loop k rng pv x_mat' y_mat' dist' truth f po = Ok C /\
    forall r c, (r < n)%nat -> (c < m)%nat -> getf truth r c <> NaN ->
      get C r c = get pv r c + INR k.
Proof.
  intros Hgen Hf. revert rng pv. induction k as [|k IH]; intros rng pv Hpv Hn;
    cbn [permutation_loop].
  - exists pv. split; [reflexivity|]. intros r c _ _ _. cbn [INR]. ring.
  - pose proof (Hgen rng) as Hperm'.
    destruct (rng_permutation rng (ncols truth)) as [idx rng']. cbn [fst] in Hperm'.
    rewrite (Hf idx Hperm'). cbn [rbind].
    set (pv' := if po then add_indicator Np.ge pv truth truth
                else add_indicator (fun p t => Np.ge (Np.abs p) (Np.abs t)) pv truth truth).
    assert (Hpv' : has_shape n m pv')
      by (unfold pv'; destruct po; now apply has_shape_add_indicator).
    destruct (IH rng' pv' Hpv' Hn) as (C & HC & Hcells).
    exists C. split; [exact HC|]. intros r c Hr Hc Hnan.
    rewrite (Hcells r c Hr Hc Hnan), S_INR. unfold pv'.
    destruct po; rewrite (get_add_indicator _ n m) by assumption.
    + rewrite ge_refl by assumption. ring.
    + rewrite ge_refl by now apply abs_not_nan. ring.
Qed.

(** X15: every p-value is a count of permutations divided by their
    number: [a / n_perm] for an integer [a] between 0 and [n_perm], so the
    smallest p-value that is not 0 is [1 / n_perm]. *)
Theorem pvalues_are_counts_over_n_perm (positive_only : bool) (P : matrix npfloat) (r c : nat) :
  run_pvals x_mat y_mat dist local_truth local_fun n_perm seed positive_only os_entropy = Ok P ->
  (r < xy_n)%nat -> (c < spot_n)%nat ->
  exists a : nat, (Z.of_nat a <= n_perm)%Z /\ getf P r c = Fin (INR a / IZR n_perm).
Proof.
  intros HP Hr Hc.
  destruct (pvals_cells positive_only P HP) as (C & HC & HCs & HPs & Hcells).
  assert (HN : IZR n_perm <> 0) by (apply not_0_IZR; lia).
  destruct (Hcells r c Hr Hc) as [E|[_ E]]; rewrite E.
  - assert (H0 : forall r c, (r < xy_n)%nat -> (c < spot_n)%nat ->
              exists a : nat, get (mk_matrix xy_n spot_n (fun _ _ => 0)) r c = INR a
                              /\ (a <= 0)%nat).
    { intros r' c' Hr' Hc'. exists 0%nat. rewrite get_mk by assumption. split; [reflexivity|lia]. }
    destruct (loop_counts_integer _ xy_n spot_n _ _ _ _ _ _ _ _ C 0
                (has_shape_mk xy_n spot_n (fun _ _ => 0)) Hp H0 HC r c Hr Hc) as (a & Ea & Ha).
    exists a. split; [lia|]. rewrite Ea. unfold div_int. now apply div_fin.
  - exists (Z.to_nat n_perm). split; [lia|].
    rewrite INR_IZR_INZ, Z2Nat.id by lia. f_equal. now field.
Qed.

(** X16: when the generator draws permutations of the spots, the
    statistic of every permutation of the rows of [x_mat] is the true
    statistic, and no true statistic is NaN, the tester returns the
    p-value 1 in every cell: a permuted statistic that equals the true one
    counts as met. *)
Theorem unchanged_statistic_gets_pvalue_one (positive_only : bool) :
  (forall s, Permutation (fst (rng_permutation s spot_n)) (seq 0 spot_n)) ->
  (forall idx, Permutation idx (seq 0 spot_n) ->
     local_fun (take_rows x_mat idx) y_mat dist = Ok local_truth) ->
  (forall r c, (r < xy_n)%nat -> (c < spot_n)%nat -> getf local_truth r c <> NaN) ->
  exists P,
    run_pvals x_mat y_mat dist local_truth local_fun n_perm seed positive_only os_entropy
    = Ok P /\
    has_shape xy_n spot_n P /\
    forall r c, (r < xy_n)%nat -> (c < spot_n)%nat -> getf P r c = Fin 1.
Proof.
  intros Hgen Hf Hnan.
  destruct (shape_dims _ _ _ Ht Hp) as [Hrows Hcols].
  rewrite <- Hcols in Hgen, Hf.
  destruct (loop_constant_statistic (Z.to_nat n_perm) xy_n spot_n
              (default_rng rng_state seed_rng seed os_entropy)
              (mk_matrix xy_n spot_n (fun _ _ => 0)) x_mat y_mat dist local_truth local_fun
              positive_only Hgen Hf (has_shape_mk xy_n spot_n (fun _ _ => 0)) Hp)
    as (C & HC & Hcount).
  assert (HP : exists P, run_pvals x_mat y_mat dist local_truth local_fun n_perm seed
                           positive_only os_entropy = Ok P).
  { unfold _local_permutation_pvals. rewrite Hrows, Hcols, HC. cbn [rbind]. eexists.
    reflexivity. }
  destruct HP as [P HP]. exists P. split; [exact HP|].
  destruct (pvals_cells positive_only P HP) as (C' & HC' & HCs & HPs & Hcells).
  rewrite HC in HC'. injection HC' as <-.
  split; [exact HPs|]. intros r c Hr Hc.
  destruct (Hcells r c Hr Hc) as [E|[_ E]]; [|exact E]. rewrite E.
  rewrite (Hcount r c Hr Hc (Hnan r c Hr Hc)).
  rewrite get_mk by assumption. rewrite INR_IZR_INZ, Z2Nat.id by lia.
  assert (HN : IZR n_perm <> 0) by (apply not_0_IZR; lia).
  unfold div_int. rewrite div_fin by assumption. f_equal. now field.
Qed.

End TesterProperties.

Section BuilderProperties.
Import Proximity Inputs.

Variable kneighbors_graph : nat -> matrix R -> result (matrix R).
Variable astype_float16 : R -> R.

Abbreviation build := (get_spatial_proximity kneighbors_graph astype_float16).

(** X9: a call of the builder that returns changes nothing of the
    object but the entry 'proximity' of [.obsm]: the other keys and the
    number of observations are as before.  Calling it again with the same
    arguments on the object it left returns the same value and leaves the
    object unchanged. *)
Theorem builder_touches_only_proximity
    (adata adata' : AnnData) (parameter : R) (family : string) (cutoff : option R)
    (n_neighbors : option nat) (bypass_diagonal inplace : bool) (ret : option (matrix R)) :
  build adata parameter family cutoff n_neighbors bypass_diagonal inplace = (adata', Ok ret) ->
  n_obs adata' = n_obs adata /\
  (forall key, key <> "proximity"%string -> obsm adata' !! key = obsm adata !! key) /\
  build adata' parameter family cutoff n_neighbors bypass_diagonal inplace = (adata', Ok ret).
Proof.
  unfold get_spatial_proximity.
  destruct (negb (bool_decide (family ∈ families))) eqn:Ef; [intros H; discriminate|].
  destruct (is_none cutoff && is_none n_neighbors) eqn:En; [intros H; discriminate|].
  destruct (obsm adata !! "spatial"%string) as [spatial|] eqn:Es; [|intros H; discriminate].
  destruct (negb (has_shapeb (n_obs adata) 2 spatial)) eqn:Eh; [intros H; discriminate|].
  destruct (proximity_of _ _ _ _ _ _ _ _ _) as [proximity|e] eqn:Ep; [|intros H; discriminate].
  intros H. injection H as <- <-. cbn [n_obs obsm]. split; [reflexivity|]. split.
  - intros key Hkey. now apply lookup_insert_ne.
  - rewrite lookup_insert_ne by discriminate. rewrite Es, Eh, Ep.
    now rewrite insert_insert_eq.
Qed.

Lemma has_shapeb_spec (n m : nat) (M : matrix R) : has_shapeb n m M = true <-> has_shape n m M.
Proof.
  unfold has_shapeb, has_shape. rewrite andb_true_iff, Nat.eqb_eq, forallb_forall.
  rewrite List.Forall_forall. split; intros [H1 H2]; split; auto; intros row Hrow.
  - now apply Nat.eqb_eq, H2.
  - now apply Nat.eqb_eq, H2.
Qed.

Lemma exp_nonpos_le_1 (t : R) : t <= 0 -> 0 < exp t <= 1.
Proof.
  intros Ht. split; [apply exp_pos|].
  destruct (Req_dec t 0) as [->|Hne]; [rewrite exp_0; lra|].
  pose proof (exp_increasing t 0) as H. rewrite exp_0 in H. lra.
Qed.

(** The decay of the three families that reach a branch, for a positive
    parameter and a distance that is not negative. *)
Lemma decay_unit (family : string) (parameter d : R) :
  smooth_family family -> 0 < parameter -> 0 <= d ->
  0 <= decay family parameter d <= 1.
Proof.
  intros Hf Hp Hd.
  assert (Hq : 0 <= d / parameter).
  { unfold Rdiv. apply Rmult_le_pos; [lra|]. left. now apply Rinv_0_lt_compat. }
  destruct Hf as [-> | [-> | ->]]; unfold decay; repeat case_bool_decide; try discriminate;
    try contradiction.
  - assert (Ht : - d ^ 2 / (2 * parameter ^ 2) <= 0).
    { assert (0 < 2 * parameter ^ 2) by nra.
      assert (0 <= d ^ 2 / (2 * parameter ^ 2)).
      { unfold Rdiv. apply Rmult_le_pos; [apply pow2_ge_0|]. left. now apply Rinv_0_lt_compat. }
      unfold Rdiv in *. lra. }
    pose proof (exp_nonpos_le_1 _ Ht). lra.
  - assert (Ht : - d / parameter <= 0) by (unfold Rdiv in *; lra).
    pose proof (exp_nonpos_le_1 _ Ht). lra.
  - destruct (Rlt_dec (1 - d / parameter) 0); lra.
Qed.

Lemma decay_zero (family : string) (parameter : R) :
  smooth_family family -> 0 < parameter -> decay family parameter 0 = 1.
Proof.
  intros Hf Hp.
  destruct Hf as [-> | [-> | ->]]; unfold decay; repeat case_bool_decide; try discriminate;
    try contradiction.
  - replace (- 0 ^ 2 / (2 * parameter ^ 2)) with 0 by (field; lra). apply exp_0.
  - replace (- 0 / parameter) with 0 by (field; lra). apply exp_0.
  - replace (1 - 0 / parameter) with 1 by (field; lra). destruct (Rlt_dec 1 0); lra.
Qed.

Lemma euclidean_facts (coordinates : matrix R) (i j : nat) :
  0 <= euclidean coordinates i j /\
  euclidean coordinates i j = euclidean coordinates j i /\
  euclidean coordinates i i = 0.
Proof.
  unfold euclidean. split; [apply sqrt_pos|]. split.
  - f_equal. ring.
  - replace ((get coordinates i 0 - get coordinates i 0) ^ 2
             + (get coordinates i 1 - get coordinates i 1) ^ 2) with 0 by ring.
    apply sqrt_0.
Qed.

Lemma proximity_of_cells (spatial : matrix R) (n : nat) (parameter : R) (family : string)
    (cutoff : R) (bypass_diagonal : bool) :
  has_shape n 2 spatial -> (0 < n <= 1000)%nat ->
  proximity_of kneighbors_graph astype_float16 spatial parameter family (Some cutoff) None
    bypass_diagonal n
  = Ok (mk_matrix n n (stored_proximity spatial parameter family cutoff bypass_diagonal)).
Proof.
  intros Hs Hn.
  assert (ED : squareform_pdist spatial = mk_matrix n n (euclidean spatial)).
  { unfold squareform_pdist. destruct Hs as [Hlen _]. unfold nrows. rewrite Hlen.
    replace (n =? 0)%nat with false by (symmetry; apply Nat.eqb_neq; lia). reflexivity. }
  unfold proximity_of. rewrite ED.
  set (D := mk_matrix n n _).
  assert (HD : has_shape n n D) by apply has_shape_mk.
  pose proof (has_shape_emap (decay family parameter) _ _ _ HD) as HK.
  set (K := emap (decay family parameter) D) in *.
  set (F := if bypass_diagonal then fill_diagonal K else K).
  assert (HF : has_shape n n F).
  { unfold F. destruct bypass_diagonal; [|exact HK]. unfold fill_diagonal.
    destruct (shape_dims _ _ _ HK) as [-> ->]; [lia|]. apply has_shape_mk. }
  pose proof (has_shape_emap (fun v => if Rlt_dec v cutoff then 0 else v) _ _ _ HF) as HC.
  cbn [rbind]. unfold below_cutoff_to_zero.
  destruct (shape_dims _ _ _ HC) as [Hr _]; [lia|]. rewrite Hr, Nat.eqb_refl. cbn [negb].
  replace (1000 <? n)%nat with false by (symmetry; apply Nat.ltb_ge; lia).
  f_equal.
  apply (nth_ext _ _ [] []).
  - destruct HC as [-> _]. symmetry. apply (nrows_mk n n).
  - intros r Hr'. destruct HC as [HClen HCrows]. rewrite HClen in Hr'.
    apply (nth_ext _ _ 0 0).
    + rewrite List.Forall_forall in HCrows. rewrite HCrows by (apply nth_In; lia).
      unfold mk_matrix. rewrite (nth_tabulate n _ [] r Hr'). now rewrite length_tabulate.
    + intros c Hc. rewrite List.Forall_forall in HCrows.
      rewrite HCrows in Hc by (apply nth_In; lia).
      change (get (emap (fun v => if Rlt_dec v cutoff then 0 else v) F) r c
              = get (mk_matrix n n (stored_proximity spatial parameter family cutoff
                                      bypass_diagonal)) r c).
      rewrite get_mk by assumption. unfold get at 1.
      rewrite (get_d_emap _ 0 0 n n) by assumption.
      unfold stored_proximity. fold (get F r c).
      assert (EK : get K r c = decay family parameter (euclidean spatial r c)).
      { unfold K, get. rewrite (get_d_emap _ 0 0 n n) by assumption.
        unfold D. now rewrite get_d_mk. }
      assert (EF : get F r c = if bypass_diagonal && (r =? c)%nat then 0
                               else decay family parameter (euclidean spatial r c)).
      { unfold F. destruct bypass_diagonal; cbn [andb]; [|exact EK].
        unfold fill_diagonal. destruct (shape_dims _ _ _ HK) as [-> ->]; [lia|].
        rewrite get_mk by assumption. now rewrite EK. }
      now rewrite EF.
Qed.

(** X10: for the families gaussian, exponential and linear with a
    positive parameter, a cutoff, no neighbour mask and at most 1000
    spots, the builder returns and stores a square matrix with one row per
    spot that is symmetric, has every entry in [0, 1], has no positive
    entry below the cutoff, and on the diagonal has 0 when the diagonal is
    bypassed or the cutoff exceeds 1, and 1 otherwise. *)
Theorem builder_stores_symmetric_unit_matrix
    (adata : AnnData) (spatial : matrix R) (parameter cutoff : R) (family : string)
    (bypass_diagonal : bool) :
  smooth_family family -> 0 < parameter ->
  obsm adata !! "spatial"%string = Some spatial ->
  has_shape (n_obs adata) 2 spatial -> (0 < n_obs adata <= 1000)%nat ->
  exists P,
    (forall inplace,
       build adata parameter family (Some cutoff) None bypass_diagonal inplace
       = ({| obsm := <["proximity"%string := P]> (obsm adata); n_obs := n_obs adata |},
          Ok (if inplace then None else Some P))) /\
    has_shape (n_obs adata) (n_obs adata) P /\
    forall r c, (r < n_obs adata)%nat -> (c < n_obs adata)%nat ->
      0 <= get P r c <= 1 /\
      get P r c = get P c r /\
      (get P r c = 0 \/ cutoff <= get P r c) /\
      get P r r = (if bypass_diagonal then 0 else if Rlt_dec 1 cutoff then 0 else 1).
Proof.
  intros Hf Hp Hs Hshape Hn.
  exists (mk_matrix (n_obs adata) (n_obs adata)
            (stored_proximity spatial parameter family cutoff bypass_diagonal)).
  split; [|split; [apply has_shape_mk|]].
  - intros inplace. unfold get_spatial_proximity.
    assert (Hin : family ∈ families).
    { unfold families. destruct Hf as [E | [E | E]]; rewrite E;
        repeat first [apply list_elem_of_here | apply list_elem_of_further]. }
    rewrite (bool_decide_eq_true_2 _ Hin).
    cbn [negb is_none andb]. rewrite Hs.
    replace (has_shapeb (n_obs adata) 2 spatial) with true
      by (symmetry; now apply has_shapeb_spec).
    cbn [negb]. now rewrite (proximity_of_cells spatial (n_obs adata)).
  - intros r c Hr Hc. rewrite !get_mk by assumption. unfold stored_proximity.
    destruct (euclidean_facts spatial r c) as (Hd0 & Hsym & _).
    destruct (euclidean_facts spatial r r) as (_ & _ & Hdiag).
    pose proof (decay_unit family parameter _ Hf Hp Hd0) as Hu.
    rewrite (Nat.eqb_sym c r), <- Hsym, Hdiag, (decay_zero family parameter Hf Hp).
    rewrite Nat.eqb_refl, andb_true_r.
    set (v := if bypass_diagonal && (r =? c)%nat then 0
              else decay family parameter (euclidean spatial r c)).
    assert (Hv : 0 <= v <= 1) by (unfold v; destruct (bypass_diagonal && (r =? c)%nat); lra).
    repeat split; try (destruct (Rlt_dec v cutoff); lra).
    destruct bypass_diagonal; [destruct (Rlt_dec 0 cutoff); reflexivity|reflexivity].
Qed.

Lemma builder_run (adata : AnnData) (spatial : matrix R) (parameter cutoff : R)
    (family : string) (bypass_diagonal inplace : bool) :
  family ∈ families ->
  obsm adata !! "spatial"%string = Some spatial ->
  has_shape (n_obs adata) 2 spatial -> (0 < n_obs adata <= 1000)%nat ->
  build adata parameter family (Some cutoff) None bypass_diagonal inplace
  = (let P := mk_matrix (n_obs adata) (n_obs adata)
                (stored_proximity spatial parameter family cutoff bypass_diagonal) in
     ({| obsm := <["proximity"%string := P]> (obsm adata); n_obs := n_obs adata |},
      Ok (if inplace then None else Some P))).
Proof.
  intros Hin Hs Hshape Hn. unfold get_spatial_proximity.
  rewrite (bool_decide_eq_true_2 _ Hin). cbn [negb is_none andb]. rewrite Hs.
  replace (has_shapeb (n_obs adata) 2 spatial) with true
    by (symmetry; now apply has_shapeb_spec).
  cbn [negb]. now rewrite (proximity_of_cells spatial (n_obs adata)).
Qed.


(** X17: the kernel named 'misty_rbf' cannot be reached: the name is not
    among the accepted families, so the builder raises AssertionError for
    it whatever the other arguments are, and leaves the object as it was;
    no call that returns was made with that family. *)
Theorem misty_rbf_branch_is_never_reached
    (adata : AnnData) (parameter : R) (cutoff : option R) (n_neighbors : option nat)
    (bypass_diagonal inplace : bool) :
  build adata parameter "misty_rbf" cutoff n_neighbors bypass_diagonal inplace
  = (adata, Err (AssertionError "family must be a member of families")) /\
  forall family adata' ret,
    build adata parameter family cutoff n_neighbors bypass_diagonal inplace = (adata', Ok ret) ->
    family ∈ families /\ family <> "misty_rbf"%string.
Proof.
  split; [reflexivity|].
  intros family adata' ret. unfold get_spatial_proximity.
  destruct (bool_decide (family ∈ families)) eqn:E; cbn [negb]; [|intros H; discriminate].
  intros _. apply bool_decide_eq_true_1 in E. split; [exact E|].
  intros ->. unfold families in E.
  repeat (apply elem_of_cons in E; destruct E as [E|E]; [discriminate|]).
  now apply elem_of_nil in E.
Qed.


End BuilderProperties.

Section BuilderWrites.
Import Proximity Inputs.

Variable kneighbors_graph : nat -> matrix R -> result (matrix R).
Variable astype_float16 : R -> R.

Abbreviation writer := (get_spatial_proximity kneighbors_graph astype_float16).

Lemma decay_linear (parameter d : R) :
  decay "linear" parameter d
  = (let v := 1 - d / parameter in if Rlt_dec v 0 then 0 else v).
Proof. reflexivity. Qed.

(** The linear kernel with parameter 2 and cutoff 1/4 on two spots at
    distance 1. *)
Lemma stored_two_points :
  mk_matrix 2 2 (stored_proximity [[0; 0]; [1; 0]] 2 "linear" (1 / 4) false)
  = [[1; 1 / 2]; [1 / 2; 1]].
Proof.
  unfold mk_matrix, tabulate, stored_proximity, euclidean.
  cbn [seq map get get_d nth andb].
  rewrite (sqrt_of_square ((0 - 0) ^ 2 + (0 - 0) ^ 2) 0) by lra.
  rewrite (sqrt_of_square ((0 - 1) ^ 2 + (0 - 0) ^ 2) 1) by lra.
  rewrite (sqrt_of_square ((1 - 0) ^ 2 + (0 - 0) ^ 2) 1) by lra.
  rewrite (sqrt_of_square ((1 - 1) ^ 2 + (0 - 0) ^ 2) 0) by lra.
  rewrite !decay_linear. cbv zeta.
  destruct (Rlt_dec (1 - 0 / 2) 0) as [H|_]; [exfalso; lra|].
  destruct (Rlt_dec (1 - 1 / 2) 0) as [H|_]; [exfalso; lra|].
  destruct (Rlt_dec (1 - 0 / 2) (1 / 4)) as [H|_]; [exfalso; lra|].
  destruct (Rlt_dec (1 - 1 / 2) (1 / 4)) as [H|_]; [exfalso; lra|].
  repeat (f_equal; try lra).
Qed.

(** C10: the builder writes the matrix it computes under the key
    'proximity' of [adata.obsm], for [inplace] true or false alike; the
    flag only chooses between returning None and returning the matrix.
    Every call either raises, for both values of [inplace], and leaves the
    object as it was, or stores a matrix and returns.  A call with an
    accepted family, a cutoff or a number of neighbours and coordinates of
    the right shape stores and returns what the kernel, the cutoff and the
    neighbour mask computed; with a cutoff, no neighbour mask and at most
    1000 spots that is the matrix whose cell (r, c) is the kernel of the
    Euclidean distance of the spots r and c, set to 0 on the diagonal when
    it is bypassed, and to 0 below the cutoff. *)
Theorem proximity_written_whatever_inplace
    (adata : AnnData) (parameter : R) (family : string) (cutoff : option R)
    (n_neighbors : option nat) (bypass_diagonal : bool) :
  ((exists e, forall inplace,
      writer adata parameter family cutoff n_neighbors bypass_diagonal inplace
      = (adata, Err e)) \/
   (exists proximity, forall inplace,
      writer adata parameter family cutoff n_neighbors bypass_diagonal inplace
      = ({| obsm := <["proximity"%string := proximity]> (obsm adata); n_obs := n_obs adata |},
         Ok (if inplace then None else Some proximity)) /\
      obsm (fst (writer adata parameter family cutoff n_neighbors bypass_diagonal inplace))
        !! "proximity"%string = Some proximity)) /\
  (forall spatial P,
     family ∈ families -> is_none cutoff && is_none n_neighbors = false ->
     obsm adata !! "spatial"%string = Some spatial ->
     has_shape (n_obs adata) 2 spatial ->
     proximity_of kneighbors_graph astype_float16 spatial parameter family cutoff n_neighbors
       bypass_diagonal (n_obs adata) = Ok P ->
     forall inplace,
       writer adata parameter family cutoff n_neighbors bypass_diagonal inplace
       = ({| obsm := <["proximity"%string := P]> (obsm adata); n_obs := n_obs adata |},
          Ok (if inplace then None else Some P))) /\
  (forall spatial c,
     family ∈ families -> cutoff = Some c -> n_neighbors = None ->
     obsm adata !! "spatial"%string = Some spatial ->
     has_shape (n_obs adata) 2 spatial -> (0 < n_obs adata <= 1000)%nat ->
     forall inplace,
       writer adata parameter family cutoff n_neighbors bypass_diagonal inplace
       = (let P := mk_matrix (n_obs adata) (n_obs adata)
                     (stored_proximity spatial parameter family c bypass_diagonal) in
          ({| obsm := <["proximity"%string := P]> (obsm adata); n_obs := n_obs adata |},
           Ok (if inplace then None else Some P)))).
Proof.
  split; [|split].
  - unfold get_spatial_proximity.
    destruct (negb (bool_decide (family ∈ families))); [left; eexists; reflexivity|].
    destruct (is_none cutoff && is_none n_neighbors); [left; eexists; reflexivity|].
    destruct (obsm adata !! "spatial"%string) as [spatial|]; [|left; eexists; reflexivity].
    destruct (negb (has_shapeb (n_obs adata) 2 spatial)); [left; eexists; reflexivity|].
    destruct (proximity_of _ _ _ _ _ _ _ _ _) as [proximity|e]; [|left; eexists; reflexivity].
    right. exists proximity. intros inplace. split; [reflexivity|].
    cbn [fst obsm]. apply lookup_insert_eq.
  - intros spatial P Hin Hgiven Hs Hshape HP inplace. unfold get_spatial_proximity.
    rewrite (bool_decide_eq_true_2 _ Hin). cbn [negb]. rewrite Hgiven, Hs.
    replace (has_shapeb (n_obs adata) 2 spatial) with true
      by (symmetry; now apply has_shapeb_spec).
    cbn [negb]. now rewrite HP.
  - intros spatial c Hin -> -> Hs Hshape Hn inplace.
    now apply (builder_run kneighbors_graph astype_float16).
Qed.

End BuilderWrites.

Section BuilderWritesRun.
Import Proximity Inputs.

(** C10, witness: two spots at distance 1, the linear kernel with
    parameter 2 and cutoff 1/4; the matrix is stored for both values of
    [inplace] and returned for [inplace = False] only. *)
Lemma proximity_written_whatever_inplace_witness :
  get_spatial_proximity (fun _ M => Ok M) (fun v => v) two_points 2 "linear" (Some (1 / 4))
    None false true
  = ({| obsm := <["proximity"%string := [[1; 1 / 2]; [1 / 2; 1]]]> (obsm two_points);
        n_obs := 2 |}, Ok None) /\
  get_spatial_proximity (fun _ M => Ok M) (fun v => v) two_points 2 "linear" (Some (1 / 4))
    None false false
  = ({| obsm := <["proximity"%string := [[1; 1 / 2]; [1 / 2; 1]]]> (obsm two_points);
        n_obs := 2 |}, Ok (Some [[1; 1 / 2]; [1 / 2; 1]])).
Proof.
  assert (Hin : "linear"%string ∈ families).
  { unfold families. repeat first [apply list_elem_of_here | apply list_elem_of_further]. }
  assert (Hs : obsm two_points !! "spatial"%string = Some [[0; 0]; [1; 0]]).
  { unfold two_points. cbn [obsm]. apply lookup_insert_eq. }
  assert (Hshape : has_shape (n_obs two_points) 2 [[0; 0]; [1; 0]]) by shape_tac.
  assert (Hn : (0 < n_obs two_points <= 1000)%nat) by (cbn [n_obs two_points]; lia).
  destruct (proximity_written_whatever_inplace (fun _ M => Ok M) (fun v => v) two_points 2
              "linear" (Some (1 / 4)) None false) as (_ & _ & Hrun).
  pose proof (Hrun [[0; 0]; [1; 0]] (1 / 4) Hin eq_refl eq_refl Hs Hshape Hn) as H.
  cbv zeta in H. change (n_obs two_points) with 2%nat in H.
  rewrite stored_two_points in H.
  split; [exact (H true)|exact (H false)].
Defined.

End BuilderWritesRun.

Section StandardizeProperties.
Import Categories.

Variables (n m : nat) (mat : matrix R).
Hypothesis Hmat : has_shape n m mat.
Hypothesis Hn : (0 < n)%nat.

Lemma sq_zero (x : R) : x ^ 2 = 0 -> x = 0.
Proof.
  intros H. destruct (Req_dec x 0) as [E|E]; [exact E|].
  exfalso. now apply (pow_nonzero x 2 E).
Qed.

Lemma sum_n_scale (k : nat) (f : nat -> R) (c : R) :
  sum_n k (fun i => f i * c) = sum_n k f * c.
Proof.
  induction k as [|k IH]; [rewrite !sum_n_0; ring|]. rewrite !sum_n_S, IH. ring.
Qed.

Lemma centred_sum (j : nat) : sum_n n (centred n mat j) = 0.
Proof.
  unfold centred. rewrite sum_n_minus_const. unfold column_mean. field.
  apply not_0_INR. lia.
Qed.

Lemma standardize_local_cell (i j : nat) :
  (i < n)%nat -> (j < m)%nat ->
  getf (_standardize_matrix mat true) i j = Fin (centred n mat j i).
Proof.
  intros Hi Hj. unfold _standardize_matrix. cbn [negb].
  destruct (shape_dims n m mat Hmat Hn) as [Hr Hc]. rewrite Hr, Hc.
  unfold getf. rewrite (get_d_emap Fin 0 NaN n m); auto using has_shape_mk.
  rewrite get_d_mk by assumption. unfold mean_axis0. rewrite Hr, Hc.
  now rewrite nth_tabulate by assumption.
Qed.

Lemma standardize_global_cell (i j : nat) :
  (i < n)%nat -> (j < m)%nat ->
  getf (_standardize_matrix mat false) i j
  = Np.div (centred n mat j i) (pow_half (sum_n n (fun r => centred n mat j r ^ 2))).
Proof.
  intros Hi Hj. unfold _standardize_matrix. cbn [negb].
  destruct (shape_dims n m mat Hmat Hn) as [Hr Hc]. rewrite Hr, Hc.
  rewrite nrows_mk, (ncols_mk n m) by assumption.
  rewrite getf_mk by assumption. rewrite nth_tabulate by assumption.
  unfold mean_axis0. rewrite Hr, Hc.
  rewrite get_mk by assumption. rewrite nth_tabulate by assumption.
  f_equal. f_equal. apply sum_n_ext. intros r Hr'.
  rewrite get_mk by assumption. now rewrite nth_tabulate by assumption.
Qed.

Lemma centred_norm_nonneg (j : nat) : 0 <= sum_n n (fun r => centred n mat j r ^ 2).
Proof. apply sum_n_nonneg. intros r _. apply pow2_ge_0. Qed.

Lemma centred_norm_zero_iff (j : nat) :
  sum_n n (fun r => centred n mat j r ^ 2) = 0 <->
  (forall r r', (r < n)%nat -> (r' < n)%nat -> get mat r j = get mat r' j).
Proof.
  split.
  - intros H0 r r' Hr Hr'.
    assert (Hz : forall k, (k < n)%nat -> centred n mat j k ^ 2 = 0).
    { apply sum_n_nonneg_zero; [|exact H0]. intros k _. apply pow2_ge_0. }
    pose proof (sq_zero _ (Hz r Hr)) as H1. pose proof (sq_zero _ (Hz r' Hr')) as H2.
    unfold centred in *. lra.
  - intros Hc. apply sum_n_zero. intros r Hr.
    assert (E : column_mean n mat j = get mat r j).
    { unfold column_mean.
      rewrite (sum_n_ext n _ (fun _ => get mat r j)) by (intros k Hk; now apply Hc).
      assert (Hs : forall k, sum_n k (fun _ => get mat r j) = INR k * get mat r j).
      { induction k as [|k IH]; [rewrite sum_n_0; cbn; ring|].
        rewrite sum_n_S, IH, S_INR. ring. }
      rewrite Hs. field. apply not_0_INR. lia. }
    unfold centred. rewrite E. ring.
Qed.

(** X11: [_standardize_matrix(mat, local=True)] over the real numbers
    subtracts from every column its mean: the values of a column of the
    result are finite, add up to zero, and differ from one another as the
    values of the input do. *)
Theorem standardize_local_centres_columns (j : nat) :
  (j < m)%nat ->
  exists f : nat -> R,
    (forall i, (i < n)%nat -> getf (_standardize_matrix mat true) i j = Fin (f i)) /\
    sum_n n f = 0 /\
    (forall i i', f i - f i' = get mat i j - get mat i' j).
Proof.
  intros Hj. exists (centred n mat j). split; [|split].
  - intros i Hi. now apply standardize_local_cell.
  - apply centred_sum.
  - intros i i'. unfold centred. ring.
Qed.

(** X12: [_standardize_matrix(mat, local=False)] over the real numbers:
    a column whose values are not all equal becomes a column of finite
    values with sum zero and sum of squares one; a column whose values are
    all equal becomes NaN in every row (zero divided by zero). *)
Theorem standardize_global_unit_columns (j : nat) :
  (j < m)%nat ->
  ((exists r r', (r < n)%nat /\ (r' < n)%nat /\ get mat r j <> get mat r' j) ->
     exists f : nat -> R,
       (forall i, (i < n)%nat -> getf (_standardize_matrix mat false) i j = Fin (f i)) /\
       sum_n n f = 0 /\
       sum_n n (fun i => f i ^ 2) = 1) /\
  ((forall r r', (r < n)%nat -> (r' < n)%nat -> get mat r j = get mat r' j) ->
     forall i, (i < n)%nat -> getf (_standardize_matrix mat false) i j = NaN).
Proof.
  intros Hj. set (N := sum_n n (fun r => centred n mat j r ^ 2)).
  pose proof (centred_norm_nonneg j) as HN. fold N in HN.
  assert (Hpow : pow_half N = Fin (sqrt N)).
  { unfold pow_half. destruct (Rlt_dec N 0); [lra|reflexivity]. }
  split.
  - intros (r & r' & Hr & Hr' & Hne).
    assert (HNpos : 0 < N).
    { destruct (Req_dec N 0) as [E|E]; [|lra].
      exfalso. apply Hne. now apply (proj1 (centred_norm_zero_iff j)). }
    assert (Hsq : 0 < sqrt N) by now apply sqrt_lt_R0.
    exists (fun i => centred n mat j i * / sqrt N). split; [|split].
    + intros i Hi. rewrite standardize_global_cell by assumption. fold N. rewrite Hpow.
      unfold Np.div. destruct (Req_dec_T (sqrt N) 0); [lra|reflexivity].
    + rewrite sum_n_scale, centred_sum. ring.
    + rewrite (sum_n_ext n _ (fun i => centred n mat j i ^ 2 * / N)).
      * rewrite sum_n_scale. fold N. field. lra.
      * intros i _. rewrite <- (sqrt_sqrt N) at 2 by lra. field. lra.
  - intros Hc i Hi. rewrite standardize_global_cell by assumption. fold N. rewrite Hpow.
    assert (E : N = 0) by now apply (proj2 (centred_norm_zero_iff j)).
    assert (Ec : centred n mat j i = 0).
    { assert (Hz : forall k, (k < n)%nat -> centred n mat j k ^ 2 = 0).
      { apply sum_n_nonneg_zero; [|exact E]. intros k _. apply pow2_ge_0. }
      now apply sq_zero, Hz. }
    rewrite E, sqrt_0, Ec. unfold Np.div.
    destruct (Req_dec_T 0 0); [reflexivity|lra].
Qed.

End StandardizeProperties.

Section CategoryProperties.
Import Categories.

Lemma sign_char_cases (v : npfloat) :
  sign_char v = "P"%string \/ sign_char v = "N"%string \/ sign_char v = "Z"%string.
Proof. unfold sign_char. destruct (gt0 v); [|destruct (lt0 v)]; auto. Qed.

Lemma encode_cell (n m : nat) (a : matrix R) (i j : nat) :
  has_shape n m a -> (0 < n)%nat -> (i < n)%nat -> (j < m)%nat ->
  exists v, get_d ""%string (_encode_as_char a) i j = sign_char v.
Proof.
  intros Ha Hn Hi Hj. unfold _encode_as_char.
  set (b := if all_nonneg a then _ else _).
  assert (Hb : has_shape n m b).
  { unfold b. destruct (all_nonneg a); [|now apply has_shape_emap].
    unfold _standardize_matrix. cbn [negb].
    destruct (shape_dims n m a Ha Hn) as [-> ->].
    apply has_shape_emap, has_shape_mk. }
  exists (get_d NaN b i j). now rewrite (get_d_emap sign_char NaN ""%string n m).
Qed.

Lemma has_shape_encode (n m : nat) (a : matrix R) :
  has_shape n m a -> (0 < n)%nat -> has_shape n m (_encode_as_char a).
Proof.
  intros Ha Hn. unfold _encode_as_char. apply has_shape_emap.
  destruct (all_nonneg a); [|now apply has_shape_emap].
  unfold _standardize_matrix. cbn [negb].
  destruct (shape_dims n m a Ha Hn) as [-> ->].
  apply has_shape_emap, has_shape_mk.
Qed.

(** X13: the labelling of two matrices of one shape, combined by
    [_categorize] and passed to [_simplify_cats].  Each label of
    [_encode_as_char] is P, N or Z, and the result keeps the shape.  A
    cell is the integer 1 for P with P, -1 for P with N or N with P, 0
    for N with N, and the two-letter string itself as soon as one of the
    two labels is Z. *)
Theorem categories_of_encoded_matrices (n m : nat) (x y : matrix R) (i j : nat) :
  has_shape n m x -> has_shape n m y -> (i < n)%nat -> (j < m)%nat ->
  let lx := get_d ""%string (_encode_as_char x) i j in
  let ly := get_d ""%string (_encode_as_char y) i j in
  let cats := _simplify_cats (_categorize (_encode_as_char x) (_encode_as_char y)) in
  has_shape n m cats /\
  (lx = "P" \/ lx = "N" \/ lx = "Z")%string /\
  (ly = "P" \/ ly = "N" \/ ly = "Z")%string /\
  get_d (PyStr "") cats i j
  = (if String.eqb lx "Z" || String.eqb ly "Z" then PyStr (lx ++ ly)
     else if String.eqb lx "P" && String.eqb ly "P" then PyInt 1
     else if String.eqb lx "N" && String.eqb ly "N" then PyInt 0
     else PyInt (-1))%string.
Proof.
  intros Hx Hy Hi Hj lx ly cats.
  assert (Hn : (0 < n)%nat) by lia.
  pose proof (has_shape_encode n m x Hx Hn) as Hex.
  destruct (shape_dims n m _ Hex Hn) as [Hr Hc].
  assert (Hcat : has_shape n m (_categorize (_encode_as_char x) (_encode_as_char y))).
  { unfold _categorize. rewrite Hr, Hc. apply has_shape_mk. }
  split; [now apply has_shape_emap|].
  destruct (encode_cell n m x i j Hx Hn Hi Hj) as (vx & Evx).
  destruct (encode_cell n m y i j Hy Hn Hi Hj) as (vy & Evy).
  assert (Hlx : (lx = "P" \/ lx = "N" \/ lx = "Z")%string)
    by (unfold lx; rewrite Evx; apply sign_char_cases).
  assert (Hly : (ly = "P" \/ ly = "N" \/ ly = "Z")%string)
    by (unfold ly; rewrite Evy; apply sign_char_cases).
  split; [exact Hlx|]. split; [exact Hly|].
  unfold cats, _simplify_cats, df_replace.
  rewrite (get_d_emap _ ""%string (PyStr "") n m) by assumption.
  unfold _categorize. rewrite Hr, Hc. rewrite get_d_mk by assumption.
  fold lx ly.
  destruct Hlx as [-> | [-> | ->]]; destruct Hly as [-> | [-> | ->]]; reflexivity.
Qed.

End CategoryProperties.

Section RankInvariance.
Import Bivariate.

Variable f : R -> R.
Hypothesis f_increasing : forall a b, a < b -> f a < f b.

Lemma increasing_cases (u v : R) :
  (u < v /\ f u < f v) \/ (u = v /\ f u = f v) \/ (v < u /\ f v < f u).
Proof.
  destruct (Rtotal_order u v) as [L|[E|G]].
  - left. split; [exact L|now apply f_increasing].
  - right. left. split; [exact E|now rewrite E].
  - right. right. split; [exact G|now apply f_increasing].
Qed.

Lemma Rlt_bool_increasing (u v : R) : Rlt_bool (f u) (f v) = Rlt_bool u v.
Proof.
  unfold Rlt_bool.
  destruct (increasing_cases u v) as [[? ?]|[[? ?]|[? ?]]];
    destruct (Rlt_dec u v), (Rlt_dec (f u) (f v)); auto; lra.
Qed.

Lemma Rle_bool_increasing (u v : R) : Rle_bool (f u) (f v) = Rle_bool u v.
Proof.
  unfold Rle_bool.
  destruct (increasing_cases u v) as [[? ?]|[[? ?]|[? ?]]];
    destruct (Rle_dec u v), (Rle_dec (f u) (f v)); auto; lra.
Qed.

Lemma Req_bool_increasing (u v : R) : Req_bool (f u) (f v) = Req_bool u v.
Proof.
  unfold Req_bool.
  destruct (increasing_cases u v) as [[? ?]|[[? ?]|[? ?]]];
    destruct (Req_dec_T u v), (Req_dec_T (f u) (f v)); auto; lra.
Qed.

Lemma count_lt_increasing (l : list R) (v : R) : count_lt (map f l) (f v) = count_lt l v.
Proof.
  unfold count_lt. induction l as [|u l IH]; [reflexivity|].
  cbn [map List.filter]. rewrite Rlt_bool_increasing.
  destruct (Rlt_bool u v); cbn [length]; now rewrite IH.
Qed.

Lemma count_eq_increasing (l : list R) (v : R) : count_eq (map f l) (f v) = count_eq l v.
Proof.
  unfold count_eq. induction l as [|u l IH]; [reflexivity|].
  cbn [map List.filter]. rewrite Req_bool_increasing.
  destruct (Req_bool u v); cbn [length]; now rewrite IH.
Qed.

(** The average ranks of scipy see the order of the values only. *)
Lemma rankdata_increasing (l : list R) : rankdata (map f l) = rankdata l.
Proof.
  unfold rankdata. rewrite map_map. apply map_ext. intros v.
  now rewrite count_lt_increasing, count_eq_increasing.
Qed.

Abbreviation on_key := (on_key f).

Lemma insert_sorted_increasing (p : R * nat) (l : list (R * nat)) :
  insert_sorted Rle_bool (on_key p) (map on_key l) = map on_key (insert_sorted Rle_bool p l).
Proof.
  induction l as [|q l IH]; [reflexivity|].
  cbn [map insert_sorted].
  change (fst (on_key p)) with (f (fst p)). change (fst (on_key q)) with (f (fst q)).
  rewrite Rle_bool_increasing. destruct (Rle_bool (fst p) (fst q)); [reflexivity|].
  cbn [map]. f_equal. exact IH.
Qed.

Lemma sort_indexed_increasing (l : list (R * nat)) :
  sort_indexed Rle_bool (map on_key l) = map on_key (sort_indexed Rle_bool l).
Proof.
  unfold sort_indexed. induction l as [|p l IH]; [reflexivity|].
  cbn [map fold_right]. rewrite IH. apply insert_sorted_increasing.
Qed.

Lemma combine_on_key (l : list R) (s : list nat) :
  combine (map f l) s = map on_key (combine l s).
Proof.
  revert s. induction l as [|a l IH]; intros [|k s]; try reflexivity.
  cbn [map combine]. now rewrite IH.
Qed.

(** So does the stable sort of the masked engine. *)
Lemma argsort_increasing (l : list R) : argsort Rle_bool (map f l) = argsort Rle_bool l.
Proof.
  unfold argsort. rewrite length_map, combine_on_key, sort_indexed_increasing, map_map.
  apply map_ext. now intros [v k].
Qed.

Lemma ordinal_ranks_increasing (l : list R) : ordinal_ranks (map f l) = ordinal_ranks l.
Proof. unfold ordinal_ranks. now rewrite argsort_increasing. Qed.

Lemma mask_select_map (l : list R) (msk : list bool) :
  mask_select (map f l) msk = map f (mask_select l msk).
Proof.
  revert msk. induction l as [|a l IH]; intros [|b msk]; try reflexivity.
  cbn [map mask_select]. destruct b; cbn [map]; now rewrite IH.
Qed.

Lemma column_emap (n m : nat) (M : matrix R) (j : nat) :
  has_shape n m M -> (j < m)%nat -> column (emap f M) j = map f (column M j).
Proof.
  intros [_ Hrows] Hj. unfold column, emap. rewrite !map_map. apply map_ext_in.
  intros row Hrow. rewrite List.Forall_forall in Hrows.
  apply nth_map_in. rewrite (Hrows row Hrow). exact Hj.
Qed.

End RankInvariance.

Section SpearmanInvariance.
Import Bivariate.

Variables (spot_n xy_n : nat) (x_mat y_mat dist : matrix R).
Hypothesis Hx : has_shape spot_n xy_n x_mat.
Hypothesis Hy : has_shape spot_n xy_n y_mat.
Hypothesis Hd : has_shape spot_n spot_n dist.

(** X14: the Spearman statistic sees the order of the values only: a
    strictly increasing function applied to all values of [x_mat] and
    another one applied to all values of [y_mat] change no cell, in the
    vectorized engine (average ranks) and in the masked engine (ordinal
    ranks of a stable sort) alike. *)
Theorem spearman_unchanged_by_increasing_maps (f g : R -> R) (thr : R) (i j : nat) :
  (forall a b, a < b -> f a < f b) -> (forall a b, a < b -> g a < g b) ->
  (i < spot_n)%nat -> (j < xy_n)%nat ->
  vectorized_at (emap f x_mat) (emap g y_mat) dist "spearman" i j
  = vectorized_at x_mat y_mat dist "spearman" i j /\
  masked_at (emap f x_mat) (emap g y_mat) dist thr 1 i j
  = masked_at x_mat y_mat dist thr 1 i j.
Proof.
  intros Hf Hg Hi Hj.
  pose proof (has_shape_emap f _ _ _ Hx) as Hfx.
  pose proof (has_shape_emap g _ _ _ Hy) as Hgy.
  split.
  - rewrite !(vectorized_at_value spot_n xy_n) by (assumption || now right).
    unfold entity_values. rewrite !bool_decide_eq_true_2 by reflexivity.
    rewrite (column_emap f spot_n xy_n x_mat j Hx Hj).
    rewrite (column_emap g spot_n xy_n y_mat j Hy Hj).
    now rewrite (rankdata_increasing f Hf), (rankdata_increasing g Hg).
  - rewrite !(masked_at_value spot_n xy_n) by (assumption || now right).
    unfold masked_x, masked_y.
    rewrite (column_emap f spot_n xy_n x_mat j Hx Hj).
    rewrite (column_emap g spot_n xy_n y_mat j Hy Hj).
    rewrite !mask_select_map.
    change (1 =? 1)%Z with true. unfold _wcorr.
    now rewrite (ordinal_ranks_increasing f Hf), (ordinal_ranks_increasing g Hg).
Qed.

End SpearmanInvariance.

(** * Runs of the further properties on concrete inputs *)

Section EngineRuns.
Import Bivariate Inputs.

Lemma nonneg_ones2 : nonneg ones2.
Proof. repeat constructor; lra. Qed.

Lemma nonneg_ones3 : nonneg ones3.
Proof. repeat constructor; lra. Qed.

(** X1, witness: two spots with full weights. *)
Lemma jaccard_within_unit_interval_witness :
  exists r, jaccard_at two_x two_y ones2 0 0 = Fin r /\ 0 <= r < 1.
Proof.
  apply (jaccard_within_unit_interval 2 1 two_x two_y ones2);
    first [shape_tac | lia | exact nonneg_ones2].
Defined.

(** X2, witness: in [tied_x] and [tied_y] no spot is positive in both
    variables. *)
Lemma jaccard_zero_iff_disjoint_witness :
  jaccard_at tied_x tied_y ones3 0 0 = Fin 0.
Proof.
  assert (Hx : has_shape 3 1 tied_x) by shape_tac.
  assert (Hy : has_shape 3 1 tied_y) by shape_tac.
  assert (Hd : has_shape 3 3 ones3) by shape_tac.
  assert (Hi : (0 < 3)%nat) by lia.
  assert (Hj : (0 < 1)%nat) by lia.
  apply (proj2 (jaccard_zero_iff_disjoint 3 1 tied_x tied_y ones3 Hx Hy Hd 0 0
                  nonneg_ones3 Hi Hj)).
  intros k Hk _ [Hxk Hyk].
  destruct k as [|[|[|k]]]; try lia;
    unfold tied_x, tied_y in Hxk, Hyk; cbn [get get_d nth] in Hxk, Hyk; lra.
Defined.

(** X3, witness: the weights [ones2] are symmetric. *)
Lemma cosine_within_unit_interval_witness :
  exists r, cosine_at two_x two_y ones2 0 0 = Fin r /\ -1 < r < 1.
Proof.
  assert (Hsym : forall k, (k < 2)%nat -> get ones2 k 0 = get ones2 0 k).
  { intros [|[|k]] Hk; try lia; reflexivity. }
  apply (cosine_within_unit_interval 2 1 two_x two_y ones2);
    first [shape_tac | lia | exact nonneg_ones2 | exact Hsym].
Defined.

(** X4, witness: three spots, weights of one sign. *)
Lemma statistics_symmetric_in_variables_witness :
  vectorized_at line_x line_y ones3 "spearman" 0 0
  = vectorized_at line_y line_x ones3 "spearman" 0 0 /\
  masked_at line_x line_y ones3 0 1 0 0 = masked_at line_y line_x ones3 0 1 0 0 /\
  cosine_at line_x line_y ones3 0 0 = cosine_at line_y line_x ones3 0 0 /\
  jaccard_at line_x line_y ones3 0 0 = jaccard_at line_y line_x ones3 0 0.
Proof.
  assert (Hx : has_shape 3 1 line_x) by shape_tac.
  assert (Hy : has_shape 3 1 line_y) by shape_tac.
  assert (Hd : has_shape 3 3 ones3) by shape_tac.
  assert (Hi : (0 < 3)%nat) by lia.
  assert (Hj : (0 < 1)%nat) by lia.
  destruct (statistics_symmetric_in_variables 3 1 line_x line_y ones3 Hx Hy Hd 0 0 0 Hi Hj)
    as (Hv & Hm & Hc & Hjac).
  split; [apply Hv; now right|]. split; [apply Hm; now right|]. split; assumption.
Defined.

(** X5, witness: the same column on both sides, full weights: the
    weighted variance is 1, the statistic is 1. *)
Lemma identical_columns_give_one_witness :
  vectorized_at two_x two_x ones2 "pearson" 0 0 = Ok (Fin 1) /\
  masked_at two_x two_x ones2 0 0 0 0 = Ok (Fin 1).
Proof.
  assert (Hx : has_shape 2 1 two_x) by shape_tac.
  assert (Hd : has_shape 2 2 ones2) by shape_tac.
  assert (Hi : (0 < 2)%nat) by lia.
  assert (Hj : (0 < 1)%nat) by lia.
  destruct (identical_columns_give_one 2 1 two_x two_x ones2 Hx Hx Hd 0 0 0
              nonneg_ones2 Hi Hj (fun k _ => eq_refl)) as [Hv Hm].
  split.
  - rewrite (Hv "pearson"%string (or_introl eq_refl)). do 2 f_equal.
    unfold entity_values. rewrite bool_decide_eq_false_2 by discriminate.
    unfold two_x, ones2, column. eval_sums. cbn [get get_d nth map].
    destruct (Rlt_dec _ _); [exfalso; lra|reflexivity].
  - rewrite (Hm 0%Z (or_introl eq_refl)). do 2 f_equal.
    unfold masked_values, masked_w, masked_x, spot_mask, two_x, ones2, column.
    change (0 =? 1)%Z with false. cbn [nth map]. unfold Rgt_bool. eval_cmp.
    cbn [mask_select length]. eval_sums.
    destruct (Req_dec_T _ _); [exfalso; lra|reflexivity].
Defined.

(** X14, witness: doubling one variable and shifting the other. *)
Lemma spearman_unchanged_by_increasing_maps_witness :
  vectorized_at (emap (fun v => 2 * v) line_x) (emap (fun v => v + 1) line_y) ones3
    "spearman" 0 0
  = vectorized_at line_x line_y ones3 "spearman" 0 0 /\
  masked_at (emap (fun v => 2 * v) line_x) (emap (fun v => v + 1) line_y) ones3 0 1 0 0
  = masked_at line_x line_y ones3 0 1 0 0.
Proof.
  apply (spearman_unchanged_by_increasing_maps 3 1 line_x line_y ones3);
    first [shape_tac | lia | (intros a b Hab; lra)].
Defined.

End EngineRuns.

Section TesterPropertyRuns.
Import Bivariate Permutation_test Inputs.

Abbreviation rotation_run :=
  (_local_permutation_pvals nat rotation_seed rotation_permutation).

(** The two-sided run on [signed_x] and [signed_y] returns the scaled
    counts of its loop. *)
Lemma rotation_run_returns (truth : matrix npfloat) :
  has_shape 1 2 truth ->
  exists C,
    rotation_run signed_x signed_y ones2 truth pearson_statistic 2 (Some 1%Z) false 0
    = Ok (emap (fun c => div_int c 2) C).
Proof.
  intros Ht.
  destruct (loop_total rotation_permutation (Z.to_nat 2) (rotation_seed 1)
              (mk_matrix 1 2 (fun _ _ => 0)) signed_x signed_y ones2 truth
              pearson_statistic false) as [C HC]; [reflexivity|].
  exists C. unfold _local_permutation_pvals, default_rng.
  destruct (shape_dims 1 2 truth Ht) as [-> ->]; [lia|]. now rewrite HC.
Qed.


(** X8, witness: the true statistic of the first spot is NaN; two-sided
    the p-value is 0. *)
Lemma nan_statistic_gets_pvalue_zero_witness :
  exists P,
    rotation_run signed_x signed_y ones2 [[NaN; Fin 0]] pearson_statistic 2 (Some 1%Z)
      false 0 = Ok P /\
    getf P 0 0 = Fin 0.
Proof.
  assert (Hx : has_shape 2 1 signed_x) by shape_tac.
  assert (Hy : has_shape 2 1 signed_y) by shape_tac.
  assert (Ht : has_shape 1 2 [[NaN; Fin 0]]) by shape_tac.
  assert (Hp : (0 < 1)%nat) by lia.
  assert (Hperm : (0 < 2)%Z) by lia.
  assert (Hc : (0 < 2)%nat) by lia.
  destruct (rotation_run_returns [[NaN; Fin 0]] Ht) as [C HC].
  exists (emap (fun c => div_int c 2) C). split; [exact HC|].
  destruct (nan_statistic_gets_pvalue_zero nat rotation_seed rotation_permutation 2 1
              signed_x signed_y ones2 [[NaN; Fin 0]] pearson_statistic 2 (Some 1%Z) 0
              Ht Hp Hperm false _ 0 0 Hx Hy Hp Hc eq_refl HC) as [E _].
  apply E. now left.
Defined.

(** X15, witness: with two permutations a p-value is 0, 1/2 or 1. *)
Lemma pvalues_are_counts_over_n_perm_witness :
  exists P (a : nat),
    rotation_run signed_x signed_y ones2 [[Fin 0; Fin 0]] pearson_statistic 2 (Some 1%Z)
      false 0 = Ok P /\
    (Z.of_nat a <= 2)%Z /\ getf P 0 0 = Fin (INR a / IZR 2).
Proof.
  assert (Ht : has_shape 1 2 [[Fin 0; Fin 0]]) by shape_tac.
  assert (Hp : (0 < 1)%nat) by lia.
  assert (Hperm : (0 < 2)%Z) by lia.
  assert (Hc : (0 < 2)%nat) by lia.
  destruct (rotation_run_returns [[Fin 0; Fin 0]] Ht) as [C HC].
  destruct (pvalues_are_counts_over_n_perm nat rotation_seed rotation_permutation 2 1
              signed_x signed_y ones2 [[Fin 0; Fin 0]] pearson_statistic 2 (Some 1%Z) 0
              Ht Hp Hperm false _ 0 0 HC Hp Hc) as (a & Ha & Ea).
  exists (emap (fun c => div_int c 2) C), a. repeat split; assumption.
Defined.

Lemma rotation_of_two (k : nat) :
  Permutation (fst (rotation_permutation k 2)) (seq 0 2).
Proof.
  unfold rotation_permutation, tabulate. cbn [fst seq map Nat.add].
  assert (Hk : (k mod 2 = 0 \/ k mod 2 = 1)%nat)
    by (pose proof (Nat.mod_upper_bound k 2); lia).
  replace (S k mod 2)%nat with ((1 + k mod 2) mod 2)%nat
    by (rewrite Nat.Div0.add_mod_idemp_r; reflexivity).
  destruct Hk as [-> | ->].
  - apply Permutation_refl.
  - apply perm_swap.
Qed.

(** X16, witness: the sum of the column over the spots depends on
    [x_mat] and not on the order of its rows. *)
Lemma unchanged_statistic_gets_pvalue_one_witness :
  exists P,
    rotation_run two_x two_y ones2 [[Fin 3; Fin 3]]
      (fun x_mat _ _ =>
         Ok [[Fin (get x_mat 0 0 + get x_mat 1 0); Fin (get x_mat 0 0 + get x_mat 1 0)]])
      3 (Some 1%Z) false 0 = Ok P /\
    has_shape 1 2 P /\
    forall r c, (r < 1)%nat -> (c < 2)%nat -> getf P r c = Fin 1.
Proof.
  apply (unchanged_statistic_gets_pvalue_one nat rotation_seed rotation_permutation 2 1
           two_x two_y ones2 [[Fin 3; Fin 3]]
           (fun x_mat _ _ =>
              Ok [[Fin (get x_mat 0 0 + get x_mat 1 0); Fin (get x_mat 0 0 + get x_mat 1 0)]])
           3 (Some 1%Z) 0).
  - shape_tac.
  - lia.
  - lia.
  - exact rotation_of_two.
  - intros idx Hidx. apply Permutation_sym, Permutation_length_2_inv in Hidx.
    destruct Hidx as [-> | ->]; unfold take_rows, two_x; cbn [map nth get get_d seq];
      do 2 f_equal; repeat (f_equal; try lra).
  - intros r c Hr Hc. destruct r as [|r]; [|lia].
    destruct c as [|[|c]]; [discriminate|discriminate|lia].
Defined.

End TesterPropertyRuns.

Section BuilderRuns.
Import Proximity Inputs.

(** The neighbour graph and the rounding are not reached in these runs. *)
Abbreviation plain_build := (get_spatial_proximity (fun _ M => Ok M) (fun v => v)).

Lemma linear_is_a_family : "linear"%string ∈ families.
Proof. unfold families. repeat first [apply list_elem_of_here | apply list_elem_of_further]. Qed.

Lemma two_points_spatial : obsm two_points !! "spatial"%string = Some [[0; 0]; [1; 0]].
Proof. unfold two_points. cbn [obsm]. apply lookup_insert_eq. Qed.

Lemma two_points_shape : has_shape (n_obs two_points) 2 [[0; 0]; [1; 0]].
Proof. shape_tac. Qed.

Lemma two_points_size : (0 < n_obs two_points <= 1000)%nat.
Proof. cbn [n_obs two_points]. lia. Qed.

Lemma linear_is_smooth : smooth_family "linear".
Proof. right. right. reflexivity. Qed.

(** X9, witness: the linear kernel on two spots at distance 1. *)
Lemma builder_touches_only_proximity_witness :
  exists adata' ret,
    plain_build two_points 2 "linear" (Some (1 / 4)) None false false = (adata', Ok ret) /\
    n_obs adata' = 2%nat /\
    obsm adata' !! "spatial"%string = Some [[0; 0]; [1; 0]] /\
    plain_build adata' 2 "linear" (Some (1 / 4)) None false false = (adata', Ok ret).
Proof.
  pose proof (builder_run (fun _ M => Ok M) (fun v => v) two_points [[0; 0]; [1; 0]] 2 (1 / 4)
                "linear" false false linear_is_a_family two_points_spatial two_points_shape
                two_points_size) as Hrun.
  cbv zeta in Hrun.
  destruct (builder_touches_only_proximity (fun _ M => Ok M) (fun v => v) two_points _ 2
              "linear" (Some (1 / 4)) None false false _ Hrun) as (Hn & Hkeys & Hagain).
  eexists. eexists. split; [exact Hrun|]. split; [exact Hn|]. split; [|exact Hagain].
  rewrite Hkeys by discriminate. exact two_points_spatial.
Defined.

(** X10, witness: the same run. *)
Lemma builder_stores_symmetric_unit_matrix_witness :
  exists P,
    (forall inplace,
       plain_build two_points 2 "linear" (Some (1 / 4)) None false inplace
       = ({| obsm := <["proximity"%string := P]> (obsm two_points); n_obs := 2 |},
          Ok (if inplace then None else Some P))) /\
    has_shape 2 2 P /\
    forall r c, (r < 2)%nat -> (c < 2)%nat ->
      0 <= get P r c <= 1 /\
      get P r c = get P c r /\
      (get P r c = 0 \/ 1 / 4 <= get P r c) /\
      get P r r = 1.
Proof.
  assert (Hp : 0 < 2) by lra.
  destruct (builder_stores_symmetric_unit_matrix (fun _ M => Ok M) (fun v => v) two_points
              [[0; 0]; [1; 0]] 2 (1 / 4) "linear" false linear_is_smooth Hp
              two_points_spatial two_points_shape two_points_size) as (P & Hrun & Hshape & Hcells).
  exists P. split; [exact Hrun|]. split; [exact Hshape|].
  intros r c Hr Hc. destruct (Hcells r c Hr Hc) as (H1 & H2 & H3 & H4).
  repeat split; try assumption; try apply H1.
  rewrite H4. destruct (Rlt_dec 1 (1 / 4)); [exfalso; lra|reflexivity].
Defined.


End BuilderRuns.

Section CategoryRuns.
Import Categories Inputs.

(** X11, witness: the column 1, 2. *)
Lemma standardize_local_centres_columns_witness :
  exists f : nat -> R,
    (forall i, (i < 2)%nat -> getf (_standardize_matrix two_x true) i 0 = Fin (f i)) /\
    sum_n 2 f = 0 /\
    (forall i i', f i - f i' = get two_x i 0 - get two_x i' 0).
Proof.
  apply (standardize_local_centres_columns 2 1 two_x); first [shape_tac | lia].
Defined.

(** X12, witness: the column 1, 2 is not constant. *)
Lemma standardize_global_unit_columns_witness :
  exists f : nat -> R,
    (forall i, (i < 2)%nat -> getf (_standardize_matrix two_x false) i 0 = Fin (f i)) /\
    sum_n 2 f = 0 /\
    sum_n 2 (fun i => f i ^ 2) = 1.
Proof.
  assert (Hx : has_shape 2 1 two_x) by shape_tac.
  assert (Hn : (0 < 2)%nat) by lia.
  assert (Hj : (0 < 1)%nat) by lia.
  apply (proj1 (standardize_global_unit_columns 2 1 two_x Hx Hn 0 Hj)).
  exists 0%nat, 1%nat. split; [lia|]. split; [lia|].
  unfold two_x. cbn [get get_d nth]. lra.
Defined.

(** X13, witness: the first spot is below the mean in [two_x] and above
    it in [two_y]. *)
Lemma categories_of_encoded_matrices_witness :
  has_shape 2 1 (_simplify_cats (_categorize (_encode_as_char two_x) (_encode_as_char two_y))) /\
  (get_d ""%string (_encode_as_char two_x) 0 0 = "P"%string \/
   get_d ""%string (_encode_as_char two_x) 0 0 = "N"%string \/
   get_d ""%string (_encode_as_char two_x) 0 0 = "Z"%string).
Proof.
  assert (Hx : has_shape 2 1 two_x) by shape_tac.
  assert (Hy : has_shape 2 1 two_y) by shape_tac.
  assert (Hi : (0 < 2)%nat) by lia.
  assert (Hj : (0 < 1)%nat) by lia.
  destruct (categories_of_encoded_matrices 2 1 two_x two_y 0 0 Hx Hy Hi Hj)
    as (Hs & Hlx & _ & _).
  split; [exact Hs|exact Hlx].
Defined.

End CategoryRuns.
